(** * optking: the option object, the qc-schema adapter and the torsion coordinate

    A shallow embedding of [optking/optparams.py], [optking/qcdbjson.py] and
    [tors.py].  Python objects are attribute dictionaries, Python values are a
    small universe of dynamically typed data, exceptions are an explicit
    outcome, and the numeric torsion formulas are read over the real numbers. *)

From Stdlib Require Import ZArith String Ascii List Bool.
From Stdlib Require Import PrimFloat FloatOps SpecFloat FloatAxioms.
From Stdlib Require Import Reals Lra.
From stdpp Require Import gmap strings list.

Set Warnings "-inexact-float,-register-all".
Local Open Scope Z_scope.
Local Open Scope string_scope.

(** ** Python values and exceptions *)

Module Py.

(** The exceptions raised by the three source files, by Python class name.
    [OptError] is what the option object raises for a bad option value. *)
Inductive exn : Type :=
| OptError (msg : string)
| ValueError (msg : string)
| KeyError (key : string)
| AttributeError (name : string)
| TypeError
| OverflowError
| IndexError
| INTCO_EXCEPT (msg : string).

Inductive outcome (A : Type) : Type :=
| Ok (a : A)
| Raise (e : exn).
Arguments Ok {A} a.
Arguments Raise {A} e.

Definition obind {A B} (m : outcome A) (k : A -> outcome B) : outcome B :=
  match m with
  | Ok a => k a
  | Raise e => Raise e
  end.

(** The values that travel through option dictionaries and JSON documents:
    [None], [bool], [int], [float] (binary64), [str], [list] and a [dict]
    with string keys, kept in insertion order. *)
Inductive pyval : Type :=
| PNone
| PBool (b : bool)
| PInt (z : Z)
| PFloat (f : float)
| PStr (s : string)
| PList (l : list pyval)
| PDict (items : list (string * pyval)).

(** Induction over the nested lists of [pyval]. *)
Section PyvalInd.
Variable P : pyval -> Prop.
Hypothesis HNone : P PNone.
Hypothesis HBool : forall b, P (PBool b).
Hypothesis HInt : forall z, P (PInt z).
Hypothesis HFloat : forall f, P (PFloat f).
Hypothesis HStr : forall s, P (PStr s).
Hypothesis HList : forall l, Forall P l -> P (PList l).
Hypothesis HDict : forall items, Forall (fun kv => P (snd kv)) items -> P (PDict items).

Fixpoint pyval_nested_ind (v : pyval) : P v :=
    match v with
    | PNone => HNone
    | PBool b => HBool b
    | PInt z => HInt z
    | PFloat f => HFloat f
    | PStr s => HStr s
    | PList l =>
        HList l ((fix go (l : list pyval) : Forall P l :=
                    match l with
                    | [] => @List.Forall_nil _ P
                    | x :: l' => @List.Forall_cons _ P x l' (pyval_nested_ind x) (go l')
                    end) l)
    | PDict items =>
        HDict items
          ((fix go (l : list (string * pyval)) : Forall (fun kv => P (snd kv)) l :=
              match l with
              | [] => @List.Forall_nil _ _
              | kv :: l' =>
                  @List.Forall_cons _ (fun kv => P (snd kv)) kv l' (pyval_nested_ind (snd kv)) (go l')
              end) items)
    end.
End PyvalInd.

(** [str.upper()] on ASCII text: the letters a-z move to A-Z, every other
    byte stays. *)
Definition upper_ascii (c : ascii) : ascii :=
  let n := nat_of_ascii c in
  if (Nat.leb 97 n && Nat.leb n 122)%bool then ascii_of_nat (n - 32) else c.

Fixpoint upper (s : string) : string :=
  match s with
  | EmptyString => EmptyString
  | String c s' => String (upper_ascii c) (upper s')
  end.

(** *** Dictionaries *)

Fixpoint dict_lookup (k : string) (items : list (string * pyval)) : option pyval :=
  match items with
  | [] => None
  | (k', v) :: rest => if String.eqb k k' then Some v else dict_lookup k rest
  end.

(** [d[k] = v] on the item list: an existing key keeps its place. *)
Fixpoint dict_store (k : string) (v : pyval) (items : list (string * pyval))
  : list (string * pyval) :=
  match items with
  | [] => [(k, v)]
  | (k', v') :: rest =>
      if String.eqb k k' then (k', v) :: rest else (k', v') :: dict_store k v rest
  end.

(** [d[k]]: subscripting with a string key. *)
Definition getitem (d : pyval) (k : string) : outcome pyval :=
  match d with
  | PDict items =>
      match dict_lookup k items with
      | Some v => Ok v
      | None => Raise (KeyError k)
      end
  | _ => Raise TypeError
  end.

(** [d[k] = v]. *)
Definition setitem (d : pyval) (k : string) (v : pyval) : outcome pyval :=
  match d with
  | PDict items => Ok (PDict (dict_store k v items))
  | _ => Raise TypeError
  end.

(** [d[k1][k2] = v], read as an update of the outer value. *)
Definition setitem2 (d : pyval) (k1 k2 : string) (v : pyval) : outcome pyval :=
  obind (getitem d k1) (fun inner =>
  obind (setitem inner k2 v) (fun inner' =>
  setitem d k1 inner')).

(** [copy.deepcopy]: containers are rebuilt, scalars are shared. *)
Fixpoint deepcopy (v : pyval) : pyval :=
  match v with
  | PList l => PList (List.map deepcopy l)
  | PDict items => PDict (List.map (fun kv => (fst kv, deepcopy (snd kv))) items)
  | _ => v
  end.

(** *** Numbers

    [bool] is a subclass of [int]; an [int] meets a [float] either exactly
    (comparisons) or after conversion to the nearest binary64 (arithmetic). *)

Inductive number : Type :=
| NInt (z : Z)
| NFloat (f : float).

Definition as_number (v : pyval) : option number :=
  match v with
  | PBool b => Some (NInt (if b then 1 else 0))
  | PInt z => Some (NInt z)
  | PFloat f => Some (NFloat f)
  | _ => None
  end.

(** The exact order between an integer and a binary64 value; [None] for a
    NaN, which compares false with everything. *)
Definition Z_float_compare (z : Z) (f : float) : option comparison :=
  match Prim2SF f with
  | S754_nan => None
  | S754_zero _ => Some (Z.compare z 0)
  | S754_infinity s => Some (if s then Gt else Lt)
  | S754_finite s m e =>
      let sm := if s then Z.neg m else Z.pos m in
      Some (if Z.leb 0 e then Z.compare z (sm * Z.pow 2 e) else Z.compare (z * Z.pow 2 (- e)) sm)
  end.

(** [float(z)]: the nearest binary64, or [OverflowError] beyond its range. *)
Definition float_of_Z (z : Z) : outcome float :=
  let f := SF2Prim (binary_normalize prec emax z 0 false) in
  if PrimFloat.is_infinity f then Raise OverflowError else Ok f.

Definition number_eqb (a b : number) : bool :=
  match a, b with
  | NInt x, NInt y => Z.eqb x y
  | NFloat x, NFloat y => PrimFloat.eqb x y
  | NInt x, NFloat y | NFloat y, NInt x =>
      match Z_float_compare x y with Some Eq => true | _ => false end
  end.

Definition number_ltb (a b : number) : bool :=
  match a, b with
  | NInt x, NInt y => Z.ltb x y
  | NFloat x, NFloat y => PrimFloat.ltb x y
  | NInt x, NFloat y => match Z_float_compare x y with Some Lt => true | _ => false end
  | NFloat x, NInt y => match Z_float_compare y x with Some Gt => true | _ => false end
  end.

Definition number_float (a : number) : outcome float :=
  match a with
  | NInt z => float_of_Z z
  | NFloat f => Ok f
  end.

(** [a == b]. *)
Fixpoint py_eq (a b : pyval) {struct a} : bool :=
  match a, b with
  | PNone, PNone => true
  | PStr s, PStr t => String.eqb s t
  | PList la, PList lb =>
      (fix go (la lb : list pyval) {struct la} : bool :=
         match la, lb with
         | [], [] => true
         | x :: la', y :: lb' => py_eq x y && go la' lb'
         | _, _ => false
         end) la lb
  | PDict ia, PDict ib =>
      Nat.eqb (length ia) (length ib) &&
      (fix go (ia : list (string * pyval)) : bool :=
         match ia with
         | [] => true
         | kv :: ia' =>
             match dict_lookup (fst kv) ib with
             | Some w => py_eq (snd kv) w
             | None => false
             end && go ia'
         end) ia
  | _, _ =>
      match as_number a, as_number b with
      | Some x, Some y => number_eqb x y
      | _, _ => false
      end
  end.

(** Code-point order on ASCII text. *)
Fixpoint string_ltb (s t : string) : bool :=
  match s, t with
  | _, EmptyString => false
  | EmptyString, String _ _ => true
  | String c s', String d t' =>
      let m := nat_of_ascii c in
      let n := nat_of_ascii d in
      if Nat.ltb m n then true else if Nat.ltb n m then false else string_ltb s' t'
  end.

(** [a < b]: numbers, text and lists are ordered; anything else is a
    [TypeError]. *)
Fixpoint py_lt (a b : pyval) {struct a} : outcome bool :=
  match a, b with
  | PStr s, PStr t => Ok (string_ltb s t)
  | PList la, PList lb =>
      (fix go (la lb : list pyval) {struct la} : outcome bool :=
         match la, lb with
         | [], [] => Ok false
         | [], _ :: _ => Ok true
         | _ :: _, [] => Ok false
         | x :: la', y :: lb' => if py_eq x y then go la' lb' else py_lt x y
         end) la lb
  | _, _ =>
      match as_number a, as_number b with
      | Some x, Some y => Ok (number_ltb x y)
      | _, _ => Raise TypeError
      end
  end.

(** [a / b] for a float divisor [b]. *)
Definition py_truediv_float (a : pyval) (b : float) : outcome pyval :=
  match as_number a with
  | Some x => obind (number_float x) (fun f => Ok (PFloat (f / b)%float))
  | None => Raise TypeError
  end.

Fixpoint string_repeat (n : nat) (s : string) : string :=
  match n with
  | O => EmptyString
  | S n' => String.append s (string_repeat n' s)
  end.

Fixpoint list_repeat {A} (n : nat) (l : list A) : list A :=
  match n with
  | O => []
  | S n' => l ++ list_repeat n' l
  end.

(** [a * b]: numbers multiply, a sequence times an integer repeats. *)
Definition py_mul (a b : pyval) : outcome pyval :=
  match as_number a, as_number b with
  | Some (NInt x), Some (NInt y) => Ok (PInt (x * y))
  | Some x, Some y =>
      obind (number_float x) (fun f =>
      obind (number_float y) (fun g => Ok (PFloat (f * g)%float)))
  | Some (NInt n), None | None, Some (NInt n) =>
      match a, b with
      | PStr s, _ | _, PStr s => Ok (PStr (string_repeat (Z.to_nat n) s))
      | PList l, _ | _, PList l => Ok (PList (list_repeat (Z.to_nat n) l))
      | _, _ => Raise TypeError
      end
  | _, _ => Raise TypeError
  end.

(** Truth value testing. *)
Definition py_bool (v : pyval) : bool :=
  match v with
  | PNone => false
  | PBool b => b
  | PInt z => negb (Z.eqb z 0)
  | PFloat f => negb (PrimFloat.eqb f 0%float)
  | PStr s => negb (String.eqb s "")
  | PList l => match l with [] => false | _ => true end
  | PDict items => match items with [] => false | _ => true end
  end.

Definition py_any (l : list pyval) : bool := existsb py_bool l.

(** [t.startswith(s)] and [s in t] for two texts. *)
Fixpoint starts_with (s t : string) : bool :=
  match s, t with
  | EmptyString, _ => true
  | String c s', String d t' => Ascii.eqb c d && starts_with s' t'
  | String _ _, EmptyString => false
  end.

Fixpoint text_in (s t : string) : bool :=
  starts_with s t ||
  match t with
  | EmptyString => false
  | String _ t' => text_in s t'
  end.

(** [k in d] for a text [k]: a key of a dict, an item of a list, a piece of
    a text; the other values are not containers. *)
Definition contains (d : pyval) (k : string) : outcome bool :=
  match d with
  | PDict items => Ok (match dict_lookup k items with Some _ => true | None => false end)
  | PList l => Ok (existsb (py_eq (PStr k)) l)
  | PStr t => Ok (text_in k t)
  | _ => Raise TypeError
  end.

Definition dict_remove (k : string) (items : list (string * pyval)) : list (string * pyval) :=
  List.filter (fun kv => negb (String.eqb k (fst kv))) items.

(** [del d[k]]. *)
Definition delitem (d : pyval) (k : string) : outcome pyval :=
  match d with
  | PDict items =>
      match dict_lookup k items with
      | Some _ => Ok (PDict (dict_remove k items))
      | None => Raise (KeyError k)
      end
  | _ => Raise TypeError
  end.

(** [del d[k1][k2]], read as an update of the outer value. *)
Definition delitem2 (d : pyval) (k1 k2 : string) : outcome pyval :=
  obind (getitem d k1) (fun inner =>
  obind (delitem inner k2) (fun inner' =>
  setitem d k1 inner')).

(** [math.sqrt(n)] for an integer [n]. *)
Definition math_sqrt (n : Z) : outcome float :=
  if Z.ltb n 0 then Raise (ValueError "math domain error")
  else obind (float_of_Z n) (fun f => Ok (PrimFloat.sqrt f)).

(** [int(f)]: truncation towards zero. *)
Definition int_of_float (f : float) : outcome Z :=
  match Prim2SF f with
  | S754_nan => Raise (ValueError "cannot convert float NaN to integer")
  | S754_infinity _ => Raise OverflowError
  | S754_zero _ => Ok 0
  | S754_finite s m e =>
      let magnitude := if Z.leb 0 e then Z.pos m * Z.pow 2 e else Z.pos m / Z.pow 2 (- e) in
      Ok (if s then - magnitude else magnitude)
  end.

End Py.

(** ** optking/qcdbjson.py *)

Module qcdbjson.
Import Py.

(** An adapter instance owns one document, [self.optking_json]. *)
Record jsonSchema : Type := { optking_json : pyval }.

(** [jsonSchema.__init__(self, JSON_dict)] *)
Definition init (JSON_dict : pyval) : outcome jsonSchema :=
  obind (getitem JSON_dict "schema_name") (fun name =>
  if py_eq name (PStr "qc_schema_input") then
    let doc := deepcopy JSON_dict in
    obind (setitem2 doc "molecule" "fix_com" (PBool true)) (fun doc =>
    obind (setitem2 doc "molecule" "fix_orientation" (PBool true)) (fun doc =>
    Ok {| optking_json := doc |}))
  else Raise (ValueError "JSON file must match the qc_schema_input")).

(** [jsonSchema.update_geom_and_driver(self, geom, driver='gradient')]: the
    adapter after the call and the returned document.  The stored document
    takes the caller's geometry as it is; the returned one is a copy. *)
Definition update_geom_and_driver (self : jsonSchema) (geom : pyval) (driver : pyval)
  : outcome (jsonSchema * pyval) :=
  obind (setitem2 (optking_json self) "molecule" "geometry" geom) (fun doc =>
  let json_for_input := deepcopy doc in
  obind (setitem json_for_input "driver" driver) (fun json_for_input =>
  Ok ({| optking_json := doc |}, json_for_input))).

Definition default_driver : pyval := PStr "gradient".

(** [doc["molecule"]["geometry"]] *)
Definition molecule_geometry (doc : pyval) : outcome pyval :=
  obind (getitem doc "molecule") (fun m => getitem m "geometry").

(** A request document and a result document, for examples. *)
Definition sample_input : pyval :=
  PDict [ ("schema_name", PStr "qc_schema_input");
          ("schema_version", PInt 1);
          ("molecule", PDict [ ("geometry", PList [PFloat 0.0; PFloat 0.0; PFloat 0.0]);
                               ("symbols", PList [PStr "He"]) ]);
          ("driver", PStr "");
          ("model", PDict [ ("method", PStr "hf"); ("basis", PStr "cc-pvdz") ]);
          ("keywords", PDict []) ].

Definition sample_output : pyval :=
  PDict [ ("schema_name", PStr "qc_schema_output"); ("return_result", PFloat 0.0) ].

(** [jsonSchema.find_optking_options(self)]: the adapter after the call and
    the returned options. *)
Definition find_optking_options (self : jsonSchema) : outcome (jsonSchema * pyval) :=
  obind (getitem (optking_json self) "keywords") (fun keywords =>
  obind (contains keywords "optimizer") (fun found =>
  if found : bool then
    obind (getitem (optking_json self) "keywords") (fun keywords =>
    obind (getitem keywords "optimizer") (fun optking_options =>
    obind (delitem2 (optking_json self) "keywords" "optimizer") (fun doc =>
    Ok ({| optking_json := doc |}, optking_options))))
  else Ok (self, PDict []))).

(** [jsonSchema.make_qcschema(cls, geom, symbols, QM_method, basis, keywords)] *)
Definition make_qcschema (geom symbols QM_method basis keywords : pyval) : outcome jsonSchema :=
  let qcschema :=
    PDict [ ("schema_name", PStr "qc_schema_input"); ("schema_version", PInt 1);
            ("molecule", PDict [ ("geometry", geom); ("symbols", symbols);
                                 ("fix_com", PBool true); ("fix_orientation", PBool true) ]);
            ("driver", PStr "");
            ("model", PDict [ ("method", QM_method); ("basis", basis) ]);
            ("keywords", keywords) ] in
  init qcschema.

(** [jsonSchema.to_JSON_geom(geom)]: the entries of the (nat, 3) array, row
    after row. *)
Definition to_JSON_geom (geom : list (list pyval)) : pyval := PList (concat geom).

(** The module [history] is not among the sources: the three reads that
    [generate_json_output] makes of [history.oHistory] are taken as given,
    each with its value or its exception. *)
Record oHistory : Type := {
  last_E : outcome pyval;
  nuclear_repulsion_energy : outcome pyval;
  summary : outcome pyval
}.

(** [jsonSchema.generate_json_output(self, geom)] *)
Definition generate_json_output (history : oHistory) (self : jsonSchema)
    (geom : list (list pyval)) : outcome pyval :=
  let json_output := PDict [ ("schema_name", PStr "qc_schema_output") ] in
  obind (setitem json_output "provenance"
           (PDict [ ("creator", PStr "optking"); ("version", PStr "3.0?");
                    ("routine", PStr "runoptkingjson") ])) (fun json_output =>
  obind (setitem json_output "return_result" (to_JSON_geom geom)) (fun json_output =>
  obind (setitem json_output "success" (PStr "true")) (fun json_output =>
  obind (last_E history) (fun E =>
  obind (nuclear_repulsion_energy history) (fun nuc =>
  obind (setitem json_output "properties"
           (PDict [ ("return_energy", E); ("nuclear_repulsion_energy", nuc) ]))
        (fun json_output =>
  obind (summary history) (fun steps =>
  setitem2 json_output "properties" "steps" steps))))))).

(** The part of numpy that [get_JSON_result] uses: [np.asarray], [len] of
    an array and the assignment to [shape].  numpy is a library outside the
    sources, so the method takes the three operations as given, each with
    its result or its exception. *)
Record numpy : Type := {
  ndarray : Type;
  asarray : pyval -> outcome ndarray;
  len : ndarray -> outcome Z;
  set_shape : ndarray -> Z * Z -> outcome ndarray
}.

(** What a name of [get_JSON_result] may hold, and what the method hands
    back: nothing, one value or a tuple. *)
Inductive result (A : Type) : Type :=
| plain (v : pyval)
| array (a : A).
Arguments plain {A} v.
Arguments array {A} a.

Inductive returned (A : Type) : Type :=
| nothing
| one (r : result A)
| two (r1 r2 : result A)
| three (r1 r2 r3 : result A).
Arguments nothing {A}.
Arguments one {A} r.
Arguments two {A} r1 r2.
Arguments three {A} r1 r2 r3.

(** Besides the exceptions of [Py], the method can read a local name that
    no branch has bound. *)
Inductive failure : Type :=
| exception (e : exn)
| UnboundLocalError (name : string).

Inductive attempt (A : Type) : Type :=
| Returns (a : A)
| Fails (f : failure).
Arguments Returns {A} a.
Arguments Fails {A} f.

Definition abind {A B} (m : attempt A) (k : A -> attempt B) : attempt B :=
  match m with
  | Returns a => k a
  | Fails f => Fails f
  end.

Definition try {A} (o : outcome A) : attempt A :=
  match o with
  | Ok a => Returns a
  | Raise e => Fails (exception e)
  end.

(** Reading a local name. *)
Definition local {A} (name : string) (value : option A) : attempt A :=
  match value with
  | Some a => Returns a
  | None => Fails (UnboundLocalError name)
  end.

(** [int(math.sqrt(n))] *)
Definition int_sqrt (n : Z) : outcome Z := obind (math_sqrt n) int_of_float.

(** [jsonSchema.get_JSON_result(json_data, driver, nuc=False)] *)
Definition get_JSON_result (np : numpy) (json_data driver nuc : pyval)
  : attempt (returned (ndarray np)) :=
  abind (try (getitem json_data "schema_name")) (fun name =>
  if py_eq name (PStr "qc_schema_output") then
    abind
      (if py_eq driver (PStr "gradient") then
         abind (try (getitem json_data "return_result")) (fun data =>
         abind (try (asarray np data)) (fun return_result =>
         abind (try (getitem json_data "properties")) (fun properties =>
         abind (try (getitem properties "return_energy")) (fun return_energy =>
         Returns (Some (array return_result), Some return_energy)))))
       else if py_eq driver (PStr "hessian") then
         abind (try (getitem json_data "return_result")) (fun data =>
         abind (try (asarray np data)) (fun return_result =>
         abind (try (len np return_result)) (fun n =>
         abind (try (int_sqrt n)) (fun nat_3 =>
         abind (try (set_shape np return_result (nat_3, nat_3))) (fun return_result =>
         Returns (Some (array return_result), None))))))
       else if py_eq driver (PStr "energy") then
         abind (try (getitem json_data "return_result")) (fun return_result =>
         Returns (Some (plain return_result), None))
       else Returns (None, None))
      (fun names =>
    let '(return_result, return_energy) := names in
    abind (try (getitem json_data "properties")) (fun properties =>
    abind (try (getitem properties "nuclear_repulsion_energy")) (fun return_nuc =>
    if py_eq driver (PStr "gradient") && py_bool nuc then
      abind (local "return_energy" return_energy) (fun return_energy =>
      abind (local "return_result" return_result) (fun return_result =>
      Returns (three (plain return_energy) return_result (plain return_nuc))))
    else if py_eq driver (PStr "gradient") then
      abind (local "return_energy" return_energy) (fun return_energy =>
      abind (local "return_result" return_result) (fun return_result =>
      Returns (two (plain return_energy) return_result)))
    else if py_bool nuc then
      abind (local "return_result" return_result) (fun return_result =>
      Returns (two return_result (plain return_nuc)))
    else
      abind (local "return_result" return_result) (fun return_result =>
      Returns (one return_result)))))
  else Returns nothing).

(** *** Notions used to state the properties *)

(** A stand-in for numpy on flat lists of numbers, for examples: such a
    list becomes a one-dimensional array, which [shape = (n, m)] cuts into
    [n] rows of [m]; anything else is refused. *)
Fixpoint rows (n m : nat) (l : list pyval) : list pyval :=
  match n with
  | O => []
  | S n' => PList (firstn m l) :: rows n' m (skipn m l)
  end.

Definition is_scalar (v : pyval) : bool :=
  match v with
  | PBool _ | PInt _ | PFloat _ => true
  | _ => false
  end.

Definition numpy_of_lists : numpy :=
  {| ndarray := list pyval;
     asarray := fun v =>
       match v with
       | PList l => if forallb is_scalar l then Ok l else Raise (ValueError "not a flat list")
       | _ => Raise (ValueError "not a flat list")
       end;
     len := fun a => Ok (Z.of_nat (length a));
     set_shape := fun a shape =>
       let '(n, m) := shape in
       if Z.eqb (n * m) (Z.of_nat (length a)) && Z.leb 0 n
       then Ok (rows (Z.to_nat n) (Z.to_nat m) a)
       else Raise (ValueError "cannot reshape array") |}.

(** A result document with its properties, and a stored result of nine
    numbers (the Hessian of one atom), for examples. *)
Definition energy_document (energy nuc : pyval) : pyval :=
  PDict [ ("schema_name", PStr "qc_schema_output");
          ("return_result", energy);
          ("properties", PDict [ ("return_energy", energy);
                                 ("nuclear_repulsion_energy", nuc) ]) ].

Definition nine_entries : pyval :=
  PList [ PFloat 1; PFloat 2; PFloat 3; PFloat 4; PFloat 5; PFloat 6; PFloat 7; PFloat 8;
          PFloat 9 ].

End qcdbjson.

(** ** optking/optparams.py *)

Module optparams.
Import Py.

(** The table of allowed values, as written in the source (with its
    repeated [SCHLEGEL] and the two entries no property uses). *)
Definition allowedStringOptions : list (string * list string) :=
  [ ("opt_type", ["MIN"; "TS"; "IRC"]);
    ("step_type", ["RFO"; "RS_I_RFO"; "P_RFO"; "NR"; "SD"; "LINESEARCH"; "CONJUGATE"]);
    ("opt_coordinates",
      ["REDUNDANT"; "INTERNAL"; "DELOCALIZED"; "NATURAL"; "CARTESIAN"; "BOTH"]);
    ("irc_direction", ["FORWARD"; "BACKWARD"]);
    ("g_convergence",
      ["QCHEM"; "MOLPRO"; "GAU"; "GAU_LOOSE"; "GAU_TIGHT"; "GAU_VERYTIGHT"; "TURBOMOLE";
       "CFOUR"; "NWCHEM_LOOSE"; "INTERFRAG_TIGHT"]);
    ("hess_update", ["NONE"; "BFGS"; "MS"; "POWELL"; "BOFILL"]);
    ("intrafrag_hess",
      ["SCHLEGEL"; "FISCHER"; "SCHLEGEL"; "SIMPLE"; "LINDH"; "LINDH_SIMPLE"]);
    ("frag_mode", ["SINGLE"; "MULTI"]);
    ("interfrag_mode", ["FIXED"; "PRINCIPAL_AXES"]);
    ("interfrag_hess", ["DEFAULT"; "FISCHER_LIKE"]);
    ("conjugate_gradient_type", ["FLETCHER"; "DESCENT"; "POLAK"]) ].

Fixpoint table_lookup (k : string) (t : list (string * list string)) : option (list string) :=
  match t with
  | [] => None
  | (k', v) :: rest => if String.eqb k k' then Some v else table_lookup k rest
  end.

(** [x in t] for a tuple of strings. *)
Definition str_in (x : string) (t : list string) : bool := existsb (String.eqb x) t.

(** The attributes that class [OptParams] declares as [string_option]
    properties; every other attribute is plain instance storage. *)
Definition string_options : list string :=
  [ "opt_type"; "step_type"; "opt_coordinates"; "irc_direction"; "g_convergence";
    "hess_update"; "intrafrag_hess"; "frag_mode"; "conjugate_gradient_type" ].

(** [instance.__dict__] *)
Abbreviation attrs := (gmap string pyval).

(** Statements of a method: they read and write the instance and may raise;
    what was written before an exception stays written. *)
Definition M (A : Type) : Type := attrs -> outcome A * attrs.

Definition ret {A} (a : A) : M A := fun self => (Ok a, self).

Definition bind {A B} (m : M A) (k : A -> M B) : M B :=
  fun self =>
    match m self with
    | (Ok a, self') => k a self'
    | (Raise e, self') => (Raise e, self')
    end.

Definition raise {A} (e : exn) : M A := fun self => (Raise e, self).

Definition lift {A} (o : outcome A) : M A := fun self => (o, self).

Declare Scope py_scope.
Delimit Scope py_scope with py.
Notation "x <- m ;; k" := (bind m (fun x => k))
  (at level 100, m at next level, right associativity) : py_scope.
Notation "m ;; k" := (bind m (fun _ => k))
  (at level 100, right associativity) : py_scope.
Local Open Scope py_scope.

(** [string_option(storage_name)]: the getter and the setter of the property. *)
Definition string_option_getter (storage_name : string) : M pyval :=
  fun instance =>
    match instance !! storage_name with
    | Some v => (Ok v, instance)
    | None => (Raise (KeyError storage_name), instance)
    end.

Definition string_option_setter (storage_name : string) (value : pyval) : M unit :=
  fun instance =>
    match value with
    | PStr s =>
        match table_lookup storage_name allowedStringOptions with
        | Some allowed =>
            if str_in (upper s) allowed
            then (Ok tt, <[storage_name := PStr (upper s)]> instance)
            else (Raise (OptError ("Invalid value for " ++ storage_name)), instance)
        | None => (Raise (KeyError storage_name), instance)
        end
    | _ => (Raise (AttributeError "upper"), instance)
    end.

(** [self.name = value] and [self.name]: a property goes through its
    setter and getter, anything else through the instance dictionary. *)
Definition setattr (name : string) (value : pyval) : M unit :=
  if str_in name string_options
  then string_option_setter name value
  else fun self => (Ok tt, <[name := value]> self).

Definition getattr (name : string) : M pyval :=
  if str_in name string_options
  then string_option_getter name
  else fun self =>
         match self !! name with
         | Some v => (Ok v, self)
         | None => (Raise (AttributeError name), self)
         end.


(** What [__init__] asks of the user option dictionary: [uod.get(key,
    default)] and [key in uod], both answered by one lookup. *)
Class OptionMapping (D : Type) : Type := uod_find : D -> string -> option pyval.

Definition uod_get {D} `{OptionMapping D} (uod : D) (key : string) (default : pyval) : pyval :=
  match uod_find uod key with
  | Some v => v
  | None => default
  end.

Definition uod_contains {D} `{OptionMapping D} (uod : D) (key : string) : bool :=
  match uod_find uod key with
  | Some _ => true
  | None => false
  end.

(** A built-in [dict]: keys match exactly. *)
Definition plain_dict : Type := list (string * pyval).
#[export] Instance plain_dict_mapping : OptionMapping plain_dict :=
  fun d k => dict_lookup k d.

(** Modelled from the spec: the class of the user option dictionary is not
    among the sources; the spec describes it as a mapping from
    case-insensitive option names to values, looked up case-insensitively
    against the upper-cased canonical name.  A dictionary literal is taken
    over entry by entry, every key stored upper-cased (a later entry
    replaces an earlier one with the same folded key), and a lookup folds
    the key it is asked for. *)
Record CaseInsensitiveDict : Type := { folded : gmap string pyval }.

Definition CaseInsensitiveDict_of (literal : list (string * pyval)) : CaseInsensitiveDict :=
  {| folded := fold_left (fun m kv => <[upper (fst kv) := snd kv]> m) literal ∅ |}.

#[export] Instance CaseInsensitiveDict_mapping : OptionMapping CaseInsensitiveDict :=
  fun d k => folded d !! upper k.

(** The option-text parsers imported from [.misc]; that module is not among
    the sources, so [__init__] takes them as given. *)
Record misc : Type := {
  tokenize_input_string : pyval -> outcome pyval;
  int_list : pyval -> Z -> outcome pyval;
  int_float_list : pyval -> Z -> Z -> outcome pyval;
  int_xyz_float_list : pyval -> Z -> Z -> Z -> outcome pyval;
  int_fx_string : pyval -> Z -> outcome pyval;
  int_xyz_fx_string : pyval -> Z -> outcome pyval
}.

(** *** [OptParams.__init__(self, uod)] *)

Section Init.
Context {D : Type} `{OptionMapping D}.
Variable tools : misc.
Variable uod : D.

Definition when (b : bool) (m : M unit) : M unit := if b then m else ret tt.

(** [self.name == "TEXT"] *)
Definition self_is (name text : string) : M bool :=
  v <- getattr name ;; ret (py_eq v (PStr text)).

(** SUBSECTION Optimization Algorithm (source lines 91-175) *)
Definition init_algorithm : M unit :=
  setattr "program" (uod_get uod "program" (PStr "psi4")) ;;
  setattr "geom_maxiter" (uod_get uod "geom_maxiter" (PInt 50)) ;;
  (if uod_contains uod "geom_maxiter" && negb (uod_contains uod "alg_geom_maxiter")
   then v <- getattr "geom_maxiter" ;; setattr "alg_geom_maxiter" v
   else setattr "alg_geom_maxiter" (uod_get uod "alg_geom_maxiter" (PInt 50))) ;;
  setattr "print_lvl" (uod_get uod "print" (PInt 1)) ;;
  setattr "output_type" (uod_get uod "OUTPUT_TYPE" (PStr "FILE")) ;;
  setattr "opt_type" (uod_get uod "OPT_TYPE" (PStr "MIN")) ;;
  setattr "step_type" (uod_get uod "STEP_TYPE" (PStr "RFO")) ;;
  setattr "steepest_descent_type" (uod_get uod "STEEPEST_DESCENT_TYPE" (PStr "OVERLAP")) ;;
  setattr "conjugate_gradient_type" (uod_get uod "CONJUGATE_GRADIENT_TYPE" (PStr "FLETCHER")) ;;
  setattr "opt_coordinates" (uod_get uod "OPT_COORDINATES" (PStr "REDUNDANT")) ;;
  setattr "rfo_follow_root" (uod_get uod "RFO_FOLLOW_ROOT" (PBool false)) ;;
  setattr "rfo_root" (uod_get uod "RFO_ROOT" (PInt 0)) ;;
  setattr "accept_symmetry_breaking" (uod_get uod "ACCEPT_SYMMETRY_BREAKING" (PBool false)) ;;
  setattr "dynamic_level" (uod_get uod "DYNAMIC_LEVEL" (PInt 0)) ;;
  (dl <- getattr "dynamic_level" ;;
   if py_eq dl (PInt 0)
   then setattr "dynamic_level_max" (PInt 0)
   else setattr "dynamic_level_max" (uod_get uod "DYNAMIC_LEVEL_MAX" (PInt 6))) ;;
  setattr "irc_step_size" (uod_get uod "IRC_STEP_SIZE" (PFloat 0.2)) ;;
  setattr "irc_direction" (uod_get uod "IRC_DIRECTION" (PStr "FORWARD")) ;;
  setattr "irc_points" (uod_get uod "IRC_POINTS" (PInt 20)) ;;
  setattr "intrafrag_trust" (uod_get uod "INTRAFRAG_STEP_LIMIT" (PFloat 0.5)) ;;
  setattr "intrafrag_trust_min" (uod_get uod "INTRAFRAG_STEP_LIMIT_MIN" (PFloat 0.001)) ;;
  setattr "intrafrag_trust_max" (uod_get uod "INTRAFRAG_STEP_LIMIT_MAX" (PFloat 1.0)) ;;
  setattr "interfrag_trust" (uod_get uod "INTERFRAG_TRUST" (PFloat 0.5)) ;;
  setattr "interfrag_trust_min" (uod_get uod "INTERFRAG_TRUST_MIN" (PFloat 0.001)) ;;
  setattr "interfrag_trust_max" (uod_get uod "INTERFRAG_TRUST_MAX" (PFloat 1.0)) ;;
  setattr "ensure_bt_convergence" (uod_get uod "ENSURE_BT_CONVERGENCE" (PBool false)) ;;
  (tmax <- getattr "intrafrag_trust_max" ;;
   t <- getattr "intrafrag_trust" ;;
   smaller <- lift (py_lt tmax t) ;;
   when smaller (v <- getattr "intrafrag_trust_max" ;; setattr "intrafrag_trust" v)) ;;
  setattr "simple_step_scaling" (uod_get uod "SIMPLE_STEP_SCALING" (PBool false)) ;;
  setattr "consecutive_backsteps_allowed" (uod_get uod "CONSECUTIVE_BACKSTEPS" (PInt 0)) ;;
  setattr "working_consecutive_backsteps" (PInt 0) ;;
  setattr "rfo_normalization_max" (uod_get uod "RFO_NORMALIZATION_MAX" (PInt 100)) ;;
  setattr "rsrfo_alpha_max" (uod_get uod "RSRFO_ALPHA_MAX" (PFloat 1e8)) ;;
  setattr "trajectory" (uod_get uod "TRAJECTORY" (PBool false)).

(** [self.name = parse(tokenize_input_string(uod.get(key, "")))] *)
Definition set_tokenized (name key : string) (parse : pyval -> outcome pyval) : M unit :=
  let text := uod_get uod key (PStr "") in
  tokens <- lift (tokenize_input_string tools text) ;;
  parsed <- lift (parse tokens) ;;
  setattr name parsed.

(** [self.name = parse(uod.get(key, ""))] *)
Definition set_parsed (name key : string) (parse : pyval -> outcome pyval) : M unit :=
  let text := uod_get uod key (PStr "") in
  parsed <- lift (parse text) ;;
  setattr name parsed.

(** Frozen, ranged and externally forced coordinates (source lines 177-223) *)
Definition init_constraints : M unit :=
  set_tokenized "frozen_distance" "FROZEN_DISTANCE" (fun t => int_list tools t 2) ;;
  set_tokenized "frozen_bend" "FROZEN_BEND" (fun t => int_list tools t 3) ;;
  set_tokenized "frozen_dihedral" "FROZEN_DIHEDRAL" (fun t => int_list tools t 4) ;;
  set_tokenized "frozen_oofp" "FROZEN_OOFP" (fun t => int_list tools t 4) ;;
  set_tokenized "frozen_cartesian" "FROZEN_CARTESIAN"
    (fun t => int_xyz_float_list tools t 1 1 0) ;;
  set_tokenized "ranged_distance" "RANGED_DISTANCE" (fun t => int_float_list tools t 2 2) ;;
  set_tokenized "ranged_bend" "RANGED_BEND" (fun t => int_float_list tools t 3 2) ;;
  set_tokenized "ranged_dihedral" "RANGED_DIHEDRAL" (fun t => int_float_list tools t 4 2) ;;
  set_tokenized "ranged_oofp" "RANGED_OOFP" (fun t => int_float_list tools t 4 2) ;;
  set_tokenized "ranged_cartesian" "RANGED_CARTESIAN"
    (fun t => int_xyz_float_list tools t 1 1 2) ;;
  set_parsed "ext_force_distance" "EXT_FORCE_DISTANCE" (fun t => int_fx_string tools t 2) ;;
  set_parsed "ext_force_bend" "EXT_FORCE_BEND" (fun t => int_fx_string tools t 3) ;;
  set_parsed "ext_force_dihedral" "EXT_FORCE_DIHEDRAL" (fun t => int_fx_string tools t 4) ;;
  set_parsed "ext_force_oofp" "EXT_FORCE_OOFP" (fun t => int_fx_string tools t 4) ;;
  set_parsed "ext_force_cartesian" "EXT_FORCE_CARTESIAN"
    (fun t => int_xyz_fx_string tools t 1).

(** SUBSECTION Convergence Control (source lines 235-249) *)
Definition init_convergence_control : M unit :=
  setattr "g_convergence" (uod_get uod "G_CONVERGENCE" (PStr "QCHEM")) ;;
  setattr "max_force_g_convergence" (uod_get uod "MAX_FORCE_G_CONVERGENCE" (PFloat 3.0e-4)) ;;
  setattr "rms_force_g_convergence" (uod_get uod "RMS_FORCE_G_CONVERGENCE" (PFloat 3.0e-4)) ;;
  setattr "max_energy_g_convergence" (uod_get uod "MAX_ENERGY_G_CONVERGENCE" (PFloat 1.0e-6)) ;;
  setattr "max_disp_g_convergence" (uod_get uod "MAX_DISP_G_CONVERGENCE" (PFloat 1.2e-3)) ;;
  setattr "rms_disp_g_convergence" (uod_get uod "RMS_DISP_G_CONVERGENCE" (PFloat 1.2e-3)) ;;
  setattr "flexible_g_convergence" (uod_get uod "FLEXIBLE_G_CONVERGENCE" (PBool false)).

(** SUBSECTION Hessian Update and external Hessians (source lines 253-285) *)
Definition init_hessian : M unit :=
  setattr "hess_update" (uod_get uod "HESS_UPDATE" (PStr "BFGS")) ;;
  setattr "hess_update_use_last" (uod_get uod "HESS_UPDATE_USE_LAST" (PInt 4)) ;;
  setattr "hess_update_limit" (uod_get uod "HESS_UPDATE_LIMIT" (PBool true)) ;;
  setattr "hess_update_limit_max" (uod_get uod "HESS_UPDATE_LIMIT_MAX" (PFloat 1.00)) ;;
  setattr "hess_update_limit_scale" (uod_get uod "HESS_UPDATE_LIMIT_SCALE" (PFloat 0.50)) ;;
  setattr "hess_update_den_tol" (uod_get uod "HESS_UPDATE_DEN_TOL" (PFloat 1e-7)) ;;
  setattr "hess_update_dq_tol" (PFloat 0.5) ;;
  setattr "cart_hess_read" (uod_get uod "CART_HESS_READ" (PBool false)) ;;
  setattr "hessian_file" (uod_get uod "HESSIAN_FILE" PNone) ;;
  setattr "full_hess_every" (uod_get uod "FULL_HESS_EVERY" (PInt (-1))) ;;
  setattr "intrafrag_hess" (uod_get uod "INTRAFRAG_HESS" (PStr "SCHLEGEL")) ;;
  setattr "working_steps_since_last_H" (PInt 0).

(** SUBSECTION Backtransformation, fragments and connectivity (source lines
    288-343) *)
Definition init_fragments : M unit :=
  setattr "bt_max_iter" (uod_get uod "bt_max_iter" (PInt 25)) ;;
  setattr "bt_dx_conv" (uod_get uod "bt_dx_conv" (PFloat 1.0e-7)) ;;
  setattr "bt_dx_rms_change_conv" (uod_get uod "bt_dx_rms_change_conv" (PFloat 1.0e-12)) ;;
  setattr "bt_pinv_rcond" (uod_get uod "bt_pinv_rcond" (PFloat 1.0e-6)) ;;
  setattr "frag_mode" (uod_get uod "FRAG_MODE" (PStr "SINGLE")) ;;
  setattr "frag_ref_atoms" (uod_get uod "FRAG_REF_ATOMS" PNone) ;;
  setattr "freeze_intrafrag" (uod_get uod "FREEZE_INTRAFRAG" (PBool false)) ;;
  setattr "interfrag_mode" (uod_get uod "INTERFRAG_MODE" (PStr "FIXED")) ;;
  setattr "add_auxiliary_bonds" (uod_get uod "ADD_AUXILIARY_BONDS" (PBool false)) ;;
  setattr "auxiliary_bond_factor" (uod_get uod "AUXILIARY_BOND_FACTOR" (PFloat 2.5)) ;;
  setattr "interfrag_dist_inv" (uod_get uod "INTERFRAG_DIST_INV" (PBool false)) ;;
  setattr "interfrag_collinear_tol" (uod_get uod "INTERFRAG_COLLINEAR_TOL" (PFloat 0.01)) ;;
  setattr "interfrag_coords" (uod_get uod "INTERFRAG_COORDS" PNone) ;;
  (ic <- getattr "interfrag_coords" ;;
   when (match ic with PNone => false | _ => true end)
     (setattr "frag_mode" (PStr "MULTI"))) ;;
  setattr "covalent_connect" (uod_get uod "COVALENT_CONNECT" (PFloat 1.3)) ;;
  setattr "interfragment_connect" (uod_get uod "INTERFRAGMENT_CONNECT" (PFloat 1.8)) ;;
  setattr "h_bond_connect" (uod_get uod "h_bond_connect" (PFloat 4.3)) ;;
  setattr "generate_intcos_exit" (uod_get uod "GENERATE_INTCOS_EXIT" (PBool false)) ;;
  setattr "include_oofp" (uod_get uod "INCLUDE_OOFP" (PBool false)).

(** SUBSECTION Misc. (source lines 353-361) *)
Definition init_misc : M unit :=
  setattr "test_B" (uod_get uod "TEST_B" (PBool false)) ;;
  setattr "test_derivative_B" (uod_get uod "TEST_DERIVATIVE_B" (PBool false)) ;;
  setattr "keep_intcos" (uod_get uod "KEEP_INTCOS" (PBool false)) ;;
  setattr "linesearch_step" (uod_get uod "LINESEARCH_STEP" (PFloat 0.100)) ;;
  setattr "linesearch" (uod_get uod "LINESEARCH" (PBool false)) ;;
  setattr "sd_hessian" (uod_get uod "SD_HESSIAN" (PFloat 1.0)).

(** --- Complicated defaults --- (source lines 366-430) *)
Definition init_complicated_defaults : M unit :=
  (ts <- self_is "opt_type" "TS" ;;
   when ts
     (rfo <- self_is "step_type" "RFO" ;;
      when (rfo || negb (uod_contains uod "STEP_TYPE"))
        (setattr "step_type" (PStr "RS_I_RFO") ;;
         setattr "intrafrag_trust" (PFloat 0.2)))) ;;
  when (negb (uod_contains uod "GEOM_MAXITER"))
    (irc <- self_is "opt_type" "IRC" ;;
     when irc
       (points <- getattr "irc_points" ;;
        maxiter <- getattr "geom_maxiter" ;;
        product <- lift (py_mul points maxiter) ;;
        setattr "geom_maxiter" product)) ;;
  when (negb (uod_contains uod "INTRAFRAG_TRUST_MIN"))
    (both <- self_is "opt_coordinates" "BOTH" ;;
     if both
     then t <- getattr "intrafrag_trust" ;;
          half <- lift (py_truediv_float t 2.0) ;;
          setattr "intrafrag_trust_min" half
     else
       sd <- self_is "step_type" "SD" ;;
       if sd
       then t <- getattr "intrafrag_trust" ;; setattr "intrafrag_trust_min" t
       else
         f1 <- getattr "ext_force_distance" ;;
         f2 <- getattr "ext_force_bend" ;;
         f3 <- getattr "ext_force_dihedral" ;;
         f4 <- getattr "ext_force_oofp" ;;
         f5 <- getattr "ext_force_cartesian" ;;
         when (py_any [f1; f2; f3; f4; f5])
           (t <- getattr "intrafrag_trust" ;;
            half <- lift (py_truediv_float t 2.0) ;;
            setattr "intrafrag_trust_min" half)) ;;
  when (negb (uod_contains uod "H_GUESS_EVERY"))
    (lindh <- self_is "intrafrag_hess" "LINDH" ;;
     when lindh (setattr "h_guess_every" (PBool true))) ;;
  (cart <- self_is "opt_coordinates" "CARTESIAN" ;;
   when cart
     (when (negb (uod_contains uod "INTRAFRAG_HESS"))
        (setattr "intrafrag_hess" (PStr "LINDH") ;;
         when (negb (uod_contains uod "H_GUESS_EVERY"))
           (setattr "H_guess_every" (PBool false))))) ;;
  (ts <- self_is "opt_type" "TS" ;;
   ts_or_irc <- (if ts then ret true else self_is "opt_type" "IRC") ;;
   when ts_or_irc
     (when (negb (uod_contains uod "HESS_UPDATE"))
        (setattr "hess_update" (PStr "BOFILL")))) ;;
  (irc <- self_is "opt_type" "IRC" ;;
   when (irc && negb (uod_contains uod "PRINT_TRAJECTORY_XYZ_FILE"))
     (setattr "print_trajectory_xyz_file" (PBool true))) ;;
  (irc <- self_is "opt_type" "IRC" ;;
   when (irc && negb (uod_contains uod "CART_HESS_READ"))
     (setattr "read_cartesian_H" (PBool true))) ;;
  (exit <- getattr "generate_intcos_exit" ;;
   when (py_bool exit) (setattr "keep_intcos" (PBool true))) ;;
  (irc <- self_is "opt_type" "IRC" ;;
   when irc
     (every <- getattr "full_hess_every" ;;
      negative <- lift (py_lt every (PInt 0)) ;;
      when negative (setattr "full_hess_every" (PInt 0)))) ;;
  (sd <- self_is "step_type" "SD" ;;
   when (sd && negb (uod_contains uod "CONSECUTIVE_BACKSTEPS"))
     (setattr "consecutive_backsteps_allowed" (PInt 10))).

(** Items unlikely to need modification (source lines 445-465) *)
Definition init_fixed : M unit :=
  setattr "fix_val_near_pi" (PFloat 1.57) ;;
  setattr "v3d_tors_angle_lim" (PFloat 0.017) ;;
  setattr "v3d_tors_cos_tol" (PFloat 1e-10) ;;
  setattr "linear_bend_threshold" (PFloat 3.05) ;;
  setattr "small_bend_fix_threshold" (PFloat 0.35) ;;
  setattr "redundant_eval_tol" (PFloat 1.0e-10).

(** [self.conv_x = value; self.i_x = True] *)
Definition activate (conv flag : string) (value : float) : M unit :=
  setattr conv (PFloat value) ;; setattr flag (PBool true).

(** One preset of [g_convergence]: [i_untampered] and then the criteria
    in the order the source assigns them. *)
Definition preset (criteria : list (string * string * float)) : M unit :=
  setattr "i_untampered" (PBool true) ;;
  fold_right (fun c rest => activate (fst (fst c)) (snd (fst c)) (snd c) ;; rest)
    (ret tt) criteria.

Definition max_force (v : float) := ("conv_max_force", "i_max_force", v).
Definition rms_force (v : float) := ("conv_rms_force", "i_rms_force", v).
Definition max_DE (v : float) := ("conv_max_DE", "i_max_DE", v).
Definition max_disp (v : float) := ("conv_max_disp", "i_max_disp", v).
Definition rms_disp (v : float) := ("conv_rms_disp", "i_rms_disp", v).

(** The [if]/[elif] chain over [self.g_convergence] (source lines 480-573). *)
Fixpoint select_preset (presets : list (string * list (string * string * float))) : M unit :=
  match presets with
  | [] => ret tt
  | (name, criteria) :: others =>
      chosen <- self_is "g_convergence" name ;;
      if chosen then preset criteria else select_preset others
  end.

Definition g_convergence_presets : list (string * list (string * string * float)) :=
  [ ("QCHEM", [max_force 3.0e-4; max_DE 1.0e-6; max_disp 1.2e-3]);
    ("MOLPRO", [max_force 3.0e-4; max_DE 1.0e-6; max_disp 3.0e-4]);
    ("GAU", [max_force 4.5e-4; rms_force 3.0e-4; max_disp 1.8e-3; rms_disp 1.2e-3]);
    ("GAU_TIGHT", [max_force 1.5e-5; rms_force 1.0e-5; max_disp 6.0e-5; rms_disp 4.0e-5]);
    ("GAU_VERYTIGHT",
      [max_force 2.0e-6; rms_force 1.0e-6; max_disp 6.0e-6; rms_disp 4.0e-6]);
    ("GAU_LOOSE", [max_force 2.5e-3; rms_force 1.7e-3; max_disp 1.0e-2; rms_disp 6.7e-3]);
    ("TURBOMOLE",
      [max_force 1.0e-3; rms_force 5.0e-4; max_DE 1.0e-6; max_disp 1.0e-3;
       rms_disp 5.0e-4]);
    ("CFOUR", [rms_force 1.0e-4]);
    ("NWCHEM_LOOSE",
      [max_force 4.5e-3; rms_force 3.0e-3; max_disp 5.4e-3; rms_disp 3.6e-3]);
    ("INTERFRAG_TIGHT",
      [max_DE 1.0e-5; max_force 1.5e-5; rms_force 1.0e-5; max_disp 6.0e-4;
       rms_disp 4.0e-4]) ].

(** [if KEY in uod: i_untampered = False; flag = True; conv = self.option] *)
Definition specific (key flag conv option : string) : M unit :=
  when (uod_contains uod key)
    (setattr "i_untampered" (PBool false) ;;
     setattr flag (PBool true) ;;
     v <- getattr option ;;
     setattr conv v).

(** --- SET INTERNAL OPTIMIZATION PARAMETERS --- (source lines 468-601) *)
Definition init_internal : M unit :=
  setattr "i_max_force" (PBool false) ;;
  setattr "i_rms_force" (PBool false) ;;
  setattr "i_max_DE" (PBool false) ;;
  setattr "i_max_disp" (PBool false) ;;
  setattr "i_rms_disp" (PBool false) ;;
  setattr "i_untampered" (PBool false) ;;
  setattr "conv_rms_force" (PInt (-1)) ;;
  setattr "conv_rms_disp" (PInt (-1)) ;;
  setattr "conv_max_DE" (PInt (-1)) ;;
  setattr "conv_max_force" (PInt (-1)) ;;
  setattr "conv_max_disp" (PInt (-1)) ;;
  select_preset g_convergence_presets ;;
  specific "MAX_FORCE_G_CONVERGENCE" "i_max_force" "conv_max_force" "max_force_g_convergence" ;;
  specific "RMS_FORCE_G_CONVERGENCE" "i_rms_force" "conv_rms_force" "rms_force_g_convergence" ;;
  specific "MAX_ENERGY_G_CONVERGENCE" "i_max_DE" "conv_max_DE" "max_energy_g_convergence" ;;
  specific "MAX_DISP_G_CONVERGENCE" "i_max_disp" "conv_max_disp" "max_disp_g_convergence" ;;
  specific "RMS_DISP_G_CONVERGENCE" "i_rms_disp" "conv_rms_disp" "rms_disp_g_convergence" ;;
  (flexible <- getattr "flexible_g_convergence" ;;
   when (py_bool flexible) (setattr "i_untampered" (PBool true))).

Definition init : M unit :=
  init_algorithm ;;
  init_constraints ;;
  init_convergence_control ;;
  init_hessian ;;
  init_fragments ;;
  init_misc ;;
  init_complicated_defaults ;;
  init_fixed ;;
  init_internal.

(** [OptParams(uod)]: the instance dictionary of the new object, or the
    exception that escaped the constructor. *)
Definition OptParams : outcome attrs :=
  match init ∅ with
  | (Ok _, self) => Ok self
  | (Raise e, _) => Raise e
  end.

End Init.

(** [OptParams.from_internal_dict(params)] *)
Definition from_internal_dict (tools : misc) (params : plain_dict) : outcome attrs :=
  obind (OptParams tools ([] : plain_dict)) (fun options =>
  Ok (map_imap (fun key val => Some (uod_get params key val)) options)).

(** [OptParams.update_dynamic_level_params(self, run_level)]; the log
    messages are left out. *)
Definition update_dynamic_level_params (run_level : Z) : M unit :=
  if Z.eqb run_level 0 then ret tt
  else if Z.eqb run_level 1 then
    setattr "opt_coordinates" (PStr "REDUNDANT") ;;
    setattr "consecutiveBackstepsAllowed" (PInt 0) ;;
    setattr "step_type" (PStr "RFO")
  else if Z.eqb run_level 2 then
    setattr "opt_coordinates" (PStr "REDUNDANT") ;;
    setattr "consecutiveBackstepsAllowed" (PInt 2) ;;
    setattr "step_type" (PStr "RFO") ;;
    setattr "intrafrag_trust" (PFloat 0.2) ;;
    setattr "intrafrag_trust_min" (PFloat 0.2) ;;
    setattr "intrafrag_trust_max" (PFloat 0.2)
  else if Z.eqb run_level 3 then
    setattr "opt_coordinates" (PStr "BOTH") ;;
    setattr "consecutiveBackstepsAllowed" (PInt 2) ;;
    setattr "step_type" (PStr "RFO") ;;
    setattr "intrafrag_trust" (PFloat 0.1) ;;
    setattr "intrafrag_trust_min" (PFloat 0.1) ;;
    setattr "intrafrag_trust_max" (PFloat 0.1)
  else if Z.eqb run_level 4 then
    setattr "opt_coordinates" (PStr "CARTESIAN") ;;
    setattr "consecutiveBackstepsAllowed" (PInt 2) ;;
    setattr "step_type" (PStr "RFO") ;;
    setattr "intrafrag_hess" (PStr "LINDH") ;;
    setattr "intrafrag_trust" (PFloat 0.2) ;;
    setattr "intrafrag_trust_min" (PFloat 0.2) ;;
    setattr "intrafrag_trust_max" (PFloat 0.2)
  else if Z.eqb run_level 5 then
    setattr "opt_coordinates" (PStr "CARTESIAN") ;;
    setattr "consecutiveBackstepsAllowed" (PInt 2) ;;
    setattr "step_type" (PStr "SD") ;;
    setattr "sd_hessian" (PFloat 0.3) ;;
    setattr "intrafrag_trust" (PFloat 0.3) ;;
    setattr "intrafrag_trust_min" (PFloat 0.3) ;;
    setattr "intrafrag_trust_max" (PFloat 0.3)
  else if Z.eqb run_level 6 then
    setattr "opt_coordinates" (PStr "CARTESIAN") ;;
    setattr "consecutiveBackstepsAllowed" (PInt 2) ;;
    setattr "step_type" (PStr "SD") ;;
    setattr "sd_hessian" (PFloat 0.6) ;;
    setattr "intrafrag_trust" (PFloat 0.1) ;;
    setattr "intrafrag_trust_min" (PFloat 0.1) ;;
    setattr "intrafrag_trust_max" (PFloat 0.1)
  else raise (OptError "Unknown value of run_level").

(** The parsers as far as the default option text fixes them: with no text
    there is nothing to freeze, range or force, and each parser hands back an
    empty list. *)
Definition parses_empty_text (tools : misc) : Prop :=
  tokenize_input_string tools (PStr "") = Ok (PList []) /\
  (forall n, int_list tools (PList []) n = Ok (PList [])) /\
  (forall n m, int_float_list tools (PList []) n m = Ok (PList [])) /\
  (forall n m k, int_xyz_float_list tools (PList []) n m k = Ok (PList [])) /\
  (forall n, int_fx_string tools (PStr "") n = Ok (PList [])) /\
  (forall n, int_xyz_fx_string tools (PStr "") n = Ok (PList [])).

(** Modelled from the spec: the parsers of [.misc]; the spec fixes their
    result on the default, empty text (an empty specification list) and
    says malformed text fails with InvalidInput.  The record grammars
    themselves are not reproduced: text that is not empty is refused here. *)
Definition no_records (v : pyval) : outcome pyval :=
  match v with
  | PStr "" | PList [] => Ok (PList [])
  | _ => Raise (ValueError "option text outside the modelled grammar")
  end.

Definition misc_empty_text : misc := {|
  tokenize_input_string := no_records;
  int_list := fun t _ => no_records t;
  int_float_list := fun t _ _ => no_records t;
  int_xyz_float_list := fun t _ _ _ => no_records t;
  int_fx_string := fun t _ => no_records t;
  int_xyz_fx_string := fun t _ => no_records t
|}.

(** *** Notions used to state the properties *)

(** The attributes [update_dynamic_level_params] assigns.  The backstep
    allowance it writes is [consecutiveBackstepsAllowed]. *)
Definition level_attributes : list string :=
  [ "opt_coordinates"; "step_type"; "consecutiveBackstepsAllowed"; "intrafrag_trust";
    "intrafrag_trust_min"; "intrafrag_trust_max"; "intrafrag_hess"; "sd_hessian" ].

(** The iteration limit, the convergence preset and the criteria that
    [__init__] derives from it, with the backstep allowance [__init__] reads
    from the user. *)
Definition convergence_attributes : list string :=
  [ "geom_maxiter"; "g_convergence"; "i_max_force"; "i_rms_force"; "i_max_DE";
    "i_max_disp"; "i_rms_disp"; "i_untampered"; "conv_rms_force"; "conv_rms_disp";
    "conv_max_DE"; "conv_max_force"; "conv_max_disp"; "consecutive_backsteps_allowed" ].

Definition known_level (run_level : Z) : bool :=
  Z.leb 0 run_level && Z.leb run_level 6.

(** The keys of the option texts handed to the parsers. *)
Definition constraint_keys : list string :=
  [ "FROZEN_DISTANCE"; "FROZEN_BEND"; "FROZEN_DIHEDRAL"; "FROZEN_OOFP"; "FROZEN_CARTESIAN";
    "RANGED_DISTANCE"; "RANGED_BEND"; "RANGED_DIHEDRAL"; "RANGED_OOFP"; "RANGED_CARTESIAN";
    "EXT_FORCE_DISTANCE"; "EXT_FORCE_BEND"; "EXT_FORCE_DIHEDRAL"; "EXT_FORCE_OOFP";
    "EXT_FORCE_CARTESIAN" ].

(** What the constraint block does when no constraint was asked for. *)
Definition no_constraints : M unit :=
  setattr "frozen_distance" (PList []) ;;
  setattr "frozen_bend" (PList []) ;;
  setattr "frozen_dihedral" (PList []) ;;
  setattr "frozen_oofp" (PList []) ;;
  setattr "frozen_cartesian" (PList []) ;;
  setattr "ranged_distance" (PList []) ;;
  setattr "ranged_bend" (PList []) ;;
  setattr "ranged_dihedral" (PList []) ;;
  setattr "ranged_oofp" (PList []) ;;
  setattr "ranged_cartesian" (PList []) ;;
  setattr "ext_force_distance" (PList []) ;;
  setattr "ext_force_bend" (PList []) ;;
  setattr "ext_force_dihedral" (PList []) ;;
  setattr "ext_force_oofp" (PList []) ;;
  setattr "ext_force_cartesian" (PList []).

(** The instance dictionary of a constructed object (empty when the
    constructor raised). *)
Definition constructed (o : outcome attrs) : attrs :=
  match o with
  | Ok p => p
  | Raise _ => ∅
  end.

(** Two dictionary literals with the same entries in the same order, the
    keys spelled in possibly different letter case. *)
Definition same_up_to_case (l1 l2 : list (string * pyval)) : Prop :=
  Forall2 (fun kv1 kv2 => upper (fst kv1) = upper (fst kv2) /\ snd kv1 = snd kv2) l1 l2.

(** If [m] starts where [P] holds and returns normally, [Q] holds after. *)
Definition triple {A} (P : attrs -> Prop) (m : M A) (Q : attrs -> Prop) : Prop :=
  forall self a self', P self -> m self = (Ok a, self') -> Q self'.

(** [P] does not look at attributes outside [names]. *)
Definition untouched_by (names : list string) (P : attrs -> Prop) : Prop :=
  forall (self : attrs) k v, ~ In k names -> P self -> P (<[k := v]> self).

(** What construction without a [CART_HESS_READ] key comes to. *)
Definition cart_hess_read_off (self : attrs) : Prop :=
  self !! "cart_hess_read" = Some (PBool false).

Definition irc_reads_cartesian_H (self : attrs) : Prop :=
  self !! "opt_type" = Some (PStr "IRC") -> self !! "read_cartesian_H" = Some (PBool true).

Definition irc_outcome (self : attrs) : Prop :=
  cart_hess_read_off self /\ irc_reads_cartesian_H self.

(** An IRC object as the constructor leaves it: [cart_hess_read] is off
    and [read_cartesian_H] is on. *)
Definition irc_object (tools : misc) {D : Type} `{OptionMapping D} (uod : D) : Prop :=
  exists p,
    OptParams tools uod = Ok p /\
    p !! "opt_type" = Some (PStr "IRC") /\
    p !! "cart_hess_read" = Some (PBool false) /\
    p !! "read_cartesian_H" = Some (PBool true).

(** *** Notions for the invariants of construction *)

(** [P] survives every assignment to an attribute. *)
Definition stable (P : attrs -> Prop) : Prop :=
  forall name v (self self' : attrs) a,
    P self -> setattr name v self = (Ok a, self') -> P self'.

(** The enumerated option [name] holds one of its allowed values. *)
Definition holds_allowed (name : string) (self : attrs) : Prop :=
  exists s allowed,
    self !! name = Some (PStr s) /\
    table_lookup name allowedStringOptions = Some allowed /\
    In s allowed.

Definition valid_enumerated (self : attrs) : Prop :=
  forall name, In name string_options -> holds_allowed name self.

(** A value that the setter of the enumerated option [name] takes. *)
Definition acceptable (name : string) (v : pyval) : Prop :=
  exists s allowed,
    v = PStr s /\
    table_lookup name allowedStringOptions = Some allowed /\
    In (upper s) allowed.

(** The key and the default from which [__init__] assigns each enumerated
    option. *)
Definition enumerated_keys : list (string * string * pyval) :=
  [ ("opt_type", "OPT_TYPE", PStr "MIN");
    ("step_type", "STEP_TYPE", PStr "RFO");
    ("conjugate_gradient_type", "CONJUGATE_GRADIENT_TYPE", PStr "FLETCHER");
    ("opt_coordinates", "OPT_COORDINATES", PStr "REDUNDANT");
    ("irc_direction", "IRC_DIRECTION", PStr "FORWARD");
    ("g_convergence", "G_CONVERGENCE", PStr "QCHEM");
    ("hess_update", "HESS_UPDATE", PStr "BFGS");
    ("intrafrag_hess", "INTRAFRAG_HESS", PStr "SCHLEGEL");
    ("frag_mode", "FRAG_MODE", PStr "SINGLE") ].

(** [name] has been assigned, from a value its setter takes. *)
Definition assigned (name : string) (v : pyval) (self : attrs) : Prop :=
  is_Some (self !! name) /\ (In name string_options -> acceptable name v).

(** Every enumerated option that is set holds an allowed value. *)
Definition set_options_allowed (self : attrs) : Prop :=
  forall name, In name string_options -> is_Some (self !! name) -> holds_allowed name self.

(** What [update_dynamic_level_params] stores for each known level, in the
    order of the assignments. *)
Definition level_assignments (run_level : Z) : list (string * pyval) :=
  if Z.eqb run_level 1 then
    [ ("opt_coordinates", PStr "REDUNDANT"); ("consecutiveBackstepsAllowed", PInt 0);
      ("step_type", PStr "RFO") ]
  else if Z.eqb run_level 2 then
    [ ("opt_coordinates", PStr "REDUNDANT"); ("consecutiveBackstepsAllowed", PInt 2);
      ("step_type", PStr "RFO"); ("intrafrag_trust", PFloat 0.2);
      ("intrafrag_trust_min", PFloat 0.2); ("intrafrag_trust_max", PFloat 0.2) ]
  else if Z.eqb run_level 3 then
    [ ("opt_coordinates", PStr "BOTH"); ("consecutiveBackstepsAllowed", PInt 2);
      ("step_type", PStr "RFO"); ("intrafrag_trust", PFloat 0.1);
      ("intrafrag_trust_min", PFloat 0.1); ("intrafrag_trust_max", PFloat 0.1) ]
  else if Z.eqb run_level 4 then
    [ ("opt_coordinates", PStr "CARTESIAN"); ("consecutiveBackstepsAllowed", PInt 2);
      ("step_type", PStr "RFO"); ("intrafrag_hess", PStr "LINDH");
      ("intrafrag_trust", PFloat 0.2); ("intrafrag_trust_min", PFloat 0.2);
      ("intrafrag_trust_max", PFloat 0.2) ]
  else if Z.eqb run_level 5 then
    [ ("opt_coordinates", PStr "CARTESIAN"); ("consecutiveBackstepsAllowed", PInt 2);
      ("step_type", PStr "SD"); ("sd_hessian", PFloat 0.3);
      ("intrafrag_trust", PFloat 0.3); ("intrafrag_trust_min", PFloat 0.3);
      ("intrafrag_trust_max", PFloat 0.3) ]
  else if Z.eqb run_level 6 then
    [ ("opt_coordinates", PStr "CARTESIAN"); ("consecutiveBackstepsAllowed", PInt 2);
      ("step_type", PStr "SD"); ("sd_hessian", PFloat 0.6);
      ("intrafrag_trust", PFloat 0.1); ("intrafrag_trust_min", PFloat 0.1);
      ("intrafrag_trust_max", PFloat 0.1) ]
  else [].

(** One stored assignment. *)
Definition assign (self : attrs) (kv : string * pyval) : attrs := <[kv.1 := kv.2]> self.

(** [options.__dict__] handed out as a built-in dictionary. *)
Definition dump (self : attrs) : plain_dict := map_to_list self.

(** The attribute [name] holds [v]. *)
Definition holds (name : string) (v : pyval) (self : attrs) : Prop := self !! name = Some v.

(** The five individual convergence thresholds: the key looked for in the
    option dictionary, the flag and the criterion it sets, and the option
    attribute the criterion is copied from. *)
Definition specific_criteria : list (string * string * string * string) :=
  [ ("MAX_FORCE_G_CONVERGENCE", "i_max_force", "conv_max_force", "max_force_g_convergence");
    ("RMS_FORCE_G_CONVERGENCE", "i_rms_force", "conv_rms_force", "rms_force_g_convergence");
    ("MAX_ENERGY_G_CONVERGENCE", "i_max_DE", "conv_max_DE", "max_energy_g_convergence");
    ("MAX_DISP_G_CONVERGENCE", "i_max_disp", "conv_max_disp", "max_disp_g_convergence");
    ("RMS_DISP_G_CONVERGENCE", "i_rms_disp", "conv_rms_disp", "rms_disp_g_convergence") ].

Definition threshold_keys : list string := map (fun c => c.1.1.1) specific_criteria.

(** A criterion of a preset names neither its value nor its flag
    [i_untampered]. *)
Definition not_i_untampered (c : string * string * float) : Prop :=
  str_in c.1.1 ["i_untampered"] = false /\ str_in c.1.2 ["i_untampered"] = false.

(** The criterion [conv] is switched on by [flag] and holds [v], as the
    option attribute does. *)
Definition threshold_set (flag conv option : string) (v : pyval) (s : attrs) : Prop :=
  holds conv v s /\ holds flag (PBool true) s /\ holds option v s.

(** What [__init__] stores in [flexible_g_convergence]. *)
Definition flexible_option {D : Type} `{OptionMapping D} (uod : D) : pyval :=
  uod_get uod "FLEXIBLE_G_CONVERGENCE" (PBool false).

(** *** Notions for the trust radius *)

(** The intrafragment trust radius does not exceed its maximum. *)
Definition trust_within_max (self : attrs) : Prop :=
  exists t tmax,
    self !! "intrafrag_trust" = Some t /\
    self !! "intrafrag_trust_max" = Some tmax /\
    py_lt tmax t <> Ok true.

(** The object is not a transition-state search. *)
Definition not_TS (self : attrs) : Prop := self !! "opt_type" <> Some (PStr "TS").

(** The minimum of the trust radius that goes with the coordinates and the
    step type. *)
Definition trust_min_derived (self : attrs) : Prop :=
  exists t,
    self !! "intrafrag_trust" = Some t /\
    (self !! "opt_coordinates" = Some (PStr "BOTH") ->
       exists half, py_truediv_float t 2.0 = Ok half /\
                    self !! "intrafrag_trust_min" = Some half) /\
    (self !! "opt_coordinates" <> Some (PStr "BOTH") ->
     self !! "step_type" = Some (PStr "SD") ->
       self !! "intrafrag_trust_min" = Some t).

End optparams.

(** ** tors.py

    The torsion formulas are floating-point code; they are read here over
    the real numbers, with [pc.pi] the real [PI] and every literal the number
    it denotes ([1.0] is 1, [1.0e-12] is 1/10^12).  Division is the total
    division of the reals; the properties below are stated where no divisor
    is zero. *)

Module tors.
Import Py.
Local Open Scope R_scope.

Definition rle (x y : R) : bool := if Rle_dec x y then true else false.
Definition rlt (x y : R) : bool := if Rlt_dec x y then true else false.
Definition rgt (x y : R) : bool := if Rgt_dec x y then true else false.

(** A row of the geometry array: the position of one atom. *)
Definition vec : Type := (R * R * R)%type.

Definition vsub (p q : vec) : vec :=
  let '(px, py, pz) := p in
  let '(qx, qy, qz) := q in
  (px - qx, py - qy, pz - qz).

Definition vscale (k : R) (p : vec) : vec :=
  let '(px, py, pz) := p in (px * k, py * k, pz * k).

(** [p[i]] for [i] in [range(3)]. *)
Definition comp (p : vec) (i : nat) : R :=
  let '(px, py, pz) := p in
  match i with
  | O => px
  | S O => py
  | _ => pz
  end.

(** Modelled from the spec: module [v3d] is not among the sources; [norm]
    is the Euclidean length, [dot] the scalar product and [cross] the vector
    product of 3-vectors. *)
Definition norm (p : vec) : R :=
  let '(px, py, pz) := p in sqrt (px * px + py * py + pz * pz).

Definition dot (p q : vec) : R :=
  let '(px, py, pz) := p in
  let '(qx, qy, qz) := q in
  px * qx + py * qy + pz * qz.

Definition cross (p q : vec) : vec :=
  let '(px, py, pz) := p in
  let '(qx, qy, qz) := q in
  (py * qz - pz * qy, pz * qx - px * qz, px * qy - py * qx).

(** [op.Params.fix_val_near_pi], the value [OptParams.__init__] assigns. *)
Definition fix_val_near_pi : R := 1.57.

(** Modelled from the spec: the base class [SIMPLE] of [simple.py] is not
    among the sources; it keeps the atom tuple, the frozen flag and the
    optional fixed equilibrium value. *)
Record SIMPLE : Type := {
  atoms : list nat;
  frozen : bool;
  fixedEqVal : option R
}.

Record TORS : Type := {
  base : SIMPLE;
  _near180 : Z
}.

(** [TORS.__init__(self, a, b, c, d, frozen=False, fixedEqVal=None)] *)
Definition init (a b c d : nat) (frozen : bool) (fixedEqVal : option R) : TORS :=
  let atoms := if Nat.ltb a d then [a; b; c; d] else [d; c; b; a] in
  {| base := {| atoms := atoms; frozen := frozen; fixedEqVal := fixedEqVal |};
     _near180 := 0 |}.

(** What a torsion may be compared with: another torsion, an internal
    coordinate of another class (it has [atoms] too), or an object without
    an [atoms] attribute. *)
Inductive object : Type :=
| a_TORS (t : TORS)
| a_SIMPLE (class_name : string) (s : SIMPLE)
| another.

Definition object_atoms (o : object) : outcome (list nat) :=
  match o with
  | a_TORS t => Ok (atoms (base t))
  | a_SIMPLE _ s => Ok (atoms s)
  | another => Raise (AttributeError "atoms")
  end.

(** [isinstance(other, TORS)] *)
Definition is_TORS (o : object) : bool :=
  match o with
  | a_TORS _ => true
  | _ => false
  end.

Fixpoint tuple_eqb (s t : list nat) : bool :=
  match s, t with
  | [], [] => true
  | x :: s', y :: t' => Nat.eqb x y && tuple_eqb s' t'
  | _, _ => false
  end.

(** [TORS.__eq__(self, other)] *)
Definition eq (self : TORS) (other : object) : outcome bool :=
  obind (object_atoms other) (fun other_atoms =>
  if negb (tuple_eqb (atoms (base self)) other_atoms) then Ok false
  else if negb (is_TORS other) then Ok false
  else Ok true).

(** [self.near180] *)
Definition near180 (self : TORS) : Z := _near180 self.

(** [t[k]] on a tuple or an array. *)
Definition item {A} (t : list A) (k : nat) : outcome A :=
  match t !! k with
  | Some x => Ok x
  | None => Raise IndexError
  end.

(** [self.A], [self.B], [self.C], [self.D] *)
Definition atom_A (self : TORS) : outcome nat := item (atoms (base self)) 0.
Definition atom_B (self : TORS) : outcome nat := item (atoms (base self)) 1.
Definition atom_C (self : TORS) : outcome nat := item (atoms (base self)) 2.
Definition atom_D (self : TORS) : outcome nat := item (atoms (base self)) 3.

(** [geom[self.X]] *)
Definition position (geom : list vec) (atom : outcome nat) : outcome vec :=
  obind atom (item geom).

(** [TORS.zeta(a, m, n)] *)
Definition zeta (a m n : nat) : Z :=
  if Nat.eqb a m then 1%Z
  else if Nat.eqb a n then (-1)%Z
  else 0%Z.

Section WithV3dTors.
(** [v3d.tors(p1, p2, p3, p4)]: a success flag and the signed dihedral.
    Its code is not among the sources; [q] only passes its answer on. *)
Variable v3d_tors : vec -> vec -> vec -> vec -> bool * R.

(** [TORS.q(self, geom)] *)
Definition q (self : TORS) (geom : list vec) : outcome R :=
  obind (position geom (atom_A self)) (fun pA =>
  obind (position geom (atom_B self)) (fun pB =>
  obind (position geom (atom_C self)) (fun pC =>
  obind (position geom (atom_D self)) (fun pD =>
  let '(check, tau) := v3d_tors pA pB pC pD in
  if negb check then Raise (INTCO_EXCEPT "TORS.q: unable to compute torsion value")
  else if Z.eqb (_near180 self) (-1) && rgt tau fix_val_near_pi
  then Ok (tau - 2 * PI)
  else if Z.eqb (_near180 self) 1 && rlt tau (-1 * fix_val_near_pi)
  then Ok (tau + 2 * PI)
  else Ok tau)))).

(** [TORS.updateOrientation(self, geom)]: the torsion after the call. *)
Definition updateOrientation (self : TORS) (geom : list vec) : outcome TORS :=
  obind (q self geom) (fun tval =>
  if rgt tval fix_val_near_pi
  then Ok {| base := base self; _near180 := 1 |}
  else if rlt tval (-1 * fix_val_near_pi)
  then Ok {| base := base self; _near180 := -1 |}
  else Ok {| base := base self; _near180 := 0 |}).

(** [self.qShowFactor] and [TORS.qShow(self, geom)] *)
Definition qShowFactor : R := 180 / PI.

Definition qShow (self : TORS) (geom : list vec) : outcome R :=
  obind (q self geom) (fun value => Ok (value * qShowFactor)).

End WithV3dTors.

(** The opening lines shared by [DqDx] and [Dq2Dx2]: the unit vectors
    along B->A, C->D and B->C, their former lengths, and the two cosines. *)
Record frame : Type := {
  u : vec; v : vec; w : vec;
  Lu : R; Lv : R; Lw : R;
  cos_u : R; cos_v : R
}.

Definition frame_of (self : TORS) (geom : list vec) : outcome frame :=
  obind (position geom (atom_A self)) (fun pA =>
  obind (position geom (atom_B self)) (fun pB =>
  let u := vsub pA pB in
  obind (position geom (atom_D self)) (fun pD =>
  obind (position geom (atom_C self)) (fun pC =>
  let v := vsub pD pC in
  obind (position geom (atom_C self)) (fun pC =>
  obind (position geom (atom_B self)) (fun pB =>
  let w := vsub pC pB in
  let Lu := norm u in
  let Lv := norm v in
  let Lw := norm w in
  let u := vscale (1 / Lu) u in
  let v := vscale (1 / Lv) v in
  let w := vscale (1 / Lw) w in
  let cos_u := dot u w in
  let cos_v := - dot v w in
  Ok {| u := u; v := v; w := w; Lu := Lu; Lv := Lv; Lw := Lw;
        cos_u := cos_u; cos_v := cos_v |})))))).

(** [if 1.0 - cos_u*cos_u <= 1.0e-12 or 1.0 - cos_v*cos_v <= 1.0e-12] *)
Definition at_0_or_180 (f : frame) : bool :=
  rle (1 - cos_u f * cos_u f) 1.0e-12 || rle (1 - cos_v f * cos_v f) 1.0e-12.

(** [for x in xs: body], threading what the body mutates. *)
Fixpoint for_each {A S : Type} (xs : list A) (body : A -> S -> outcome S) (s : S) : outcome S :=
  match xs with
  | [] => Ok s
  | x :: rest => obind (body x s) (for_each rest body)
  end.

Definition range (n : nat) : list nat := seq 0 n.

Definition enumerate {A} (t : list A) : list (nat * A) := combine (seq 0 (length t)) t.

(** [arr[k] = x] on a one-dimensional array. *)
Definition store (arr : list R) (k : nat) (x : R) : outcome (list R) :=
  if Nat.ltb k (length arr) then Ok (<[k := x]> arr) else Raise IndexError.

(** [arr[r][c] = x] on a two-dimensional array. *)
Definition store2 (arr : list (list R)) (r c : nat) (x : R) : outcome (list (list R)) :=
  obind (item arr r) (fun row =>
  obind (store row c x) (fun row' =>
  Ok (<[r := row']> arr))).

(** The value [DqDx] computes for relative atom [a] and axis [i]. *)
Definition DqDx_tval (f : frame) (a i : nat) : R :=
  let sin_u := sqrt (1 - cos_u f * cos_u f) in
  let sin_v := sqrt (1 - cos_v f * cos_v f) in
  let uXw := cross (u f) (w f) in
  let vXw := cross (v f) (w f) in
  let tval := 0 in
  let tval :=
    if Nat.eqb a 0 || Nat.eqb a 1
    then tval + IZR (zeta a 0 1) * comp uXw i / (Lu f * sin_u * sin_u)
    else tval in
  let tval :=
    if Nat.eqb a 2 || Nat.eqb a 3
    then tval + IZR (zeta a 2 3) * comp vXw i / (Lv f * sin_v * sin_v)
    else tval in
  let tval :=
    if Nat.eqb a 1 || Nat.eqb a 2
    then tval + IZR (zeta a 1 2) * comp uXw i * cos_u f / (Lw f * sin_u * sin_u)
    else tval in
  let tval :=
    if Nat.eqb a 1 || Nat.eqb a 2
    then tval + - IZR (zeta a 2 1) * comp vXw i * cos_v f / (Lw f * sin_v * sin_v)
    else tval in
  tval.

(** [TORS.DqDx(self, geom, dqdx, mini=False)]: the buffer after the call. *)
Definition DqDx (self : TORS) (geom : list vec) (dqdx : list R) (mini : bool)
  : outcome (list R) :=
  obind (frame_of self geom) (fun f =>
  if at_0_or_180 f then Ok dqdx
  else
    for_each (enumerate (atoms (base self))) (fun aB dqdx =>
      let '(a, B) := aB in
      for_each (range 3) (fun i dqdx =>
        let tval := DqDx_tval f a i in
        if negb mini then store dqdx (3 * B + i) tval
        else store dqdx (3 * a + i) tval) dqdx) dqdx).

(** [(a==p and b==q)] *)
Definition pair_is (a b p q : nat) : bool := Nat.eqb a p && Nat.eqb b q.

(** The value [Dq2Dx2] computes for relative atoms [a], [b] and axes [i],
    [j]. *)
Definition Dq2Dx2_tval (f : frame) (a b i j : nat) : R :=
  let u := u f in
  let v := v f in
  let w := w f in
  let Lu := Lu f in
  let Lv := Lv f in
  let Lw := Lw f in
  let cos_u := cos_u f in
  let cos_v := cos_v f in
  let sin_u := sqrt (1 - cos_u * cos_u) in
  let sin_v := sqrt (1 - cos_v * cos_v) in
  let uXw := cross u w in
  let vXw := cross v w in
  let sinu4 := sin_u * sin_u * sin_u * sin_u in
  let sinv4 := sin_v * sin_v * sin_v * sin_v in
  let cosu3 := cos_u * cos_u * cos_u in
  let cosv3 := cos_v * cos_v * cos_v in
  let tval := 0 in
  let tval :=
    if pair_is a b 0 0 || pair_is a b 1 0 || pair_is a b 1 1
    then tval + IZR (zeta a 0 1 * zeta b 0 1) *
           (comp uXw i * (comp w j * cos_u - comp u j) +
            comp uXw j * (comp w i * cos_u - comp u i)) / (Lu * Lu * sinu4)
    else tval in
  let tval :=
    if pair_is a b 3 3 || pair_is a b 3 2 || pair_is a b 2 2
    then tval + IZR (zeta a 3 2 * zeta b 3 2) *
           (comp vXw i * (comp w j * cos_v + comp v j) +
            comp vXw j * (comp w i * cos_v + comp v i)) / (Lv * Lv * sinv4)
    else tval in
  let tval :=
    if pair_is a b 1 1 || pair_is a b 2 1 || pair_is a b 2 0 || pair_is a b 1 0
    then tval + IZR (zeta a 0 1 * zeta b 1 2 + zeta a 2 1 * zeta b 1 0) *
           (comp uXw i * (comp w j - 2 * comp u j * cos_u + comp w j * cos_u * cos_u) +
            comp uXw j * (comp w i - 2 * comp u i * cos_u + comp w i * cos_u * cos_u))
           / (2 * Lu * Lw * sinu4)
    else tval in
  let tval :=
    if pair_is a b 3 2 || pair_is a b 3 1 || pair_is a b 2 2 || pair_is a b 2 1
    then tval + IZR (zeta a 3 2 * zeta b 2 1 + zeta a 1 2 * zeta b 2 3) *
           (comp vXw i * (comp w j + 2 * comp v j * cos_v + comp w j * cos_v * cos_v) +
            comp vXw j * (comp w i + 2 * comp v i * cos_v + comp w i * cos_v * cos_v))
           / (2 * Lv * Lw * sinv4)
    else tval in
  let tval :=
    if pair_is a b 1 1 || pair_is a b 2 2 || pair_is a b 2 1
    then tval + IZR (zeta a 1 2 * zeta b 2 1) *
           (comp uXw i *
              (comp u j + comp u j * cos_u * cos_u - 3 * comp w j * cos_u + comp w j * cosu3) +
            comp uXw j *
              (comp u i + comp u i * cos_u * cos_u - 3 * comp w i * cos_u + comp w i * cosu3))
           / (2 * Lw * Lw * sinu4)
    else tval in
  let tval :=
    if pair_is a b 2 1 || pair_is a b 2 2 || pair_is a b 1 1
    then tval + IZR (zeta a 2 1 * zeta b 1 2) *
           (comp vXw i *
              (- comp v j - comp v j * cos_v * cos_v - 3 * comp w j * cos_v + comp w j * cosv3) +
            comp vXw j *
              (- comp v i - comp v i * cos_v * cos_v - 3 * comp w i * cos_v + comp w i * cosv3))
           / (2 * Lw * Lw * sinv4)
    else tval in
  if negb (Nat.eqb a b) && negb (Nat.eqb i j)
  then
    let k :=
      if negb (Nat.eqb i 0) && negb (Nat.eqb j 0) then 0%nat
      else if negb (Nat.eqb i 1) && negb (Nat.eqb j 1) then 1%nat
      else 2%nat in
    let j_i := (Z.of_nat j - Z.of_nat i)%Z in
    let half_power := (-0.5) ^ Z.abs_nat j_i in
    let tval :=
      if pair_is a b 1 1
      then tval + IZR (zeta a 0 1 * zeta b 1 2 * j_i) * half_power *
             (comp w k * cos_u - comp u k) / (Lu * Lw * sin_u * sin_u)
      else tval in
    let tval :=
      if pair_is a b 3 2 || pair_is a b 3 1 || pair_is a b 2 2 || pair_is a b 2 1
      then tval + IZR (zeta a 3 2 * zeta b 2 1 * j_i) * half_power *
             (- comp w k * cos_v - comp v k) / (Lv * Lw * sin_v * sin_v)
      else tval in
    let tval :=
      if pair_is a b 2 1 || pair_is a b 2 0 || pair_is a b 1 1 || pair_is a b 1 0
      then tval + IZR (zeta a 2 1 * zeta b 1 0 * j_i) * half_power *
             (- comp w k * cos_u + comp u k) / (Lu * Lw * sin_u * sin_u)
      else tval in
    let tval :=
      if pair_is a b 2 2
      then tval + IZR (zeta a 1 2 * zeta b 2 3 * j_i) * half_power *
             (comp w k * cos_v + comp v k) / (Lv * Lw * sin_v * sin_v)
      else tval in
    tval
  else tval.

(** [TORS.Dq2Dx2(self, geom, dq2dx2)]: the matrix after the call. *)
Definition Dq2Dx2 (self : TORS) (geom : list vec) (dq2dx2 : list (list R))
  : outcome (list (list R)) :=
  obind (frame_of self geom) (fun f =>
  if at_0_or_180 f then Ok dq2dx2
  else
    for_each (range 4) (fun a dq2dx2 =>
      for_each (range (a + 1)) (fun b dq2dx2 =>
        for_each (range 3) (fun i dq2dx2 =>
          for_each (range 3) (fun j dq2dx2 =>
            let tval := Dq2Dx2_tval f a b i j in
            obind (item (atoms (base self)) a) (fun atom_a =>
            obind (item (atoms (base self)) b) (fun atom_b =>
            obind (store2 dq2dx2 (3 * atom_a + i) (3 * atom_b + j) tval) (fun dq2dx2 =>
            store2 dq2dx2 (3 * atom_b + j) (3 * atom_a + i) tval))))
          dq2dx2) dq2dx2) dq2dx2) dq2dx2).

(** [TORS.diagonalHessianGuess(self, geom, Z, guess="SIMPLE")]; the printed
    warning is left out. *)
Definition diagonalHessianGuess (guess : string) : R :=
  if String.eqb guess "SIMPLE" then 0.1 else 1.

(** *** Notions used to state the properties *)

(** Four atoms in array order, and a geometry whose last torsion reading
    is taken as given. *)
Definition torsion_0123 : TORS := init 0 1 2 3 false None.

Definition torsion_0123_near_pi : TORS := {| base := base torsion_0123; _near180 := 1 |}.

Definition square_corner : list vec := [ (1, 0, 0); (0, 0, 0); (0, 1, 0); (0, 1, 1) ].

(** The bonds B-A, C-D and B-C have a length, so that the bend angles
    A-B-C and B-C-D exist. *)
Definition bonds_have_length (f : frame) : Prop := Lu f <> 0 /\ Lv f <> 0 /\ Lw f <> 0.

(** A, B and C on one line: the angle A-B-C is 180 degrees. *)
Definition straight_ABC : list vec := [ (1, 0, 0); (0, 0, 0); (-1, 0, 0); (-1, 1, 0) ].

(** The frame [frame_of] builds for the torsion over atoms 0,1,2,3 of a
    four-point geometry. *)
Definition frame_at (pA pB pC pD : vec) : frame :=
  let u := vsub pA pB in
  let v := vsub pD pC in
  let w := vsub pC pB in
  {| u := vscale (1 / norm u) u; v := vscale (1 / norm v) v; w := vscale (1 / norm w) w;
     Lu := norm u; Lv := norm v; Lw := norm w;
     cos_u := dot (vscale (1 / norm u) u) (vscale (1 / norm w) w);
     cos_v := - dot (vscale (1 / norm v) v) (vscale (1 / norm w) w) |}.

(** The twelve values in the order the two loops write them. *)
Definition DqDx_values (f : frame) : list R :=
  flat_map (fun a => map (DqDx_tval f a) (range 3)) (range 4).

(** *** Notions for the derivative buffers *)

(** The index of the buffer that [DqDx] writes for relative atom [a],
    absolute atom [B] and axis [i]. *)
Definition DqDx_index (mini : bool) (a B i : nat) : nat :=
  if negb mini then (3 * B + i)%nat else (3 * a + i)%nat.

(** Entry [k] belongs to one of the atoms of the torsion. *)
Definition DqDx_target (self : TORS) (mini : bool) (k : nat) : Prop :=
  exists a B i, atoms (base self) !! a = Some B /\ (i < 3)%nat /\ k = DqDx_index mini a B i.

(** [m[r][c]], where the matrix has such an entry. *)
Definition cell (m : list (list R)) (r c : nat) : option R :=
  match m !! r with
  | Some row => row !! c
  | None => None
  end.

(** [m[r][c]] and [m[c][r]] agree wherever they exist. *)
Definition symmetric (m : list (list R)) : Prop := forall r c, cell m r c = cell m c r.

(** Row or column [k] belongs to one of the atoms of the torsion. *)
Definition own_coordinate (self : TORS) (k : nat) : Prop :=
  exists a B i, atoms (base self) !! a = Some B /\ (i < 3)%nat /\ k = (3 * B + i)%nat.

(** As many rows, and each row as long. *)
Definition same_shape (m m' : list (list R)) : Prop :=
  length m' = length m /\ forall r, length <$> (m' !! r) = length <$> (m !! r).

(** One store into a one-dimensional array that has the entry. *)
Definition write (s : list R) (kx : nat * R) : list R := <[kx.1 := kx.2]> s.

(** What the two loops of [DqDx] write, in order. *)
Definition DqDx_writes (self : TORS) (f : frame) (mini : bool) : list (nat * R) :=
  flat_map (fun aB : nat * nat =>
              map (fun i => (DqDx_index mini aB.1 aB.2 i, DqDx_tval f aB.1 i)) (range 3))
           (enumerate (atoms (base self))).

(** What [Dq2Dx2] keeps while it runs. *)
Definition Dq2Dx2_keeps (self : TORS) (m s : list (list R)) : Prop :=
  same_shape m s /\
  (symmetric m -> symmetric s) /\
  (forall r c, ~ (own_coordinate self r /\ own_coordinate self c) -> cell s r c = cell m r c).

End tors.

(** * Properties *)

(** ** Facts about Python values *)

Module PyFacts.
Import Py.

Lemma deepcopy_same (v : pyval) : deepcopy v = v.
Proof.
  induction v using pyval_nested_ind; simpl; try reflexivity.
  - f_equal. induction H as [|x l Hx _ IH]; simpl; [reflexivity|].
    now rewrite Hx, IH.
  - f_equal. induction H as [|[k x] l Hx _ IH]; simpl; [reflexivity|].
    simpl in Hx. now rewrite Hx, IH.
Qed.

Lemma dict_lookup_store_same k v items :
  dict_lookup k (dict_store k v items) = Some v.
Proof.
  induction items as [|[k' v'] rest IH]; simpl.
  - now rewrite String.eqb_refl.
  - destruct (String.eqb k k') eqn:E; simpl; rewrite E; [reflexivity | exact IH].
Qed.

Lemma dict_lookup_store_other k k' v items :
  k <> k' -> dict_lookup k' (dict_store k v items) = dict_lookup k' items.
Proof.
  intros Hne. induction items as [|[k0 v0] rest IH]; simpl.
  - destruct (String.eqb k' k) eqn:E; [|reflexivity].
    apply String.eqb_eq in E. congruence.
  - destruct (String.eqb k k0) eqn:E; simpl.
    + apply String.eqb_eq in E. subst k0.
      destruct (String.eqb k' k) eqn:E'; [|reflexivity].
      apply String.eqb_eq in E'. congruence.
    + now rewrite IH.
Qed.

Lemma getitem_dict d k v : getitem d k = Ok v -> exists items, d = PDict items.
Proof. destruct d; simpl; try discriminate. eauto. Qed.

(** Comparing with a text constant is true for that text only. *)
Lemma py_eq_text (v : pyval) (s : string) : py_eq v (PStr s) = true <-> v = PStr s.
Proof.
  destruct v as [| b | z | f | t | l | items]; simpl;
    try (split; [discriminate | intros E; discriminate E]).
  rewrite String.eqb_eq. split; congruence.
Qed.

Lemma dict_lookup_remove_same k items : dict_lookup k (dict_remove k items) = None.
Proof.
  induction items as [|[k' v'] rest IH]; simpl; [reflexivity|].
  unfold dict_remove in *. cbn [List.filter fst]. destruct (String.eqb k k') eqn:E; simpl.
  - exact IH.
  - rewrite E. exact IH.
Qed.

Lemma dict_lookup_remove_other k k' items :
  k <> k' -> dict_lookup k' (dict_remove k items) = dict_lookup k' items.
Proof.
  intros Hne. induction items as [|[k0 v0] rest IH]; simpl; [reflexivity|].
  unfold dict_remove in *. cbn [List.filter fst]. destruct (String.eqb k k0) eqn:E; simpl.
  - apply String.eqb_eq in E. subst k0.
    destruct (String.eqb k' k) eqn:E'; [|exact IH].
    apply String.eqb_eq in E'. congruence.
  - now rewrite IH.
Qed.

End PyFacts.

(** ** The qc-schema adapter *)

Module qcdbjsonFacts.
Import Py PyFacts qcdbjson.

Lemma setitem2_molecule items molecule key value :
  dict_lookup "molecule" items = Some (PDict molecule) ->
  setitem2 (PDict items) "molecule" key value =
    Ok (PDict (dict_store "molecule" (PDict (dict_store key value molecule)) items)).
Proof. intros H. unfold setitem2. simpl. now rewrite H. Qed.

(** C2. An adapter is built from any document named "qc_schema_input" (with
    its molecule mapping); [update_geom_and_driver] with a new geometry and
    the driver "hessian" then returns a document whose molecule geometry is
    the new geometry and whose driver is "hessian", with [schema_name] and
    [model] as in the input.  A document with any other [schema_name] is
    refused with the ValueError of the constructor. *)
Theorem update_geom_and_driver_round_trip (doc name : pyval) :
  getitem doc "schema_name" = Ok name ->
  (name = PStr "qc_schema_input" ->
   forall molecule geom,
     getitem doc "molecule" = Ok (PDict molecule) ->
     exists adapter adapter' out,
       init doc = Ok adapter /\
       update_geom_and_driver adapter geom (PStr "hessian") = Ok (adapter', out) /\
       molecule_geometry out = Ok geom /\
       getitem out "driver" = Ok (PStr "hessian") /\
       getitem out "schema_name" = Ok (PStr "qc_schema_input") /\
       getitem out "model" = getitem doc "model") /\
  (name <> PStr "qc_schema_input" ->
   init doc = Raise (ValueError "JSON file must match the qc_schema_input")).
Proof.
  intros Hname. destruct (getitem_dict _ _ _ Hname) as [items ->]. split.
  - intros -> molecule geom Hmol.
    unfold init. rewrite Hname. cbn [obind].
    replace (py_eq (PStr "qc_schema_input") (PStr "qc_schema_input")) with true by reflexivity.
    rewrite deepcopy_same.
    assert (Hm : dict_lookup "molecule" items = Some (PDict molecule)).
    { simpl in Hmol. destruct (dict_lookup "molecule" items); congruence. }
    rewrite (setitem2_molecule _ _ _ _ Hm). cbn [obind].
    rewrite (setitem2_molecule _ (dict_store "fix_com" (PBool true) molecule));
      [|apply dict_lookup_store_same].
    cbn [obind]. eexists _, _, _. split; [reflexivity|].
    unfold update_geom_and_driver. cbn [optking_json].
    rewrite (setitem2_molecule _
      (dict_store "fix_orientation" (PBool true) (dict_store "fix_com" (PBool true) molecule)));
      [|apply dict_lookup_store_same].
    cbn [obind]. rewrite deepcopy_same. split; [reflexivity|].
    unfold molecule_geometry. simpl.
    rewrite !dict_lookup_store_other by discriminate.
    rewrite !dict_lookup_store_same. simpl.
    rewrite !dict_lookup_store_same.
    rewrite !dict_lookup_store_other by discriminate.
    simpl in Hname. destruct (dict_lookup "schema_name" items); [|discriminate].
    repeat split; congruence.
  - intros Hne. unfold init. rewrite Hname. simpl.
    destruct (py_eq name (PStr "qc_schema_input")) eqn:E; [|reflexivity].
    apply py_eq_text in E. contradiction.
Qed.

Lemma update_geom_and_driver_round_trip_witness :
  (exists adapter adapter' out,
     init sample_input = Ok adapter /\
     update_geom_and_driver adapter (PList [PFloat 1.0; PFloat 0.0; PFloat 0.5]) (PStr "hessian")
       = Ok (adapter', out) /\
     molecule_geometry out = Ok (PList [PFloat 1.0; PFloat 0.0; PFloat 0.5]) /\
     getitem out "driver" = Ok (PStr "hessian") /\
     getitem out "schema_name" = Ok (PStr "qc_schema_input") /\
     getitem out "model" = getitem sample_input "model") /\
  init sample_output = Raise (ValueError "JSON file must match the qc_schema_input").
Proof.
  split.
  - refine (proj1 (update_geom_and_driver_round_trip sample_input (PStr "qc_schema_input") _)
              _ _ (PList [PFloat 1.0; PFloat 0.0; PFloat 0.5]) _); reflexivity.
  - refine (proj2 (update_geom_and_driver_round_trip sample_output (PStr "qc_schema_output") _)
              _); [reflexivity | discriminate].
Defined.

(** The adapter keeps the new geometry too: after the call its own
    document holds it, and asking again with another driver changes nothing
    else. *)
Theorem update_geom_and_driver_advances_adapter
    (adapter adapter' : jsonSchema) (geom driver out : pyval) :
  update_geom_and_driver adapter geom driver = Ok (adapter', out) ->
  molecule_geometry (optking_json adapter') = Ok geom /\
  getitem out "driver" = Ok driver /\
  forall key, key <> "driver" -> getitem out key = getitem (optking_json adapter') key.
Proof.
  unfold update_geom_and_driver, setitem2. intros Hrun.
  destruct (optking_json adapter) as [| | | | | |items]; try discriminate.
  cbn [getitem obind] in Hrun.
  destruct (dict_lookup "molecule" items) as [[| | | | | |molecule]|]; try discriminate.
  cbn [setitem obind] in Hrun. rewrite deepcopy_same in Hrun. cbn [setitem obind] in Hrun.
  injection Hrun as <- <-. cbn [optking_json]. unfold molecule_geometry. cbn [getitem obind].
  rewrite !dict_lookup_store_same. cbn [getitem obind].
  rewrite ?dict_lookup_store_same. repeat split.
  intros key Hkey. now rewrite dict_lookup_store_other by congruence.
Qed.

Lemma update_geom_and_driver_advances_adapter_witness :
  let geom := PList [PFloat 1.0; PFloat 0.0; PFloat 0.5] in
  exists adapter' out,
    molecule_geometry (optking_json adapter') = Ok geom /\
    getitem out "driver" = Ok (PStr "energy") /\
    forall key, key <> "driver" -> getitem out key = getitem (optking_json adapter') key.
Proof.
  eexists _, _.
  refine (update_geom_and_driver_advances_adapter {| optking_json := sample_input |} _
            (PList [PFloat 1.0; PFloat 0.0; PFloat 0.5]) (PStr "energy") _ _).
  reflexivity.
Defined.

(** The constructor insists on the two frame flags: whatever the document
    says about them, the stored molecule has [fix_com] and [fix_orientation]
    True, and every other entry as in the document.  A document without a
    molecule is refused with KeyError, one whose molecule is no mapping with
    TypeError. *)
Theorem init_fixes_the_frame (items : list (string * pyval)) :
  dict_lookup "schema_name" items = Some (PStr "qc_schema_input") ->
  match dict_lookup "molecule" items with
  | Some (PDict molecule) =>
      exists adapter molecule',
        init (PDict items) = Ok adapter /\
        getitem (optking_json adapter) "molecule" = Ok (PDict molecule') /\
        dict_lookup "fix_com" molecule' = Some (PBool true) /\
        dict_lookup "fix_orientation" molecule' = Some (PBool true) /\
        (forall k, k <> "fix_com" -> k <> "fix_orientation" ->
           dict_lookup k molecule' = dict_lookup k molecule) /\
        (forall k, k <> "molecule" ->
           getitem (optking_json adapter) k = getitem (PDict items) k)
  | Some _ => init (PDict items) = Raise TypeError
  | None => init (PDict items) = Raise (KeyError "molecule")
  end.
Proof.
  intros Hname. unfold init. cbn [getitem]. rewrite Hname. cbn [obind].
  replace (py_eq (PStr "qc_schema_input") (PStr "qc_schema_input")) with true by reflexivity.
  rewrite deepcopy_same.
  destruct (dict_lookup "molecule" items) as [m|] eqn:Hm.
  - destruct m as [| | | | | |molecule];
      try (unfold setitem2; cbn [getitem]; rewrite Hm; reflexivity).
    rewrite (setitem2_molecule _ _ _ _ Hm). cbn [obind].
    rewrite (setitem2_molecule _ (dict_store "fix_com" (PBool true) molecule));
      [|apply dict_lookup_store_same].
    cbn [obind]. eexists _, _. split; [reflexivity|]. cbn [optking_json getitem].
    rewrite dict_lookup_store_same. split; [reflexivity|].
    split; [|split; [|split]].
    + rewrite dict_lookup_store_other by discriminate. apply dict_lookup_store_same.
    + apply dict_lookup_store_same.
    + intros k H1 H2. now rewrite !dict_lookup_store_other by congruence.
    + intros k Hk. now rewrite !dict_lookup_store_other by congruence.
  - unfold setitem2. cbn [getitem]. rewrite Hm. reflexivity.
Qed.

Lemma init_fixes_the_frame_witness :
  exists adapter molecule',
    init sample_input = Ok adapter /\
    getitem (optking_json adapter) "molecule" = Ok (PDict molecule') /\
    dict_lookup "fix_com" molecule' = Some (PBool true) /\
    dict_lookup "fix_orientation" molecule' = Some (PBool true) /\
    (forall k, k <> "fix_com" -> k <> "fix_orientation" ->
       dict_lookup k molecule' =
       dict_lookup k [ ("geometry", PList [PFloat 0.0; PFloat 0.0; PFloat 0.0]);
                       ("symbols", PList [PStr "He"]) ]) /\
    (forall k, k <> "molecule" ->
       getitem (optking_json adapter) k = getitem sample_input k).
Proof.
  exact (init_fixes_the_frame
           [ ("schema_name", PStr "qc_schema_input");
             ("schema_version", PInt 1);
             ("molecule", PDict [ ("geometry", PList [PFloat 0.0; PFloat 0.0; PFloat 0.0]);
                                  ("symbols", PList [PStr "He"]) ]);
             ("driver", PStr "");
             ("model", PDict [ ("method", PStr "hf"); ("basis", PStr "cc-pvdz") ]);
             ("keywords", PDict []) ] Logic.eq_refl).
Defined.

(** [find_optking_options] hands out the "optimizer" entry of the keywords
    and removes it from the stored document, leaving every other keyword and
    every other entry; a second call finds nothing and returns the empty
    mapping.  Without such an entry it returns the empty mapping and the
    document stays as it is. *)
Theorem find_optking_options_takes_the_entry
    (self : jsonSchema) (keywords : list (string * pyval)) :
  getitem (optking_json self) "keywords" = Ok (PDict keywords) ->
  match dict_lookup "optimizer" keywords with
  | Some options =>
      exists self' keywords',
        find_optking_options self = Ok (self', options) /\
        getitem (optking_json self') "keywords" = Ok (PDict keywords') /\
        dict_lookup "optimizer" keywords' = None /\
        (forall k, k <> "optimizer" -> dict_lookup k keywords' = dict_lookup k keywords) /\
        (forall k, k <> "keywords" ->
           getitem (optking_json self') k = getitem (optking_json self) k) /\
        find_optking_options self' = Ok (self', PDict [])
  | None => find_optking_options self = Ok (self, PDict [])
  end.
Proof.
  intros Hkw. destruct (getitem_dict _ _ _ Hkw) as [items Hdoc].
  unfold find_optking_options. rewrite Hkw. cbn [obind contains].
  destruct (dict_lookup "optimizer" keywords) as [options|] eqn:Hopt; [|reflexivity].
  cbn [getitem obind]. rewrite Hopt. cbn [obind].
  unfold delitem2. rewrite Hkw. cbn [obind delitem]. rewrite Hopt. cbn [obind].
  rewrite Hdoc. cbn [setitem obind].
  eexists _, _. split; [reflexivity|]. cbn [optking_json getitem].
  rewrite dict_lookup_store_same.
  split; [reflexivity|]. split; [apply dict_lookup_remove_same|].
  split; [intros k Hk; now apply dict_lookup_remove_other|].
  split; [intros k Hk; now rewrite dict_lookup_store_other by congruence|].
  cbn [obind contains]. now rewrite dict_lookup_remove_same.
Qed.

Lemma find_optking_options_takes_the_entry_witness :
  let options := PDict [ ("step_type", PStr "nr") ] in
  let self := {| optking_json :=
                   PDict [ ("schema_name", PStr "qc_schema_input");
                           ("keywords", PDict [ ("scf_type", PStr "df");
                                                ("optimizer", options) ]) ] |} in
  exists self' keywords',
    find_optking_options self = Ok (self', options) /\
    getitem (optking_json self') "keywords" = Ok (PDict keywords') /\
    dict_lookup "optimizer" keywords' = None /\
    (forall k, k <> "optimizer" ->
       dict_lookup k keywords' =
       dict_lookup k [ ("scf_type", PStr "df"); ("optimizer", options) ]) /\
    (forall k, k <> "keywords" ->
       getitem (optking_json self') k = getitem (optking_json self) k) /\
    find_optking_options self' = Ok (self', PDict []).
Proof.
  exact (find_optking_options_takes_the_entry
           {| optking_json :=
                PDict [ ("schema_name", PStr "qc_schema_input");
                        ("keywords", PDict [ ("scf_type", PStr "df");
                                             ("optimizer", PDict [ ("step_type", PStr "nr") ]) ]) ] |}
           _ Logic.eq_refl).
Defined.

(** A request built by [make_qcschema] is always accepted by the
    constructor, whatever the five arguments are.  The document that
    [update_geom_and_driver] then returns carries the new geometry and the
    driver asked for, and the symbols, the method, the basis and the
    keywords given at the start. *)
Theorem make_qcschema_is_accepted (geom symbols QM_method basis keywords geom' driver : pyval) :
  exists self self' out molecule,
    make_qcschema geom symbols QM_method basis keywords = Ok self /\
    update_geom_and_driver self geom' driver = Ok (self', out) /\
    getitem out "schema_name" = Ok (PStr "qc_schema_input") /\
    getitem out "driver" = Ok driver /\
    getitem out "model" = Ok (PDict [ ("method", QM_method); ("basis", basis) ]) /\
    getitem out "keywords" = Ok keywords /\
    getitem out "molecule" = Ok molecule /\
    getitem molecule "geometry" = Ok geom' /\
    getitem molecule "symbols" = Ok symbols /\
    getitem molecule "fix_com" = Ok (PBool true) /\
    getitem molecule "fix_orientation" = Ok (PBool true).
Proof.
  unfold make_qcschema, init. cbn [getitem dict_lookup String.eqb Ascii.eqb Bool.eqb obind].
  replace (py_eq (PStr "qc_schema_input") (PStr "qc_schema_input")) with true by reflexivity.
  rewrite deepcopy_same. cbn.
  eexists _, _, _, _. split; [reflexivity|].
  unfold update_geom_and_driver. cbn. rewrite !deepcopy_same.
  split; [reflexivity|]. repeat apply conj; reflexivity.
Qed.




(** For the driver "gradient" the energy comes first, then the array that
    numpy makes of the stored result, then the nuclear repulsion energy when
    [nuc] is true. *)
Theorem get_JSON_result_gradient
    (np : numpy) (json_data nuc data properties return_energy return_nuc : pyval)
    (gradient : ndarray np) :
  getitem json_data "schema_name" = Ok (PStr "qc_schema_output") ->
  getitem json_data "return_result" = Ok data ->
  asarray np data = Ok gradient ->
  getitem json_data "properties" = Ok properties ->
  getitem properties "return_energy" = Ok return_energy ->
  getitem properties "nuclear_repulsion_energy" = Ok return_nuc ->
  get_JSON_result np json_data (PStr "gradient") nuc =
    Returns (if py_bool nuc
             then three (plain return_energy) (array gradient) (plain return_nuc)
             else two (plain return_energy) (array gradient)).
Proof.
  intros Hname Hdata Harr Hprops He Hn. unfold get_JSON_result.
  rewrite Hname. cbn [try abind].
  replace (py_eq (PStr "qc_schema_output") (PStr "qc_schema_output")) with true by reflexivity.
  replace (py_eq (PStr "gradient") (PStr "gradient")) with true by reflexivity.
  rewrite Hdata. cbn [try abind]. rewrite Harr. cbn [try abind].
  rewrite Hprops. cbn [try abind]. rewrite He. cbn [try abind].
  rewrite Hn. cbn [try abind andb local]. now destruct (py_bool nuc).
Qed.

(** The side that [int(math.sqrt(n))] gives for the [9 N^2] entries of a
    Hessian of [N] atoms is [3 N], for every molecule of up to 1000 atoms. *)
Lemma int_sqrt_side (N : nat) : (N <= 1000)%nat -> int_sqrt (9 * Z.of_nat N * Z.of_nat N) = Ok (3 * Z.of_nat N).
Proof.
  intros HN.
  assert (H : forallb (fun N => match int_sqrt (9 * Z.of_nat N * Z.of_nat N) with
                                | Ok s => Z.eqb s (3 * Z.of_nat N)
                                | Raise _ => false
                                end) (seq 0 1001) = true) by (vm_compute; reflexivity).
  rewrite forallb_forall in H. specialize (H N). rewrite in_seq in H.
  specialize (H ltac:(lia)).
  destruct (int_sqrt _) as [s|e]; [|discriminate]. apply Z.eqb_eq in H. now subst.
Qed.


(** For the driver "hessian" of a molecule of [N] atoms (up to 1000), whose
    stored result has [9 N^2] entries, the array is given the shape
    [(3 N, 3 N)]; it is returned alone, or with the nuclear repulsion energy
    when [nuc] is true. *)
Theorem get_JSON_result_hessian
    (np : numpy) (json_data nuc data return_nuc : pyval) (flat square : ndarray np) (N : nat) :
  getitem json_data "schema_name" = Ok (PStr "qc_schema_output") ->
  getitem json_data "return_result" = Ok data ->
  asarray np data = Ok flat ->
  len np flat = Ok (9 * Z.of_nat N * Z.of_nat N) ->
  (N <= 1000)%nat ->
  set_shape np flat (3 * Z.of_nat N, 3 * Z.of_nat N) = Ok square ->
  obind (getitem json_data "properties")
        (fun p => getitem p "nuclear_repulsion_energy") = Ok return_nuc ->
  get_JSON_result np json_data (PStr "hessian") nuc =
    Returns (if py_bool nuc then two (array square) (plain return_nuc)
             else one (array square)).
Proof.
  intros Hname Hdata Harr Hlen HN Hshape Hn. unfold get_JSON_result.
  rewrite Hname. cbn [try abind].
  replace (py_eq (PStr "qc_schema_output") (PStr "qc_schema_output")) with true by reflexivity.
  replace (py_eq (PStr "hessian") (PStr "gradient")) with false by reflexivity.
  replace (py_eq (PStr "hessian") (PStr "hessian")) with true by reflexivity.
  rewrite Hdata. cbn [try abind]. rewrite Harr. cbn [try abind].
  rewrite Hlen. cbn [try abind]. rewrite (int_sqrt_side N HN). cbn [try abind].
  rewrite Hshape. cbn [try abind].
  destruct (getitem json_data "properties") as [p|e]; cbn [obind try abind] in *;
    [|discriminate].
  rewrite Hn. cbn [try abind andb local]. now destruct (py_bool nuc).
Qed.

Lemma get_JSON_result_hessian_witness :
  get_JSON_result numpy_of_lists (energy_document nine_entries (PFloat 9.0))
    (PStr "hessian") (PBool false) =
    Returns (one (array (A := ndarray numpy_of_lists)
                    [ PList [PFloat 1; PFloat 2; PFloat 3];
                      PList [PFloat 4; PFloat 5; PFloat 6];
                      PList [PFloat 7; PFloat 8; PFloat 9] ])).
Proof.
  exact (get_JSON_result_hessian numpy_of_lists (energy_document nine_entries (PFloat 9.0))
           (PBool false) nine_entries (PFloat 9.0) _ _ 1
           Logic.eq_refl Logic.eq_refl Logic.eq_refl Logic.eq_refl
           ltac:(lia) Logic.eq_refl Logic.eq_refl).
Defined.

Lemma get_JSON_result_gradient_witness :
  get_JSON_result numpy_of_lists (energy_document nine_entries (PFloat 9.0))
    (PStr "gradient") (PBool true) =
    Returns (three (plain nine_entries)
                   (array (A := ndarray numpy_of_lists)
                      [ PFloat 1; PFloat 2; PFloat 3; PFloat 4; PFloat 5; PFloat 6; PFloat 7;
                        PFloat 8; PFloat 9 ])
                   (plain (PFloat 9.0))).
Proof.
  exact (get_JSON_result_gradient numpy_of_lists (energy_document nine_entries (PFloat 9.0))
           (PBool true) nine_entries _ nine_entries (PFloat 9.0) _
           Logic.eq_refl Logic.eq_refl Logic.eq_refl Logic.eq_refl Logic.eq_refl Logic.eq_refl).
Defined.

(** The summary that [generate_json_output] writes is a result document
    that [get_JSON_result] reads back: asked for the "energy" it returns the
    final geometry, flattened row after row, and the nuclear repulsion
    energy of the history; asked for the "gradient" it puts the last energy
    of the history first.  The success entry is the text "true", and the
    constructor refuses the summary as a request. *)
Theorem generate_json_output_reads_back
    (np : numpy) (history : oHistory) (self : jsonSchema) (geom : list (list pyval))
    (E nuc steps : pyval) (flat : ndarray np) :
  last_E history = Ok E ->
  nuclear_repulsion_energy history = Ok nuc ->
  summary history = Ok steps ->
  asarray np (to_JSON_geom geom) = Ok flat ->
  exists json_output,
    generate_json_output history self geom = Ok json_output /\
    get_JSON_result np json_output (PStr "energy") (PBool false)
      = Returns (one (plain (PList (concat geom)))) /\
    get_JSON_result np json_output (PStr "energy") (PBool true)
      = Returns (two (plain (PList (concat geom))) (plain nuc)) /\
    get_JSON_result np json_output (PStr "gradient") (PBool true)
      = Returns (three (plain E) (array flat) (plain nuc)) /\
    getitem json_output "success" = Ok (PStr "true") /\
    obind (getitem json_output "properties") (fun p => getitem p "steps") = Ok steps /\
    init json_output = Raise (ValueError "JSON file must match the qc_schema_input").
Proof.
  intros HE Hnuc Hsteps Hflat. unfold generate_json_output.
  cbn [setitem dict_store obind String.eqb Ascii.eqb Bool.eqb].
  rewrite HE, Hnuc. cbn [obind setitem dict_store String.eqb Ascii.eqb Bool.eqb].
  rewrite Hsteps. cbn [obind]. eexists. split; [reflexivity|].
  split; [reflexivity|]. split; [reflexivity|]. split.
  - unfold get_JSON_result. cbn -[to_JSON_geom asarray]. 
    change (PList (concat geom)) with (to_JSON_geom geom). rewrite Hflat. reflexivity.
  - repeat apply conj; reflexivity.
Qed.

Lemma generate_json_output_reads_back_witness :
  let history := {| last_E := Ok (PFloat (-1.5)); nuclear_repulsion_energy := Ok (PFloat 9.0);
                    summary := Ok (PList []) |} in
  let geom := [ [PFloat 0; PFloat 0; PFloat 0]; [PFloat 0; PFloat 0; PFloat 1.5] ] in
  exists json_output,
    generate_json_output history {| optking_json := sample_input |} geom = Ok json_output /\
    get_JSON_result numpy_of_lists json_output (PStr "energy") (PBool false)
      = Returns (one (plain (PList (concat geom)))) /\
    get_JSON_result numpy_of_lists json_output (PStr "energy") (PBool true)
      = Returns (two (plain (PList (concat geom))) (plain (PFloat 9.0))) /\
    get_JSON_result numpy_of_lists json_output (PStr "gradient") (PBool true)
      = Returns (three (plain (PFloat (-1.5)))
                       (array (A := ndarray numpy_of_lists) (concat geom))
                       (plain (PFloat 9.0))) /\
    getitem json_output "success" = Ok (PStr "true") /\
    obind (getitem json_output "properties") (fun p => getitem p "steps") = Ok (PList []) /\
    init json_output = Raise (ValueError "JSON file must match the qc_schema_input").
Proof.
  exact (generate_json_output_reads_back numpy_of_lists
           {| last_E := Ok (PFloat (-1.5)); nuclear_repulsion_energy := Ok (PFloat 9.0);
              summary := Ok (PList []) |}
           {| optking_json := sample_input |}
           [ [PFloat 0; PFloat 0; PFloat 0]; [PFloat 0; PFloat 0; PFloat 1.5] ]
           (PFloat (-1.5)) (PFloat 9.0) (PList []) _
           Logic.eq_refl Logic.eq_refl Logic.eq_refl Logic.eq_refl).
Defined.

End qcdbjsonFacts.

(** ** The option object *)

Module optparamsFacts.
Import Py PyFacts optparams.
Local Open Scope py_scope.

Lemma str_in_In (x : string) (t : list string) : str_in x t = true <-> In x t.
Proof.
  unfold str_in. rewrite existsb_exists. split.
  - intros (y & Hy & E). apply String.eqb_eq in E. now subst.
  - intros Hx. exists x. split; [exact Hx | apply String.eqb_refl].
Qed.

Lemma str_in_not_In (x : string) (t : list string) : str_in x t = false <-> ~ In x t.
Proof.
  rewrite <- str_in_In. destruct (str_in x t); split; congruence.
Qed.

(** Every declared property has its row in the table. *)
Lemma string_options_in_table (name : string) :
  In name string_options -> exists allowed, table_lookup name allowedStringOptions = Some allowed.
Proof.
  intros Hin. simpl in Hin.
  repeat (destruct Hin as [<- | Hin]; [eexists; reflexivity|]). contradiction.
Qed.

Lemma setattr_property (name : string) (value : pyval) :
  In name string_options -> setattr name value = string_option_setter name value.
Proof. intros Hin. unfold setattr. apply str_in_In in Hin. now rewrite Hin. Qed.

Lemma getattr_property (name : string) :
  In name string_options -> getattr name = string_option_getter name.
Proof. intros Hin. unfold getattr. apply str_in_In in Hin. now rewrite Hin. Qed.

Lemma setattr_plain (name : string) (value : pyval) (self : attrs) :
  str_in name string_options = false ->
  setattr name value self = (Ok tt, <[name := value]> self).
Proof. intros Hno. unfold setattr. now rewrite Hno. Qed.

(** Assigning one of the allowed upper-case constants to a property. *)
Lemma setattr_constant (name s : string) (allowed : list string) (self : attrs) :
  str_in name string_options = true ->
  table_lookup name allowedStringOptions = Some allowed ->
  str_in (upper s) allowed = true ->
  setattr name (PStr s) self = (Ok tt, <[name := PStr (upper s)]> self).
Proof.
  intros Hprop Hrow Hin. unfold setattr, string_option_setter.
  now rewrite Hprop, Hrow, Hin.
Qed.

(** C4. For each of the nine enumerated-string options and every text:
    when the upper-cased text is one of the option's allowed values the
    assignment stores the upper-cased text, which is what the option then
    reads back; otherwise the assignment raises the option error and stores
    nothing. *)
Theorem string_option_assignment (name s : string) (self : attrs) :
  In name string_options ->
  exists allowed,
    table_lookup name allowedStringOptions = Some allowed /\
    (In (upper s) allowed ->
       setattr name (PStr s) self = (Ok tt, <[name := PStr (upper s)]> self) /\
       fst (getattr name (<[name := PStr (upper s)]> self)) = Ok (PStr (upper s))) /\
    (~ In (upper s) allowed ->
       setattr name (PStr s) self = (Raise (OptError ("Invalid value for " ++ name)), self)).
Proof.
  intros Hin. destruct (string_options_in_table name Hin) as [allowed Hrow].
  exists allowed. split; [exact Hrow|].
  rewrite (setattr_property _ _ Hin), (getattr_property _ Hin).
  unfold string_option_setter, string_option_getter. rewrite Hrow. split.
  - intros Hok. apply str_in_In in Hok. rewrite Hok.
    now rewrite lookup_insert_eq.
  - intros Hbad. apply str_in_not_In in Hbad. now rewrite Hbad.
Qed.

Lemma string_option_assignment_witness :
  (setattr "step_type" (PStr "rfo") ∅ = (Ok tt, <["step_type" := PStr "RFO"]> ∅) /\
   fst (getattr "step_type" (<["step_type" := PStr "RFO"]> ∅)) = Ok (PStr "RFO")) /\
  setattr "step_type" (PStr "steepest") ∅
    = (Raise (OptError "Invalid value for step_type"), ∅).
Proof.
  destruct (string_option_assignment "step_type" "rfo" ∅) as (allowed & Hrow & Hok & _);
    [simpl; tauto|].
  destruct (string_option_assignment "step_type" "steepest" ∅) as (allowed' & Hrow' & _ & Hbad);
    [simpl; tauto|].
  injection Hrow as <-. injection Hrow' as <-.
  split.
  - apply Hok. simpl. tauto.
  - apply Hbad. simpl. intuition discriminate.
Defined.

Lemma known_level_cases (run_level : Z) :
  known_level run_level = true ->
  run_level = 0 \/ run_level = 1 \/ run_level = 2 \/ run_level = 3 \/
  run_level = 4 \/ run_level = 5 \/ run_level = 6.
Proof. unfold known_level. rewrite andb_true_iff, !Z.leb_le. lia. Qed.

Lemma unknown_level_raises (run_level : Z) (self : attrs) :
  known_level run_level = false ->
  update_dynamic_level_params run_level self
    = (Raise (OptError "Unknown value of run_level"), self).
Proof.
  unfold known_level. rewrite andb_false_iff, !Z.leb_gt. intros Hout.
  unfold update_dynamic_level_params.
  repeat match goal with
         | |- context [Z.eqb run_level ?n] =>
             destruct (Z.eqb_spec run_level n); [lia|]
         end.
  reflexivity.
Qed.

(** Run a block of assignments of constants on an arbitrary instance. *)
Ltac run_setattr :=
  repeat (unfold bind;
          first [ erewrite setattr_constant by reflexivity
                | rewrite setattr_plain by reflexivity ];
          cbv beta iota).

Ltac run_level :=
  unfold update_dynamic_level_params; cbn [Z.eqb Pos.eqb]; try run_setattr.

Lemma untouched_by_level (run_level : Z) (self : attrs) (k : string) :
  known_level run_level = true ->
  ~ In k level_attributes ->
  snd (update_dynamic_level_params run_level self) !! k = self !! k.
Proof.
  intros Hknown Hk.
  assert (Hne : forall n, In n level_attributes -> n <> k) by (intros n Hn ->; tauto).
  destruct (known_level_cases _ Hknown) as [-> | [-> | [-> | [-> | [-> | [-> | ->]]]]]];
    run_level; cbn [snd]; [reflexivity | ..];
    rewrite !lookup_insert_ne; try reflexivity; apply Hne; simpl; tauto.
Qed.

(** C10. For a run level from 0 to 6 the update succeeds and leaves every
    attribute outside [level_attributes] as it was, among them
    [geom_maxiter], [g_convergence] and every [i_*] and [conv_*] attribute;
    for any other run level it raises the option error and the object is
    exactly as before. *)
Theorem update_dynamic_level_params_frame (run_level : Z) (self : attrs) :
  if known_level run_level
  then fst (update_dynamic_level_params run_level self) = Ok tt /\
       (forall k, ~ In k level_attributes ->
          snd (update_dynamic_level_params run_level self) !! k = self !! k) /\
       Forall (fun k => snd (update_dynamic_level_params run_level self) !! k = self !! k)
         convergence_attributes
  else update_dynamic_level_params run_level self
         = (Raise (OptError "Unknown value of run_level"), self).
Proof.
  destruct (known_level run_level) eqn:Hknown; [|now apply unknown_level_raises].
  split; [|split].
  - destruct (known_level_cases _ Hknown) as [-> | [-> | [-> | [-> | [-> | [-> | ->]]]]]];
      run_level; reflexivity.
  - intros k Hk. now apply untouched_by_level.
  - apply List.Forall_forall. intros k Hk. apply untouched_by_level; [exact Hknown|].
    simpl in Hk.
    repeat (destruct Hk as [<- | Hk]; [simpl; intuition discriminate|]). contradiction.
Qed.

(** *** Construction *)

Lemma bind_lift_Ok {A B} (a : A) (k : A -> M B) : bind (lift (Ok a)) k = k a.
Proof. reflexivity. Qed.

Lemma misc_empty_text_parses : parses_empty_text misc_empty_text.
Proof. repeat split. Qed.

Section Construction.
Context {D : Type} `{OptionMapping D}.
Variable tools : misc.
Variable uod : D.
Hypothesis tools_parse : parses_empty_text tools.

Lemma init_constraints_none :
  Forall (fun key => uod_find uod key = None) constraint_keys ->
  init_constraints tools uod = no_constraints.
Proof.
  intros Hkeys. unfold constraint_keys in Hkeys.
  destruct tools_parse as (Htok & Hil & Hifl & Hxf & Hfx & Hxfx).
  unfold init_constraints, set_tokenized, set_parsed, uod_get.
  repeat match goal with
         | Hk : Forall _ (_ :: _) |- _ =>
             let E := fresh "E" in
             apply Forall_cons_1 in Hk; destruct Hk as [E Hk]; rewrite E; clear E
         end.
  rewrite Htok, !bind_lift_Ok, !Hil, !Hifl, !Hxf, !Hfx, !Hxfx, !bind_lift_Ok.
  reflexivity.
Qed.

End Construction.

(** With no constraint text, only the parsers' answer on the empty text
    matters. *)
Lemma OptParams_any_tools {D : Type} `{OptionMapping D} (tools : misc) (uod : D) :
  parses_empty_text tools ->
  Forall (fun key => uod_find uod key = None) constraint_keys ->
  OptParams tools uod = OptParams misc_empty_text uod.
Proof.
  intros Htools Hkeys. unfold OptParams, init.
  rewrite (init_constraints_none tools uod Htools Hkeys).
  rewrite (init_constraints_none misc_empty_text uod misc_empty_text_parses Hkeys).
  reflexivity.
Qed.

(** A dictionary with no entry acts as the empty [dict]. *)
Lemma OptParams_of_empty {D : Type} `{OptionMapping D} (tools : misc) (uod : D) :
  (forall key, uod_find uod key = None) ->
  OptParams tools uod = OptParams tools ([] : plain_dict).
Proof.
  intros Hempty.
  unfold OptParams, init, init_algorithm, init_constraints, init_convergence_control,
    init_hessian, init_fragments, init_misc, init_complicated_defaults, init_internal,
    set_tokenized, set_parsed, specific, uod_get, uod_contains.
  rewrite !Hempty. reflexivity.
Qed.

(** C3, as the code has it.  On an object built from an empty option
    dictionary, [update_dynamic_level_params(2)] sets [opt_coordinates] to
    REDUNDANT, [step_type] to RFO and the three intrafragment trust values to
    0.2, and level 9 raises the option error.  The number of consecutive
    backsteps allowed, [consecutive_backsteps_allowed], is 0 before and still
    0 after: the 2 is stored under another name,
    [consecutiveBackstepsAllowed]. *)
Theorem level_2_on_default_object {D : Type} `{OptionMapping D} (tools : misc) (uod : D) :
  parses_empty_text tools ->
  (forall key, uod_find uod key = None) ->
  exists p p',
    OptParams tools uod = Ok p /\
    update_dynamic_level_params 2 p = (Ok tt, p') /\
    p' !! "opt_coordinates" = Some (PStr "REDUNDANT") /\
    p' !! "step_type" = Some (PStr "RFO") /\
    p' !! "intrafrag_trust" = Some (PFloat 0.2) /\
    p' !! "intrafrag_trust_min" = Some (PFloat 0.2) /\
    p' !! "intrafrag_trust_max" = Some (PFloat 0.2) /\
    p !! "consecutive_backsteps_allowed" = Some (PInt 0) /\
    p' !! "consecutive_backsteps_allowed" = Some (PInt 0) /\
    p !! "consecutiveBackstepsAllowed" = None /\
    p' !! "consecutiveBackstepsAllowed" = Some (PInt 2) /\
    update_dynamic_level_params 9 p = (Raise (OptError "Unknown value of run_level"), p).
Proof.
  intros Htools Hempty.
  rewrite (OptParams_of_empty tools uod Hempty).
  rewrite (OptParams_any_tools tools ([] : plain_dict) Htools)
    by (repeat constructor).
  set (p := constructed (OptParams misc_empty_text ([] : plain_dict))).
  exists p, (snd (update_dynamic_level_params 2 p)).
  repeat apply conj; reflexivity.
Qed.

Lemma level_2_on_default_object_witness :
  exists p p',
    OptParams misc_empty_text ([] : plain_dict) = Ok p /\
    update_dynamic_level_params 2 p = (Ok tt, p') /\
    p' !! "opt_coordinates" = Some (PStr "REDUNDANT") /\
    p' !! "step_type" = Some (PStr "RFO") /\
    p' !! "intrafrag_trust" = Some (PFloat 0.2) /\
    p' !! "intrafrag_trust_min" = Some (PFloat 0.2) /\
    p' !! "intrafrag_trust_max" = Some (PFloat 0.2) /\
    p !! "consecutive_backsteps_allowed" = Some (PInt 0) /\
    p' !! "consecutive_backsteps_allowed" = Some (PInt 0) /\
    p !! "consecutiveBackstepsAllowed" = None /\
    p' !! "consecutiveBackstepsAllowed" = Some (PInt 2) /\
    update_dynamic_level_params 9 p = (Raise (OptError "Unknown value of run_level"), p).
Proof.
  apply (level_2_on_default_object misc_empty_text ([] : plain_dict)).
  - exact misc_empty_text_parses.
  - reflexivity.
Defined.

(** *** Statements as state transformers *)

Lemma triple_bind {A B} P R Q (m : M A) (k : A -> M B) :
  triple P m R -> (forall a, triple R (k a) Q) -> triple P (bind m k) Q.
Proof.
  intros Hm Hk self b self' HP Hrun. unfold bind in Hrun.
  destruct (m self) as [[a | e] self1] eqn:Em; [|discriminate].
  eapply Hk; [|exact Hrun]. eapply Hm; eauto.
Qed.

Lemma triple_seq {A B} P (m : M A) (k : A -> M B) :
  triple P m P -> (forall a, triple P (k a) P) -> triple P (bind m k) P.
Proof. apply triple_bind. Qed.

Lemma triple_anything {A} P (m : M A) : triple P m (fun _ => True).
Proof. intros self a self' _ _. exact I. Qed.

Lemma triple_ret {A} P (a : A) : triple P (ret a) P.
Proof. intros self b self' HP Hrun. injection Hrun as _ <-. exact HP. Qed.

Lemma triple_lift {A} P (o : outcome A) : triple P (lift o) P.
Proof. intros self b self' HP Hrun. injection Hrun as _ <-. exact HP. Qed.

Lemma triple_getattr P name : triple P (getattr name) P.
Proof.
  intros self b self' HP Hrun. unfold getattr, string_option_getter in Hrun.
  destruct (str_in name string_options), (self !! name); injection Hrun as _ <-; exact HP.
Qed.

Lemma setattr_returns name v (self self' : attrs) a :
  setattr name v self = (Ok a, self') -> exists v', self' = <[name := v']> self.
Proof.
  unfold setattr, string_option_setter. intros Hrun.
  destruct (str_in name string_options).
  - destruct v as [| | | | s | |]; try discriminate.
    destruct (table_lookup name allowedStringOptions) as [allowed|]; [|discriminate].
    destruct (str_in (upper s) allowed); [|discriminate].
    injection Hrun as _ <-. eauto.
  - injection Hrun as _ <-. eauto.
Qed.

Lemma triple_setattr names P name v :
  untouched_by names P -> str_in name names = false -> triple P (setattr name v) P.
Proof.
  intros Hst Hname self a self' HP Hrun. apply str_in_not_In in Hname.
  destruct (setattr_returns _ _ _ _ _ Hrun) as [v' ->]. now apply Hst.
Qed.

Lemma triple_when P b (m : M unit) : triple P m P -> triple P (when b m) P.
Proof. intros Hm. destruct b; [exact Hm | apply triple_ret]. Qed.

Lemma triple_self_is P name text : triple P (self_is name text) P.
Proof.
  unfold self_is. eapply triple_bind; [apply triple_getattr | intros; apply triple_ret].
Qed.

(** A block keeps [P] when it assigns no attribute [P] looks at. *)
Ltac keeps Hst :=
  repeat lazymatch goal with
    | |- triple _ (bind _ _) _ => apply triple_seq; [ | intros ? ]
    | |- triple _ (setattr _ _) _ => apply (triple_setattr _ _ _ _ Hst); reflexivity
    | |- triple _ (getattr _) _ => apply triple_getattr
    | |- triple _ (self_is _ _) _ => apply triple_self_is
    | |- triple _ (when _ _) _ => apply triple_when
    | |- triple _ (lift _) _ => apply triple_lift
    | |- triple _ (ret _) _ => apply triple_ret
    | |- triple _ (if ?b then _ else _) _ => destruct b
    end.

Lemma cart_hess_read_off_untouched : untouched_by ["cart_hess_read"] cart_hess_read_off.
Proof.
  intros self k v Hk HP. unfold cart_hess_read_off. rewrite lookup_insert_ne; [exact HP|].
  intros ->. apply Hk. simpl. tauto.
Qed.

Lemma irc_outcome_untouched :
  untouched_by ["cart_hess_read"; "opt_type"; "read_cartesian_H"] irc_outcome.
Proof.
  intros self k v Hk [H0 H1]. unfold irc_outcome, cart_hess_read_off, irc_reads_cartesian_H.
  rewrite !lookup_insert_ne by (intros ->; apply Hk; simpl; tauto). split; assumption.
Qed.

(** *** Construction without a [CART_HESS_READ] key *)

Section General.
Context {D : Type} `{OptionMapping D}.
Variable tools : misc.
Variable uod : D.
Hypothesis not_given : uod_contains uod "CART_HESS_READ" = false.

Lemma init_hessian_cart_hess_read :
  triple (fun _ => True) (init_hessian uod) cart_hess_read_off.
Proof.
  unfold init_hessian.
  do 7 (apply (triple_bind _ (fun _ => True)); [apply triple_anything | intros _]).
  apply (triple_bind _ cart_hess_read_off).
  - intros self a self' _ Hrun. rewrite setattr_plain in Hrun by reflexivity.
    injection Hrun as _ <-. unfold cart_hess_read_off, uod_get.
    unfold uod_contains in not_given. destruct (uod_find uod "CART_HESS_READ"); [discriminate|].
    apply lookup_insert_eq.
  - intros _. keeps cart_hess_read_off_untouched.
Qed.

Lemma read_cartesian_H_rule :
  triple cart_hess_read_off
    (irc <- self_is "opt_type" "IRC" ;;
     when (irc && negb (uod_contains uod "CART_HESS_READ"))
       (setattr "read_cartesian_H" (PBool true)))
    irc_outcome.
Proof.
  intros self a self' Hoff Hrun. unfold bind, self_is in Hrun.
  rewrite getattr_property in Hrun by (simpl; tauto).
  unfold string_option_getter, bind, ret in Hrun.
  destruct (self !! "opt_type") as [v|] eqn:Ev; [|discriminate].
  rewrite not_given in Hrun. cbn [negb] in Hrun. rewrite andb_true_r in Hrun.
  destruct (py_eq v (PStr "IRC")) eqn:Eirc; cbn [when] in Hrun.
  - rewrite setattr_plain in Hrun by reflexivity. injection Hrun as _ <-. split.
    + unfold cart_hess_read_off. now rewrite lookup_insert_ne.
    + intros _. apply lookup_insert_eq.
  - injection Hrun as _ <-. split; [exact Hoff|].
    intros Hirc. rewrite Ev in Hirc. injection Hirc as ->. discriminate.
Qed.

Lemma init_complicated_defaults_irc :
  triple cart_hess_read_off (init_complicated_defaults uod) irc_outcome.
Proof.
  unfold init_complicated_defaults.
  do 7 (apply (triple_bind _ cart_hess_read_off);
        [keeps cart_hess_read_off_untouched | intros _]).
  apply (triple_bind _ irc_outcome); [apply read_cartesian_H_rule | intros _].
  keeps irc_outcome_untouched.
Qed.

Lemma init_internal_keeps : triple irc_outcome (init_internal uod) irc_outcome.
Proof.
  unfold init_internal, specific.
  cbn [select_preset g_convergence_presets].
  keeps irc_outcome_untouched;
    unfold preset, max_force, rms_force, max_DE, max_disp, rms_disp;
    cbn [fold_right fst snd]; unfold activate;
    keeps irc_outcome_untouched.
Qed.

Lemma init_irc : triple (fun _ => True) (init tools uod) irc_outcome.
Proof.
  unfold init.
  do 3 (apply (triple_bind _ (fun _ => True)); [apply triple_anything | intros _]).
  apply (triple_bind _ cart_hess_read_off); [apply init_hessian_cart_hess_read | intros _].
  apply (triple_bind _ cart_hess_read_off);
    [unfold init_fragments; keeps cart_hess_read_off_untouched | intros _].
  apply (triple_bind _ cart_hess_read_off);
    [unfold init_misc; keeps cart_hess_read_off_untouched | intros _].
  apply (triple_bind _ irc_outcome); [apply init_complicated_defaults_irc | intros _].
  apply (triple_bind _ irc_outcome);
    [unfold init_fixed; keeps irc_outcome_untouched | intros _].
  apply init_internal_keeps.
Qed.

End General.

(** Whatever the dictionary and its other entries: without a
    [CART_HESS_READ] key a constructed object has [cart_hess_read] False, and
    for an IRC it has [read_cartesian_H] True instead. *)
Lemma cart_hess_read_stays_off {D : Type} `{OptionMapping D} (tools : misc) (uod : D)
    (p : attrs) :
  uod_contains uod "CART_HESS_READ" = false ->
  OptParams tools uod = Ok p ->
  p !! "cart_hess_read" = Some (PBool false) /\
  (p !! "opt_type" = Some (PStr "IRC") -> p !! "read_cartesian_H" = Some (PBool true)).
Proof.
  intros Hno Hp. unfold OptParams in Hp.
  destruct (init tools uod ∅) as [[[] | e] self] eqn:Erun; [|discriminate].
  injection Hp as <-.
  exact (init_irc tools uod Hno ∅ tt self I Erun).
Qed.



Lemma cart_hess_read_stays_off_witness :
  let p := constructed (OptParams misc_empty_text ([("OPT_TYPE", PStr "IRC")] : plain_dict)) in
  p !! "cart_hess_read" = Some (PBool false) /\
  (p !! "opt_type" = Some (PStr "IRC") -> p !! "read_cartesian_H" = Some (PBool true)).
Proof.
  refine (cart_hess_read_stays_off misc_empty_text
            ([("OPT_TYPE", PStr "IRC")] : plain_dict) _ _ _); reflexivity.
Defined.

(** C5, as the code has it.  Built with [OPT_TYPE] "IRC" and no
    [CART_HESS_READ] key, from a built-in dictionary or a case-insensitive
    one, the object has [cart_hess_read] False; the default for IRC is stored
    under another name, [read_cartesian_H]. *)
Theorem irc_leaves_cart_hess_read_off (tools : misc) :
  parses_empty_text tools ->
  irc_object tools ([("OPT_TYPE", PStr "IRC")] : plain_dict) /\
  irc_object tools (CaseInsensitiveDict_of [("OPT_TYPE", PStr "IRC")]).
Proof.
  intros Htools. unfold irc_object. split.
  - rewrite (OptParams_any_tools tools _ Htools) by (repeat constructor).
    exists (constructed (OptParams misc_empty_text ([("OPT_TYPE", PStr "IRC")] : plain_dict))).
    repeat apply conj; reflexivity.
  - rewrite (OptParams_any_tools tools _ Htools) by (repeat constructor).
    exists (constructed
              (OptParams misc_empty_text (CaseInsensitiveDict_of [("OPT_TYPE", PStr "IRC")]))).
    repeat apply conj; reflexivity.
Qed.

Lemma irc_leaves_cart_hess_read_off_witness :
  irc_object misc_empty_text ([("OPT_TYPE", PStr "IRC")] : plain_dict) /\
  irc_object misc_empty_text (CaseInsensitiveDict_of [("OPT_TYPE", PStr "IRC")]).
Proof. exact (irc_leaves_cart_hess_read_off misc_empty_text misc_empty_text_parses). Defined.

(** *** Defaults and coupled options *)

(** Built from an empty option dictionary, the object is a minimum search
    by RFO steps with the QCHEM criteria: maximum force, energy change and
    maximum displacement are active, the two rms criteria are not. *)
Theorem default_construction {D : Type} `{OptionMapping D} (tools : misc) (uod : D) :
  parses_empty_text tools ->
  (forall key, uod_find uod key = None) ->
  exists p,
    OptParams tools uod = Ok p /\
    p !! "opt_type" = Some (PStr "MIN") /\
    p !! "step_type" = Some (PStr "RFO") /\
    p !! "g_convergence" = Some (PStr "QCHEM") /\
    p !! "geom_maxiter" = Some (PInt 50) /\
    p !! "intrafrag_trust" = Some (PFloat 0.5) /\
    p !! "conv_max_force" = Some (PFloat 3.0e-4) /\
    p !! "i_max_force" = Some (PBool true) /\
    p !! "conv_max_DE" = Some (PFloat 1.0e-6) /\
    p !! "i_max_DE" = Some (PBool true) /\
    p !! "conv_max_disp" = Some (PFloat 1.2e-3) /\
    p !! "i_max_disp" = Some (PBool true) /\
    p !! "i_rms_force" = Some (PBool false) /\
    p !! "i_rms_disp" = Some (PBool false) /\
    p !! "i_untampered" = Some (PBool true).
Proof.
  intros Htools Hempty.
  rewrite (OptParams_of_empty tools uod Hempty).
  rewrite (OptParams_any_tools tools ([] : plain_dict) Htools) by (repeat constructor).
  exists (constructed (OptParams misc_empty_text ([] : plain_dict))).
  repeat apply conj; reflexivity.
Qed.

Lemma default_construction_witness :
  exists p,
    OptParams misc_empty_text (CaseInsensitiveDict_of []) = Ok p /\
    p !! "opt_type" = Some (PStr "MIN") /\
    p !! "step_type" = Some (PStr "RFO") /\
    p !! "g_convergence" = Some (PStr "QCHEM") /\
    p !! "geom_maxiter" = Some (PInt 50) /\
    p !! "intrafrag_trust" = Some (PFloat 0.5) /\
    p !! "conv_max_force" = Some (PFloat 3.0e-4) /\
    p !! "i_max_force" = Some (PBool true) /\
    p !! "conv_max_DE" = Some (PFloat 1.0e-6) /\
    p !! "i_max_DE" = Some (PBool true) /\
    p !! "conv_max_disp" = Some (PFloat 1.2e-3) /\
    p !! "i_max_disp" = Some (PBool true) /\
    p !! "i_rms_force" = Some (PBool false) /\
    p !! "i_rms_disp" = Some (PBool false) /\
    p !! "i_untampered" = Some (PBool true).
Proof.
  apply (default_construction misc_empty_text (CaseInsensitiveDict_of [])).
  - exact misc_empty_text_parses.
  - reflexivity.
Defined.

(** A transition-state search with no step type asked for takes RS_I_RFO
    steps with an intrafragment trust radius of 0.2; an IRC with no
    iteration limit asked for gets [irc_points] times the default 50. *)
Theorem coupled_defaults (tools : misc) :
  parses_empty_text tools ->
  (exists p,
     OptParams tools (CaseInsensitiveDict_of [("OPT_TYPE", PStr "TS")]) = Ok p /\
     p !! "step_type" = Some (PStr "RS_I_RFO") /\
     p !! "intrafrag_trust" = Some (PFloat 0.2) /\
     p !! "hess_update" = Some (PStr "BOFILL")) /\
  (exists p,
     OptParams tools
       (CaseInsensitiveDict_of [("OPT_TYPE", PStr "IRC"); ("IRC_POINTS", PInt 10)]) = Ok p /\
     p !! "geom_maxiter" = Some (PInt 500) /\
     p !! "full_hess_every" = Some (PInt 0)).
Proof.
  intros Htools. split.
  - rewrite (OptParams_any_tools tools _ Htools) by (repeat constructor).
    exists (constructed
              (OptParams misc_empty_text (CaseInsensitiveDict_of [("OPT_TYPE", PStr "TS")]))).
    repeat apply conj; reflexivity.
  - rewrite (OptParams_any_tools tools _ Htools) by (repeat constructor).
    exists (constructed
              (OptParams misc_empty_text
                 (CaseInsensitiveDict_of [("OPT_TYPE", PStr "IRC"); ("IRC_POINTS", PInt 10)]))).
    repeat apply conj; reflexivity.
Qed.

Lemma coupled_defaults_witness :
  (exists p,
     OptParams misc_empty_text (CaseInsensitiveDict_of [("OPT_TYPE", PStr "TS")]) = Ok p /\
     p !! "step_type" = Some (PStr "RS_I_RFO") /\
     p !! "intrafrag_trust" = Some (PFloat 0.2) /\
     p !! "hess_update" = Some (PStr "BOFILL")) /\
  (exists p,
     OptParams misc_empty_text
       (CaseInsensitiveDict_of [("OPT_TYPE", PStr "IRC"); ("IRC_POINTS", PInt 10)]) = Ok p /\
     p !! "geom_maxiter" = Some (PInt 500) /\
     p !! "full_hess_every" = Some (PInt 0)).
Proof. exact (coupled_defaults misc_empty_text misc_empty_text_parses). Defined.

(** *** Letter case of the keys *)

Lemma CaseInsensitiveDict_of_case (l1 l2 : list (string * pyval)) :
  same_up_to_case l1 l2 -> CaseInsensitiveDict_of l1 = CaseInsensitiveDict_of l2.
Proof.
  intros Hsame. unfold CaseInsensitiveDict_of. f_equal.
  generalize (∅ : gmap string pyval) as m.
  induction Hsame as [| [k1 v1] [k2 v2] l1 l2 [Hk Hv] _ IH]; intros m; simpl.
  - reflexivity.
  - simpl in Hk, Hv. rewrite Hk, Hv. apply IH.
Qed.

(** C1.  Dictionaries whose keys differ only in letter case answer every
    lookup alike, however the asked key is spelled, and the objects built
    from them (or the exception raised) are identical.  The dictionary is
    the case-insensitive mapping of the spec. *)
Theorem construction_ignores_key_case (tools : misc) (l1 l2 : list (string * pyval)) :
  same_up_to_case l1 l2 ->
  (forall key key', upper key = upper key' ->
     uod_find (CaseInsensitiveDict_of l1) key = uod_find (CaseInsensitiveDict_of l2) key') /\
  OptParams tools (CaseInsensitiveDict_of l1) = OptParams tools (CaseInsensitiveDict_of l2).
Proof.
  intros Hsame. rewrite (CaseInsensitiveDict_of_case l1 l2 Hsame). split.
  - intros key key' Hkey. unfold uod_find, CaseInsensitiveDict_mapping. now rewrite Hkey.
  - reflexivity.
Qed.

Lemma construction_ignores_key_case_witness :
  (forall key key', upper key = upper key' ->
     uod_find (CaseInsensitiveDict_of [("opt_type", PStr "TS")]) key
       = uod_find (CaseInsensitiveDict_of [("OPT_TYPE", PStr "TS")]) key') /\
  OptParams misc_empty_text (CaseInsensitiveDict_of [("opt_type", PStr "TS")])
    = OptParams misc_empty_text (CaseInsensitiveDict_of [("OPT_TYPE", PStr "TS")]).
Proof.
  apply (construction_ignores_key_case misc_empty_text
           [("opt_type", PStr "TS")] [("OPT_TYPE", PStr "TS")]).
  repeat constructor.
Defined.

(** The lower-case key is honoured: the object is a transition-state
    search with the step type that goes with it. *)
Example lower_case_key_reaches_the_option :
  let p := constructed
             (OptParams misc_empty_text (CaseInsensitiveDict_of [("opt_type", PStr "TS")])) in
  p !! "opt_type" = Some (PStr "TS") /\
  p !! "step_type" = Some (PStr "RS_I_RFO") /\
  p !! "intrafrag_trust" = Some (PFloat 0.2).
Proof. repeat apply conj; reflexivity. Qed.

(** The folding of keys is the dictionary's: [__init__] asks for the keys
    as its code spells them, so a built-in [dict] is matched exactly. *)
Remark builtin_dict_keys_are_exact :
  let lower := constructed (OptParams misc_empty_text ([("opt_type", PStr "TS")] : plain_dict)) in
  let upper := constructed (OptParams misc_empty_text ([("OPT_TYPE", PStr "TS")] : plain_dict)) in
  lower !! "opt_type" = Some (PStr "MIN") /\ upper !! "opt_type" = Some (PStr "TS").
Proof. split; vm_compute; reflexivity. Qed.

Lemma triple_stable_setattr P name v : stable P -> triple P (setattr name v) P.
Proof. intros HP self a self' Hself Hrun. exact (HP _ _ _ _ _ Hself Hrun). Qed.

(** A block keeps [P] when [P] survives every assignment. *)
Ltac keeps_stable HP :=
  repeat lazymatch goal with
    | |- triple _ (bind _ _) _ => apply triple_seq; [ | intros ? ]
    | |- triple _ (setattr _ _) _ => apply (triple_stable_setattr _ _ _ HP)
    | |- triple _ (getattr _) _ => apply triple_getattr
    | |- triple _ (self_is _ _) _ => apply triple_self_is
    | |- triple _ (when _ _) _ => apply triple_when
    | |- triple _ (lift _) _ => apply triple_lift
    | |- triple _ (ret _) _ => apply triple_ret
    | |- triple _ (if ?b then _ else _) _ => destruct b
    end.

Section Stable.
Context {D : Type} `{OptionMapping D}.
Variable tools : misc.
Variable uod : D.
Variable P : attrs -> Prop.
Hypothesis P_stable : stable P.

Lemma init_algorithm_stable : triple P (init_algorithm uod) P.
Proof. unfold init_algorithm. keeps_stable P_stable. Qed.

Lemma init_constraints_stable : triple P (init_constraints tools uod) P.
Proof. unfold init_constraints, set_tokenized, set_parsed. keeps_stable P_stable. Qed.

Lemma init_convergence_control_stable : triple P (init_convergence_control uod) P.
Proof. unfold init_convergence_control. keeps_stable P_stable. Qed.

Lemma init_hessian_stable : triple P (init_hessian uod) P.
Proof. unfold init_hessian. keeps_stable P_stable. Qed.

Lemma init_fragments_stable : triple P (init_fragments uod) P.
Proof. unfold init_fragments. keeps_stable P_stable. Qed.

Lemma init_misc_stable : triple P (init_misc uod) P.
Proof. unfold init_misc. keeps_stable P_stable. Qed.

Lemma init_complicated_defaults_stable : triple P (init_complicated_defaults uod) P.
Proof. unfold init_complicated_defaults. keeps_stable P_stable. Qed.

Lemma init_fixed_stable : triple P init_fixed P.
Proof. unfold init_fixed. keeps_stable P_stable. Qed.

Lemma preset_stable criteria : triple P (preset criteria) P.
Proof.
  unfold preset. apply triple_seq; [apply (triple_stable_setattr _ _ _ P_stable)|intros _].
  induction criteria as [|c rest IH]; cbn [fold_right]; [apply triple_ret|].
  unfold activate. keeps_stable P_stable. exact IH.
Qed.

Lemma select_preset_stable presets : triple P (select_preset presets) P.
Proof.
  induction presets as [|[name criteria] others IH]; cbn [select_preset]; [apply triple_ret|].
  apply triple_seq; [apply triple_self_is|]. intros [|]; [apply preset_stable | exact IH].
Qed.

Lemma specific_stable key flag conv option : triple P (specific uod key flag conv option) P.
Proof. unfold specific. keeps_stable P_stable. Qed.

Lemma init_internal_stable : triple P (init_internal uod) P.
Proof.
  unfold init_internal.
  repeat lazymatch goal with
    | |- triple _ (bind (select_preset _) _) _ =>
        apply triple_seq; [apply select_preset_stable | intros ?]
    | |- triple _ (bind (specific _ _ _ _ _) _) _ =>
        apply triple_seq; [apply specific_stable | intros ?]
    | |- triple _ (bind _ _) _ => apply triple_seq; [ | intros ? ]
    | |- triple _ (setattr _ _) _ => apply (triple_stable_setattr _ _ _ P_stable)
    | |- triple _ (getattr _) _ => apply triple_getattr
    | |- triple _ (when _ _) _ => apply triple_when
    end.
Qed.

Lemma init_stable : triple P (init tools uod) P.
Proof.
  unfold init.
  apply triple_seq; [apply init_algorithm_stable | intros _].
  apply triple_seq; [apply init_constraints_stable | intros _].
  apply triple_seq; [apply init_convergence_control_stable | intros _].
  apply triple_seq; [apply init_hessian_stable | intros _].
  apply triple_seq; [apply init_fragments_stable | intros _].
  apply triple_seq; [apply init_misc_stable | intros _].
  apply triple_seq; [apply init_complicated_defaults_stable | intros _].
  apply triple_seq; [apply init_fixed_stable | intros _].
  apply init_internal_stable.
Qed.

End Stable.

(** *** The enumerated options *)

Lemma setattr_cases name v (self self' : attrs) a :
  setattr name v self = (Ok a, self') ->
  (In name string_options /\
   exists s allowed, v = PStr s /\ table_lookup name allowedStringOptions = Some allowed /\
                     In (upper s) allowed /\ self' = <[name := PStr (upper s)]> self) \/
  (~ In name string_options /\ self' = <[name := v]> self).
Proof.
  unfold setattr, string_option_setter. intros Hrun.
  destruct (str_in name string_options) eqn:Hprop.
  - left. split; [now apply str_in_In|].
    destruct v as [| | | | s | |]; try discriminate.
    destruct (table_lookup name allowedStringOptions) as [allowed|]; [|discriminate].
    destruct (str_in (upper s) allowed) eqn:Hin; [|discriminate].
    injection Hrun as _ <-. exists s, allowed. apply str_in_In in Hin. auto.
  - right. split; [now apply str_in_not_In|]. now injection Hrun as _ <-.
Qed.


Lemma set_options_allowed_stable : stable set_options_allowed.
Proof.
  intros name v self self' a Hself Hrun n Hn Hset.
  destruct (setattr_cases _ _ _ _ _ Hrun)
    as [(Hprop & s & allowed & -> & Hrow & Hin & ->) | (Hplain & ->)].
  - destruct (decide (name = n)) as [-> | Hne].
    + exists (upper s), allowed. now rewrite lookup_insert_eq.
    + rewrite lookup_insert_ne in Hset by exact Hne.
      destruct (Hself n Hn Hset) as (s' & allowed' & Hs' & Hrow' & Hin').
      exists s', allowed'. now rewrite lookup_insert_ne.
  - assert (Hne : name <> n) by (intros ->; contradiction).
    rewrite lookup_insert_ne in Hset by exact Hne.
    destruct (Hself n Hn Hset) as (s' & allowed' & Hs' & Hrow' & Hin').
    exists s', allowed'. now rewrite lookup_insert_ne.
Qed.

Lemma assigned_stable name v : stable (assigned name v).
Proof.
  intros name' v' self self' a [Hset Hacc] Hrun. split; [|exact Hacc].
  destruct (setattr_returns _ _ _ _ _ Hrun) as [w ->].
  destruct (decide (name' = name)) as [-> | Hne].
  - rewrite lookup_insert_eq. eauto.
  - now rewrite lookup_insert_ne.
Qed.

Lemma triple_setattr_assigned P name v : triple P (setattr name v) (assigned name v).
Proof.
  intros self a self' _ Hrun.
  destruct (setattr_cases _ _ _ _ _ Hrun)
    as [(Hprop & s & allowed & -> & Hrow & Hin & ->) | (Hplain & ->)].
  - split; [rewrite lookup_insert_eq; eauto|]. intros _. now exists s, allowed.
  - split; [rewrite lookup_insert_eq; eauto|]. intros Hprop. contradiction.
Qed.

(** Walk to the statement that assigns [name], then keep what it gave. *)
Ltac reach :=
  lazymatch goal with
  | |- triple _ (bind (setattr ?n ?v) _) (assigned ?n ?v) =>
      apply (triple_bind _ (assigned n v));
        [apply triple_setattr_assigned | intros ?; keeps_stable (assigned_stable n v)]
  | |- triple _ (setattr ?n ?v) (assigned ?n ?v) => apply triple_setattr_assigned
  | |- triple _ (bind _ _) _ =>
      apply (triple_bind _ (fun _ => True)); [apply triple_anything | intros ?; reach]
  end.

Section Enumerated.
Context {D : Type} `{OptionMapping D}.
Variable tools : misc.
Variable uod : D.

Lemma init_algorithm_assigns name key default :
  In (name, key, default)
     [ ("opt_type", "OPT_TYPE", PStr "MIN");
       ("step_type", "STEP_TYPE", PStr "RFO");
       ("conjugate_gradient_type", "CONJUGATE_GRADIENT_TYPE", PStr "FLETCHER");
       ("opt_coordinates", "OPT_COORDINATES", PStr "REDUNDANT");
       ("irc_direction", "IRC_DIRECTION", PStr "FORWARD") ] ->
  triple (fun _ => True) (init_algorithm uod) (assigned name (uod_get uod key default)).
Proof.
  intros Hin. simpl in Hin.
  repeat (destruct Hin as [[= <- <- <-] | Hin]; [unfold init_algorithm; reach|]).
  contradiction.
Qed.

Lemma init_convergence_control_assigns :
  triple (fun _ => True) (init_convergence_control uod)
    (assigned "g_convergence" (uod_get uod "G_CONVERGENCE" (PStr "QCHEM"))).
Proof. unfold init_convergence_control. reach. Qed.

Lemma init_hessian_assigns name key default :
  In (name, key, default)
     [ ("hess_update", "HESS_UPDATE", PStr "BFGS");
       ("intrafrag_hess", "INTRAFRAG_HESS", PStr "SCHLEGEL") ] ->
  triple (fun _ => True) (init_hessian uod) (assigned name (uod_get uod key default)).
Proof.
  intros Hin. simpl in Hin.
  repeat (destruct Hin as [[= <- <- <-] | Hin]; [unfold init_hessian; reach|]).
  contradiction.
Qed.

Lemma init_fragments_assigns :
  triple (fun _ => True) (init_fragments uod)
    (assigned "frag_mode" (uod_get uod "FRAG_MODE" (PStr "SINGLE"))).
Proof. unfold init_fragments. reach. Qed.

Ltac skip_block := apply (triple_bind _ (fun _ => True)); [apply triple_anything | intros _].
Ltac keep_block lemma name v :=
  apply triple_seq; [apply lemma; apply (assigned_stable name v) | intros _].

Lemma init_assigns name key default :
  In (name, key, default) enumerated_keys ->
  triple (fun _ => True) (init tools uod) (assigned name (uod_get uod key default)).
Proof.
  intros Hin. unfold enumerated_keys in Hin.
  set (v := uod_get uod key default).
  assert (Hrest : triple (assigned name v)
            (init_misc uod ;; init_complicated_defaults uod ;; init_fixed ;; init_internal uod)
            (assigned name v)).
  { keep_block init_misc_stable name v.
    keep_block init_complicated_defaults_stable name v.
    keep_block init_fixed_stable name v.
    apply init_internal_stable, assigned_stable. }
  unfold init.
  assert (Hcases :
    In (name, key, default)
       [ ("opt_type", "OPT_TYPE", PStr "MIN");
         ("step_type", "STEP_TYPE", PStr "RFO");
         ("conjugate_gradient_type", "CONJUGATE_GRADIENT_TYPE", PStr "FLETCHER");
         ("opt_coordinates", "OPT_COORDINATES", PStr "REDUNDANT");
         ("irc_direction", "IRC_DIRECTION", PStr "FORWARD") ] \/
    (name, key, default) = ("g_convergence", "G_CONVERGENCE", PStr "QCHEM") \/
    In (name, key, default)
       [ ("hess_update", "HESS_UPDATE", PStr "BFGS");
         ("intrafrag_hess", "INTRAFRAG_HESS", PStr "SCHLEGEL") ] \/
    (name, key, default) = ("frag_mode", "FRAG_MODE", PStr "SINGLE")).
  { simpl in Hin. simpl. intuition. }
  destruct Hcases as [Halg | [Hconv | [Hhess | Hfrag]]].
  - apply (triple_bind _ (assigned name v)); [now apply init_algorithm_assigns | intros _].
    keep_block init_constraints_stable name v.
    keep_block init_convergence_control_stable name v.
    keep_block init_hessian_stable name v.
    keep_block init_fragments_stable name v.
    exact Hrest.
  - injection Hconv as -> -> ->. do 2 skip_block.
    apply (triple_bind _ (assigned "g_convergence" v));
      [apply init_convergence_control_assigns | intros _].
    keep_block init_hessian_stable "g_convergence" v.
    keep_block init_fragments_stable "g_convergence" v.
    exact Hrest.
  - do 3 skip_block.
    apply (triple_bind _ (assigned name v)); [now apply init_hessian_assigns | intros _].
    keep_block init_fragments_stable name v.
    exact Hrest.
  - injection Hfrag as -> -> ->. do 4 skip_block.
    apply (triple_bind _ (assigned "frag_mode" v)); [apply init_fragments_assigns | intros _].
    exact Hrest.
Qed.

End Enumerated.

Lemma OptParams_run {D : Type} `{OptionMapping D} (tools : misc) (uod : D) (p : attrs) :
  OptParams tools uod = Ok p -> init tools uod ∅ = (Ok tt, p).
Proof.
  unfold OptParams. destruct (init tools uod ∅) as [[[] | e] self]; [|discriminate].
  now intros [= <-].
Qed.

Lemma enumerated_keys_names name :
  In name string_options -> exists key default, In (name, key, default) enumerated_keys.
Proof.
  intros Hin. simpl in Hin.
  repeat (destruct Hin as [<- | Hin]; [eexists _, _; simpl; tauto|]). contradiction.
Qed.

Lemma enumerated_keys_are_options name key default :
  In (name, key, default) enumerated_keys -> In name string_options.
Proof.
  intros Hin. simpl in Hin.
  repeat (destruct Hin as [[= <- <- <-] | Hin]; [simpl; tauto|]). contradiction.
Qed.

Lemma OptParams_valid_enumerated {D : Type} `{OptionMapping D}
    (tools : misc) (uod : D) (p : attrs) :
  OptParams tools uod = Ok p -> valid_enumerated p.
Proof.
  intros Hp%OptParams_run name Hname.
  assert (Hweak : set_options_allowed p).
  { refine (init_stable tools uod _ set_options_allowed_stable ∅ tt p _ Hp).
    intros n _ [v Hv]. rewrite lookup_empty in Hv. discriminate. }
  destruct (enumerated_keys_names name Hname) as (key & default & Hkey).
  destruct (init_assigns tools uod name key default Hkey ∅ tt p I Hp) as [Hset _].
  exact (Hweak name Hname Hset).
Qed.

(** However the option dictionary is filled, an object that the constructor
    returns holds, for each of the nine enumerated options, one of the
    allowed upper-case values of that option. *)
Theorem constructed_options_are_allowed {D : Type} `{OptionMapping D}
    (tools : misc) (uod : D) (p : attrs) :
  OptParams tools uod = Ok p -> valid_enumerated p.
Proof. apply OptParams_valid_enumerated. Qed.

Lemma constructed_options_are_allowed_witness :
  valid_enumerated
    (constructed (OptParams misc_empty_text
                    ([("OPT_TYPE", PStr "ts"); ("G_CONVERGENCE", PStr "gau_tight")] : plain_dict))).
Proof.
  apply (constructed_options_are_allowed misc_empty_text
           ([("OPT_TYPE", PStr "ts"); ("G_CONVERGENCE", PStr "gau_tight")] : plain_dict)).
  reflexivity.
Defined.

(** The constructor returns only if every enumerated option that the
    dictionary supplies is a text whose upper-case form is one of the
    option's allowed values: a value of another type, or a text outside the
    table, makes construction fail. *)
Theorem construction_checks_enumerated_options {D : Type} `{OptionMapping D}
    (tools : misc) (uod : D) (p : attrs) (name key : string) (default v : pyval) :
  OptParams tools uod = Ok p ->
  In (name, key, default) enumerated_keys ->
  uod_find uod key = Some v ->
  acceptable name v.
Proof.
  intros Hp%OptParams_run Hkey Hv.
  destruct (init_assigns tools uod name key default Hkey ∅ tt p I Hp) as [_ Hacc].
  unfold uod_get in Hacc. rewrite Hv in Hacc.
  apply Hacc. eapply enumerated_keys_are_options, Hkey.
Qed.

Lemma construction_checks_enumerated_options_witness :
  acceptable "opt_type" (PStr "ts").
Proof.
  refine (construction_checks_enumerated_options misc_empty_text
            ([("OPT_TYPE", PStr "ts")] : plain_dict) _ "opt_type" "OPT_TYPE" (PStr "MIN")
            (PStr "ts") _ _ _).
  - reflexivity.
  - simpl. tauto.
  - reflexivity.
Defined.



(** *** Run levels *)

Lemma lookup_assign_other (l : list (string * pyval)) (self : attrs) (k : string) :
  k ∉ l.*1 -> foldl assign self l !! k = self !! k.
Proof.
  revert self. induction l as [|[k' v'] l IH]; intros self Hk; simpl; [reflexivity|].
  simpl in Hk. apply not_elem_of_cons in Hk as [Hne Hk].
  rewrite IH by exact Hk. unfold assign. simpl. now rewrite lookup_insert_ne.
Qed.

Lemma lookup_assign_same (l : list (string * pyval)) (self self' : attrs) (k : string) :
  k ∈ l.*1 -> foldl assign self l !! k = foldl assign self' l !! k.
Proof.
  revert self self'. induction l as [|[k' v'] l IH]; intros self self' Hk; simpl.
  - simpl in Hk. now apply elem_of_nil in Hk.
  - destruct (decide (k ∈ l.*1)) as [Hin | Hout]; [now apply IH|].
    rewrite !lookup_assign_other by exact Hout.
    simpl in Hk. apply elem_of_cons in Hk as [-> | Hk]; [|contradiction].
    unfold assign. simpl. now rewrite !lookup_insert_eq.
Qed.

Lemma assign_twice (l : list (string * pyval)) (self : attrs) :
  foldl assign (foldl assign self l) l = foldl assign self l.
Proof.
  apply map_eq. intros k. destruct (decide (k ∈ l.*1)) as [Hin | Hout].
  - now apply lookup_assign_same.
  - now rewrite lookup_assign_other.
Qed.

Lemma update_dynamic_level_params_assigns (run_level : Z) (self : attrs) :
  known_level run_level = true ->
  update_dynamic_level_params run_level self
    = (Ok tt, foldl assign self (level_assignments run_level)).
Proof.
  intros Hknown.
  destruct (known_level_cases _ Hknown) as [-> | [-> | [-> | [-> | [-> | [-> | ->]]]]]];
    run_level; reflexivity.
Qed.

(** Calling [update_dynamic_level_params] a second time with the same
    level changes nothing and ends as the first call did; and what a known
    level leaves in the attributes it assigns does not depend on the object
    it is applied to, so of two successive levels the later one decides
    them. *)
Theorem update_dynamic_level_params_twice (run_level : Z) (self : attrs) :
  update_dynamic_level_params run_level (snd (update_dynamic_level_params run_level self))
    = update_dynamic_level_params run_level self /\
  (forall (other : attrs) (k : string),
     k ∈ (level_assignments run_level).*1 ->
     snd (update_dynamic_level_params run_level other) !! k
       = snd (update_dynamic_level_params run_level self) !! k).
Proof.
  destruct (known_level run_level) eqn:Hknown.
  - rewrite !update_dynamic_level_params_assigns by exact Hknown. cbn [snd]. split.
    + now rewrite assign_twice.
    + intros other k Hk. rewrite update_dynamic_level_params_assigns by exact Hknown.
      cbn [snd]. now apply lookup_assign_same.
  - rewrite !unknown_level_raises by exact Hknown. cbn [snd].
    split; [reflexivity|].
    intros other k Hk. exfalso. unfold level_assignments in Hk.
    unfold known_level in Hknown. rewrite andb_false_iff, !Z.leb_gt in Hknown.
    repeat match type of Hk with
           | context [Z.eqb run_level ?n] => destruct (Z.eqb_spec run_level n); [lia|]
           end.
    simpl in Hk. now apply elem_of_nil in Hk.
Qed.

(** *** Dump and restore *)

Lemma dict_lookup_dump (self : attrs) (k : string) : dict_lookup k (dump self) = self !! k.
Proof.
  unfold dump.
  assert (Hgen : forall l : list (string * pyval), NoDup l.*1 ->
            forall v, dict_lookup k l = Some v <-> (k, v) ∈ l).
  { induction l as [|[k' v'] l IH]; intros Hnd v; simpl.
    - split; [discriminate | intros Hin; now apply elem_of_nil in Hin].
    - simpl in Hnd. apply NoDup_cons in Hnd as [Hfresh Hnd]. rewrite elem_of_cons.
      destruct (String.eqb_spec k k') as [-> | Hne].
      + split.
        * intros [= ->]. now left.
        * intros [[= ->] | Hin]; [reflexivity|].
          exfalso. apply Hfresh. apply list_elem_of_fmap. now exists (k', v).
      + rewrite IH by exact Hnd. split; [now right|].
        intros [[= -> ->] | Hin]; [contradiction | exact Hin]. }
  destruct (self !! k) as [v|] eqn:Hv.
  - apply Hgen; [apply NoDup_fst_map_to_list|]. now apply elem_of_map_to_list.
  - destruct (dict_lookup k (map_to_list self)) as [v|] eqn:Hl; [|reflexivity].
    apply Hgen in Hl; [|apply NoDup_fst_map_to_list].
    apply elem_of_map_to_list in Hl. congruence.
Qed.

Lemma from_internal_dict_lookup (tools : misc) (params : plain_dict) (default restored : attrs)
    (key : string) :
  OptParams tools ([] : plain_dict) = Ok default ->
  from_internal_dict tools params = Ok restored ->
  restored !! key =
    match default !! key with
    | Some d => Some (match dict_lookup key params with Some v => v | None => d end)
    | None => None
    end.
Proof.
  intros Hdefault. unfold from_internal_dict. rewrite Hdefault. cbn [obind].
  intros [= <-]. rewrite map_lookup_imap. destruct (default !! key); reflexivity.
Qed.

(** [from_internal_dict] restores an object from its dump: given the
    [__dict__] of an object that has exactly the attributes of a
    default-constructed one, it returns that object.  In general it keeps
    exactly the attribute names of the default object, takes each value from
    the dictionary where the dictionary has the name and the default where
    it has not, and stores the values as they come: an enumerated option is
    neither checked nor upper-cased. *)
Theorem from_internal_dict_restores_a_dump (tools : misc) (default self : attrs) :
  OptParams tools ([] : plain_dict) = Ok default ->
  dom self = dom default ->
  from_internal_dict tools (dump self) = Ok self /\
  (forall params, exists restored,
     from_internal_dict tools params = Ok restored /\
     dom restored = dom default /\
     (forall key v, dict_lookup key params = Some v -> key ∈ dom default ->
        restored !! key = Some v) /\
     (forall key, dict_lookup key params = None -> restored !! key = default !! key)).
Proof.
  intros Hdefault Hdom. split.
  - unfold from_internal_dict. rewrite Hdefault. cbn [obind]. f_equal.
    apply map_eq. intros key. rewrite map_lookup_imap.
    destruct (default !! key) as [d|] eqn:Hd; cbn.
    + unfold uod_get, uod_find, plain_dict_mapping. rewrite dict_lookup_dump.
      assert (Hin : key ∈ dom self) by (rewrite Hdom; apply elem_of_dom; eauto).
      apply elem_of_dom in Hin as [v Hv]. now rewrite Hv.
    + symmetry. apply not_elem_of_dom. rewrite Hdom. now apply not_elem_of_dom.
  - intros params.
    destruct (from_internal_dict tools params) as [restored|e] eqn:Hrun.
    2:{ unfold from_internal_dict in Hrun. rewrite Hdefault in Hrun. discriminate. }
    exists restored. split; [reflexivity|].
    pose proof (fun key => from_internal_dict_lookup tools params default restored key
                             Hdefault Hrun) as Hlook.
    split; [|split].
    + apply set_eq. intros key. rewrite !elem_of_dom, Hlook.
      destruct (default !! key); split; intros [? ?]; eauto; discriminate.
    + intros key v Hv [d Hd]%elem_of_dom. now rewrite Hlook, Hd, Hv.
    + intros key Hnone. rewrite Hlook, Hnone. now destruct (default !! key).
Qed.

Lemma from_internal_dict_restores_a_dump_witness :
  let default := constructed (OptParams misc_empty_text ([] : plain_dict)) in
  let self := <["geom_maxiter" := PInt 7]> default in
  from_internal_dict misc_empty_text (dump self) = Ok self /\
  (forall params, exists restored,
     from_internal_dict misc_empty_text params = Ok restored /\
     dom restored = dom default /\
     (forall key v, dict_lookup key params = Some v -> key ∈ dom default ->
        restored !! key = Some v) /\
     (forall key, dict_lookup key params = None -> restored !! key = default !! key)).
Proof.
  apply (from_internal_dict_restores_a_dump misc_empty_text); [reflexivity|].
  apply dom_insert_lookup_L. eexists. reflexivity.
Defined.

(** *** Convergence criteria *)

Lemma holds_untouched name v : untouched_by [name] (holds name v).
Proof.
  intros self k w Hk Hv. unfold holds. rewrite lookup_insert_ne; [exact Hv|].
  intros ->. apply Hk. now left.
Qed.

Lemma triple_setattr_holds P name v :
  str_in name string_options = false -> triple P (setattr name v) (holds name v).
Proof.
  intros Hplain self a self' _ Hrun. rewrite setattr_plain in Hrun by exact Hplain.
  injection Hrun as _ <-. apply lookup_insert_eq.
Qed.

Lemma triple_conj {A} P1 P2 Q1 Q2 (m : M A) :
  triple P1 m Q1 -> triple P2 m Q2 ->
  triple (fun s => P1 s /\ P2 s) m (fun s => Q1 s /\ Q2 s).
Proof. intros H1 H2 self a self' [HP1 HP2] Hrun. split; eauto. Qed.

Lemma triple_weaken {A} (P P' Q Q' : attrs -> Prop) (m : M A) :
  (forall s, P' s -> P s) -> (forall s, Q s -> Q' s) -> triple P m Q -> triple P' m Q'.
Proof. intros HP HQ Hm self a self' Hs Hrun. eauto. Qed.

(** Walk to the statement that assigns the plain attribute [name], then
    keep its value through the statements that do not assign it. *)
Ltac reach_value :=
  lazymatch goal with
  | |- triple _ (bind (setattr ?n ?v) _) (holds ?n ?v) =>
      apply (triple_bind _ (holds n v));
        [apply triple_setattr_holds; reflexivity | intros ?; keeps (holds_untouched n v)]
  | |- triple _ (setattr ?n ?v) (holds ?n ?v) => apply triple_setattr_holds; reflexivity
  | |- triple _ (bind _ _) _ =>
      apply (triple_bind _ (fun _ => True)); [apply triple_anything | intros ?; reach_value]
  end.

Lemma self_is_run name text v (self : attrs) :
  self !! name = Some v -> self_is name text self = (Ok (py_eq v (PStr text)), self).
Proof.
  intros Hv. unfold self_is, bind, getattr, string_option_getter, ret.
  destruct (str_in name string_options); now rewrite Hv.
Qed.

Lemma select_preset_run presets s (self : attrs) :
  self !! "g_convergence" = Some (PStr s) ->
  select_preset presets self =
    match find (fun p => String.eqb s (fst p)) presets with
    | Some p => preset (snd p) self
    | None => (Ok tt, self)
    end.
Proof.
  intros Hs. induction presets as [|[name criteria] others IH]; [reflexivity|].
  cbn [select_preset find fst snd]. unfold bind at 1. rewrite (self_is_run _ _ _ _ Hs).
  cbn [py_eq]. destruct (String.eqb s name); [reflexivity | exact IH].
Qed.

Lemma preset_untampered P criteria :
  Forall not_i_untampered criteria ->
  triple P (preset criteria) (holds "i_untampered" (PBool true)).
Proof.
  intros Hnames. unfold preset.
  apply (triple_bind _ (holds "i_untampered" (PBool true)));
    [apply triple_setattr_holds; reflexivity | intros _].
  induction Hnames as [|c rest [Hconv Hflag] _ IH]; cbn [fold_right]; [apply triple_ret|].
  unfold activate. apply triple_seq; [|intros _; exact IH].
  apply triple_seq; [|intros _].
  - exact (triple_setattr _ _ _ _ (holds_untouched _ _) Hconv).
  - exact (triple_setattr _ _ _ _ (holds_untouched _ _) Hflag).
Qed.

Lemma select_preset_untampered :
  triple (holds_allowed "g_convergence") (select_preset g_convergence_presets)
    (holds "i_untampered" (PBool true)).
Proof.
  intros self a self' (s & allowed & Hs & Hrow & Hin) Hrun.
  rewrite (select_preset_run _ _ _ Hs) in Hrun.
  injection Hrow as <-.
  assert (Hpreset : forall criteria, Forall not_i_untampered criteria ->
            preset criteria self = (Ok a, self') -> holds "i_untampered" (PBool true) self').
  { intros criteria Hc Hp. exact (preset_untampered (fun _ => True) criteria Hc self a self' I Hp). }
  simpl in Hin.
  repeat (destruct Hin as [<- | Hin];
          [ cbn [find g_convergence_presets fst snd String.eqb Ascii.eqb Bool.eqb] in Hrun;
            refine (Hpreset _ _ Hrun); repeat constructor |]).
  contradiction.
Qed.

Section Criteria.
Context {D : Type} `{OptionMapping D}.
Variable tools : misc.
Variable uod : D.

Lemma specific_untampered (b : bool) key flag conv option :
  str_in flag ("i_untampered" :: string_options) = false ->
  str_in conv ("i_untampered" :: string_options) = false ->
  triple (holds "i_untampered" (PBool b)) (specific uod key flag conv option)
    (holds "i_untampered" (PBool (b && negb (uod_contains uod key)))).
Proof.
  intros Hflag Hconv. unfold specific.
  assert (Hf : str_in flag ["i_untampered"] = false).
  { cbn [str_in existsb] in *. now apply orb_false_iff in Hflag as [-> _]. }
  assert (Hc : str_in conv ["i_untampered"] = false).
  { cbn [str_in existsb] in *. now apply orb_false_iff in Hconv as [-> _]. }
  destruct (uod_contains uod key); cbn [when negb].
  - rewrite andb_false_r.
    apply (triple_bind _ (holds "i_untampered" (PBool false)));
      [apply triple_setattr_holds; reflexivity | intros _].
    apply triple_seq; [exact (triple_setattr _ _ _ _ (holds_untouched _ _) Hf) | intros _].
    apply triple_seq; [apply triple_getattr | intros v].
    exact (triple_setattr _ _ _ _ (holds_untouched _ _) Hc).
  - rewrite andb_true_r. apply triple_ret.
Qed.

Local Abbreviation flexible := (flexible_option uod).

Lemma flexible_rule (b : bool) :
  triple (fun s => holds "flexible_g_convergence" flexible s /\ holds "i_untampered" (PBool b) s)
    (flexible <- getattr "flexible_g_convergence" ;;
     when (py_bool flexible) (setattr "i_untampered" (PBool true)))
    (holds "i_untampered" (PBool (py_bool flexible || b))).
Proof.
  intros self a self' [Hflex Hunt] Hrun. unfold bind, getattr in Hrun.
  cbn [str_in existsb String.eqb Ascii.eqb Bool.eqb orb string_options] in Hrun.
  unfold holds in Hflex. rewrite Hflex in Hrun.
  destruct (py_bool flexible); cbn [when orb] in *.
  - rewrite setattr_plain in Hrun by reflexivity. injection Hrun as _ <-.
    apply lookup_insert_eq.
  - now injection Hrun as _ <-.
Qed.

Lemma init_internal_untampered :
  triple (fun s => holds "flexible_g_convergence" flexible s /\ holds_allowed "g_convergence" s)
    (init_internal uod)
    (holds "i_untampered"
       (PBool (py_bool flexible || negb (existsb (uod_contains uod) threshold_keys)))).
Proof.
  unfold init_internal.
  assert (Hg : untouched_by ["g_convergence"] (holds_allowed "g_convergence")).
  { intros self k v Hk (s & allowed & Hs & Hrow & Hin). exists s, allowed.
    rewrite lookup_insert_ne; [auto|]. intros ->. apply Hk. now left. }
  assert (Hboth : untouched_by ["flexible_g_convergence"; "g_convergence"]
            (fun s => holds "flexible_g_convergence" flexible s /\
                      holds_allowed "g_convergence" s)).
  { intros self k v Hk [H1 H2]. split.
    - apply holds_untouched; [|exact H1]. intros [<- | []]. apply Hk. simpl. tauto.
    - apply Hg; [|exact H2]. intros [<- | []]. apply Hk. simpl. tauto. }
  set (Flex := holds "flexible_g_convergence" flexible).
  set (Pre := fun s : attrs => Flex s /\ holds_allowed "g_convergence" s).
  change (untouched_by ["flexible_g_convergence"; "g_convergence"] Pre) in Hboth.
  pose proof (holds_untouched "flexible_g_convergence" flexible) as Hflex.
  change (untouched_by ["flexible_g_convergence"] Flex) in Hflex.
  do 11 (apply (triple_bind _ Pre); [keeps Hboth | intros _]).
  set (c1 := uod_contains uod "MAX_FORCE_G_CONVERGENCE").
  set (c2 := uod_contains uod "RMS_FORCE_G_CONVERGENCE").
  set (c3 := uod_contains uod "MAX_ENERGY_G_CONVERGENCE").
  set (c4 := uod_contains uod "MAX_DISP_G_CONVERGENCE").
  set (c5 := uod_contains uod "RMS_DISP_G_CONVERGENCE").
  replace (existsb (uod_contains uod) threshold_keys)
    with (c1 || (c2 || (c3 || (c4 || (c5 || false))))) by reflexivity.
  replace (py_bool flexible || negb (c1 || (c2 || (c3 || (c4 || (c5 || false))))))
    with (py_bool flexible ||
          (((((true && negb c1) && negb c2) && negb c3) && negb c4) && negb c5))
    by (now destruct c1, c2, c3, c4, c5).
  assert (Hkeep : triple Flex (select_preset g_convergence_presets) Flex).
  { cbn [select_preset g_convergence_presets].
    keeps Hflex;
      unfold preset, max_force, rms_force, max_DE, max_disp, rms_disp;
      cbn [fold_right fst snd]; unfold activate;
      keeps Hflex. }
  apply (triple_bind _ (fun s => Flex s /\ holds "i_untampered" (PBool true) s)).
  { apply triple_conj; [exact Hkeep | apply select_preset_untampered]. }
  intros _.
  repeat lazymatch goal with
    | |- triple (fun s => Flex s /\ holds "i_untampered" (PBool ?b) s)
           (bind (specific _ ?key _ _ _) _) _ =>
        apply (triple_bind _
                 (fun s => Flex s /\
                           holds "i_untampered" (PBool (b && negb (uod_contains uod key))) s));
          [ apply triple_conj;
              [unfold specific; keeps Hflex | apply specific_untampered; reflexivity]
          | intros _ ]
    end.
  apply flexible_rule.
Qed.

Lemma init_convergence_control_flexible :
  triple (fun _ => True) (init_convergence_control uod)
    (holds "flexible_g_convergence" flexible).
Proof. unfold init_convergence_control, flexible_option. reach_value. Qed.

Lemma init_untampered :
  triple set_options_allowed (init tools uod)
    (holds "i_untampered"
       (PBool (py_bool flexible || negb (existsb (uod_contains uod) threshold_keys)))).
Proof.
  pose proof (holds_untouched "flexible_g_convergence" flexible) as Hflex.
  set (Flex := holds "flexible_g_convergence" flexible) in *.
  set (G := fun s : attrs =>
              set_options_allowed s /\
              assigned "g_convergence" (uod_get uod "G_CONVERGENCE" (PStr "QCHEM")) s).
  assert (HG : stable G).
  { intros name v s s' a [H1 H2] Hrun. split.
    - exact (set_options_allowed_stable _ _ _ _ _ H1 Hrun).
    - exact (assigned_stable _ _ _ _ _ _ _ H2 Hrun). }
  unfold init.
  apply (triple_bind _ set_options_allowed);
    [apply init_algorithm_stable, set_options_allowed_stable | intros _].
  apply (triple_bind _ set_options_allowed);
    [apply init_constraints_stable, set_options_allowed_stable | intros _].
  apply (triple_bind _ (fun s => G s /\ Flex s)).
  { intros self a self' HW Hrun. split; [split|].
    - exact (init_convergence_control_stable uod _ set_options_allowed_stable _ _ _ HW Hrun).
    - exact (init_convergence_control_assigns uod _ _ _ I Hrun).
    - exact (init_convergence_control_flexible _ _ _ I Hrun). }
  intros _.
  apply (triple_bind _ (fun s => G s /\ Flex s)).
  { apply triple_conj; [apply init_hessian_stable, HG | unfold init_hessian; keeps Hflex]. }
  intros _.
  apply (triple_bind _ (fun s => G s /\ Flex s)).
  { apply triple_conj; [apply init_fragments_stable, HG | unfold init_fragments; keeps Hflex]. }
  intros _.
  apply (triple_bind _ (fun s => G s /\ Flex s)).
  { apply triple_conj; [apply init_misc_stable, HG | unfold init_misc; keeps Hflex]. }
  intros _.
  apply (triple_bind _ (fun s => G s /\ Flex s)).
  { apply triple_conj;
      [apply init_complicated_defaults_stable, HG
      | unfold init_complicated_defaults; keeps Hflex]. }
  intros _.
  apply (triple_bind _ (fun s => G s /\ Flex s)).
  { apply triple_conj; [apply init_fixed_stable, HG | unfold init_fixed; keeps Hflex]. }
  intros _.
  refine (triple_weaken _ _ _ _ _ _ (fun s Hs => Hs) init_internal_untampered).
  intros s [[HW [Hset _]] HF]. split; [exact HF|].
  apply HW; [simpl; tauto | exact Hset].
Qed.

Lemma specific_given key flag conv option v :
  uod_contains uod key = true ->
  str_in flag string_options = false ->
  str_in conv string_options = false ->
  str_in option ("i_untampered" :: flag :: conv :: string_options) = false ->
  flag <> conv ->
  triple (holds option v) (specific uod key flag conv option)
    (fun s => holds conv v s /\ holds flag (PBool true) s /\ holds option v s).
Proof.
  intros Hkey Hflag Hconv Hoption Hne self a self' Hv Hrun.
  cbn [str_in existsb] in Hoption.
  apply orb_false_iff in Hoption as [H1 Hoption].
  apply orb_false_iff in Hoption as [H2 Hoption].
  apply orb_false_iff in Hoption as [H3 Hoption].
  apply String.eqb_neq in H1, H2, H3.
  unfold specific in Hrun. rewrite Hkey in Hrun. cbn [when] in Hrun.
  unfold bind in Hrun.
  rewrite (setattr_plain "i_untampered") in Hrun by reflexivity.
  rewrite (setattr_plain flag) in Hrun by exact Hflag.
  unfold getattr in Hrun. change (str_in option string_options) with (existsb (String.eqb option) string_options) in Hrun.
  unfold str_in in Hoption. rewrite Hoption in Hrun.
  rewrite !lookup_insert_ne in Hrun by congruence.
  unfold holds in Hv. rewrite Hv in Hrun.
  rewrite (setattr_plain conv) in Hrun by exact Hconv.
  injection Hrun as _ <-. unfold holds. repeat apply conj.
  - apply lookup_insert_eq.
  - rewrite lookup_insert_ne by congruence. apply lookup_insert_eq.
  - now rewrite !lookup_insert_ne by congruence.
Qed.

Lemma threshold_set_untouched flag conv option v :
  untouched_by [conv; flag; option] (threshold_set flag conv option v).
Proof.
  intros self k w Hk (H1 & H2 & H3). unfold threshold_set, holds.
  rewrite !lookup_insert_ne by (intros <-; apply Hk; simpl; tauto). auto.
Qed.

Lemma init_threshold key flag conv option default :
  In (key, flag, conv, option, default)
     [ ("MAX_FORCE_G_CONVERGENCE", "i_max_force", "conv_max_force",
        "max_force_g_convergence", PFloat 3.0e-4);
       ("RMS_FORCE_G_CONVERGENCE", "i_rms_force", "conv_rms_force",
        "rms_force_g_convergence", PFloat 3.0e-4);
       ("MAX_ENERGY_G_CONVERGENCE", "i_max_DE", "conv_max_DE",
        "max_energy_g_convergence", PFloat 1.0e-6);
       ("MAX_DISP_G_CONVERGENCE", "i_max_disp", "conv_max_disp",
        "max_disp_g_convergence", PFloat 1.2e-3);
       ("RMS_DISP_G_CONVERGENCE", "i_rms_disp", "conv_rms_disp",
        "rms_disp_g_convergence", PFloat 1.2e-3) ] ->
  uod_contains uod key = true ->
  triple (fun _ => True) (init tools uod)
    (threshold_set flag conv option (uod_get uod key default)).
Proof.
  intros Hin Hkey. simpl in Hin.
  repeat (destruct Hin as [[= <- <- <- <- <-] | Hin];
    [ match goal with
      | |- triple _ _ (threshold_set ?flag ?conv ?option ?v) =>
          pose proof (holds_untouched option v) as Hopt;
          pose proof (threshold_set_untouched flag conv option v) as Hset;
          unfold init;
          do 2 (apply (triple_bind _ (fun _ => True)); [apply triple_anything | intros _]);
          apply (triple_bind _ (holds option v));
            [unfold init_convergence_control; reach_value | intros _];
          apply (triple_bind _ (holds option v));
            [unfold init_hessian; keeps Hopt | intros _];
          apply (triple_bind _ (holds option v));
            [unfold init_fragments; keeps Hopt | intros _];
          apply (triple_bind _ (holds option v));
            [unfold init_misc; keeps Hopt | intros _];
          apply (triple_bind _ (holds option v));
            [unfold init_complicated_defaults; keeps Hopt | intros _];
          apply (triple_bind _ (holds option v));
            [unfold init_fixed; keeps Hopt | intros _];
          unfold init_internal;
          do 11 (apply (triple_bind _ (holds option v)); [keeps Hopt | intros _]);
          apply (triple_bind _ (holds option v));
            [ cbn [select_preset g_convergence_presets];
              keeps Hopt;
                unfold preset, max_force, rms_force, max_DE, max_disp, rms_disp;
                cbn [fold_right fst snd]; unfold activate;
                keeps Hopt
            | intros _ ];
          repeat lazymatch goal with
            | |- triple (holds ?o _) (bind (specific _ _ _ _ ?o) _) _ =>
                apply (triple_bind _ (threshold_set flag conv option v));
                  [ apply specific_given; [exact Hkey | reflexivity | reflexivity
                                          | reflexivity | discriminate]
                  | intros _; unfold specific; keeps Hset ]
            | |- triple (holds _ _) (bind (specific _ _ _ _ _) _) _ =>
                apply (triple_bind _ (holds option v));
                  [unfold specific; keeps Hopt | intros _]
            end
      end |]).
  contradiction.
Qed.

End Criteria.

(** [i_untampered] ends True exactly when [flexible_g_convergence] is
    true or the dictionary supplies none of the five individual thresholds:
    every value of [g_convergence] that the constructor accepts selects a
    preset, each preset sets the flag, each individual threshold clears it,
    and the flexible option sets it again. *)
Theorem i_untampered_rule {D : Type} `{OptionMapping D} (tools : misc) (uod : D) (p : attrs) :
  OptParams tools uod = Ok p ->
  p !! "i_untampered" =
    Some (PBool (py_bool (uod_get uod "FLEXIBLE_G_CONVERGENCE" (PBool false)) ||
                 negb (existsb (uod_contains uod) threshold_keys))).
Proof.
  intros Hp%OptParams_run.
  refine (init_untampered tools uod ∅ tt p _ Hp).
  intros n _ [v Hv]. rewrite lookup_empty in Hv. discriminate.
Qed.

(** An individual threshold that the dictionary supplies wins over the
    preset: the criterion is switched on and takes the supplied value, as
    the option attribute does. *)
Theorem supplied_threshold_overrides {D : Type} `{OptionMapping D}
    (tools : misc) (uod : D) (p : attrs) (key flag conv option : string) (v : pyval) :
  OptParams tools uod = Ok p ->
  In (key, flag, conv, option) specific_criteria ->
  uod_find uod key = Some v ->
  p !! conv = Some v /\ p !! flag = Some (PBool true) /\ p !! option = Some v.
Proof.
  intros Hp%OptParams_run Hin Hv.
  assert (Hkey : uod_contains uod key = true) by (unfold uod_contains; now rewrite Hv).
  assert (Hdefault : exists default,
    In (key, flag, conv, option, default)
       [ ("MAX_FORCE_G_CONVERGENCE", "i_max_force", "conv_max_force",
          "max_force_g_convergence", PFloat 3.0e-4);
         ("RMS_FORCE_G_CONVERGENCE", "i_rms_force", "conv_rms_force",
          "rms_force_g_convergence", PFloat 3.0e-4);
         ("MAX_ENERGY_G_CONVERGENCE", "i_max_DE", "conv_max_DE",
          "max_energy_g_convergence", PFloat 1.0e-6);
         ("MAX_DISP_G_CONVERGENCE", "i_max_disp", "conv_max_disp",
          "max_disp_g_convergence", PFloat 1.2e-3);
         ("RMS_DISP_G_CONVERGENCE", "i_rms_disp", "conv_rms_disp",
          "rms_disp_g_convergence", PFloat 1.2e-3) ]).
  { simpl in Hin.
    repeat (destruct Hin as [[= <- <- <- <-] | Hin]; [eexists; simpl; tauto|]).
    contradiction. }
  destruct Hdefault as [default Hdefault].
  pose proof (init_threshold tools uod key flag conv option default Hdefault Hkey ∅ tt p I Hp)
    as Hset.
  unfold uod_get in Hset. rewrite Hv in Hset. exact Hset.
Qed.

Lemma supplied_threshold_overrides_witness :
  let p := constructed (OptParams misc_empty_text
                          ([ ("G_CONVERGENCE", PStr "GAU_TIGHT");
                             ("MAX_DISP_G_CONVERGENCE", PFloat 2.0e-3) ] : plain_dict)) in
  p !! "conv_max_disp" = Some (PFloat 2.0e-3) /\
  p !! "i_max_disp" = Some (PBool true) /\
  p !! "max_disp_g_convergence" = Some (PFloat 2.0e-3).
Proof.
  refine (supplied_threshold_overrides misc_empty_text
            ([ ("G_CONVERGENCE", PStr "GAU_TIGHT");
               ("MAX_DISP_G_CONVERGENCE", PFloat 2.0e-3) ] : plain_dict) _
            "MAX_DISP_G_CONVERGENCE" "i_max_disp" "conv_max_disp" "max_disp_g_convergence"
            (PFloat 2.0e-3) _ _ _).
  - reflexivity.
  - simpl. tauto.
  - reflexivity.
Defined.

Lemma i_untampered_rule_witness :
  let uod : plain_dict := [ ("RMS_FORCE_G_CONVERGENCE", PFloat 1.0e-4) ] in
  constructed (OptParams misc_empty_text uod) !! "i_untampered" =
    Some (PBool (py_bool (uod_get uod "FLEXIBLE_G_CONVERGENCE" (PBool false)) ||
                 negb (existsb (uod_contains uod) threshold_keys))).
Proof.
  apply (i_untampered_rule misc_empty_text
           ([ ("RMS_FORCE_G_CONVERGENCE", PFloat 1.0e-4) ] : plain_dict)).
  reflexivity.
Defined.

Lemma string_ltb_irrefl (s : string) : string_ltb s s = false.
Proof.
  induction s as [|c s IH]; [reflexivity|]. simpl. now rewrite Nat.ltb_irrefl.
Qed.

Lemma float_ltb_irrefl (f : float) : PrimFloat.ltb f f = false.
Proof.
  rewrite ltb_spec. unfold SFltb. destruct (Prim2SF f) as [s| s| |s m e]; try reflexivity.
  - now destruct s.
  - simpl. destruct s; rewrite Z.compare_refl, Pos.compare_refl; reflexivity.
Qed.

Lemma py_lt_irrefl (v : pyval) : py_lt v v <> Ok true.
Proof.
  induction v as [| b | z | f | s | l IH | items IH] using pyval_nested_ind;
    cbn [py_lt as_number number_ltb]; try discriminate.
  - rewrite Z.ltb_irrefl. discriminate.
  - rewrite Z.ltb_irrefl. discriminate.
  - rewrite float_ltb_irrefl. discriminate.
  - rewrite string_ltb_irrefl. discriminate.
  - induction IH as [|x l Hx _ IHl]; [discriminate|].
    destruct (py_eq x x); [exact IHl | exact Hx].
Qed.


Lemma getattr_run name v (self : attrs) :
  self !! name = Some v -> getattr name self = (Ok v, self).
Proof.
  intros Hv. unfold getattr, string_option_getter.
  destruct (str_in name string_options); now rewrite Hv.
Qed.

Lemma getattr_Ok name v (self self' : attrs) :
  getattr name self = (Ok v, self') -> self !! name = Some v /\ self' = self.
Proof.
  unfold getattr, string_option_getter.
  destruct (str_in name string_options), (self !! name); intros [= <- <-] || discriminate;
    now split.
Qed.

(** *** The trust radius and its maximum *)

Lemma trust_within_max_untouched :
  untouched_by ["intrafrag_trust"; "intrafrag_trust_max"] trust_within_max.
Proof.
  intros self k v Hk (t & tmax & Ht & Hmax & Hlt). exists t, tmax.
  rewrite !lookup_insert_ne by (intros ->; apply Hk; simpl; tauto). auto.
Qed.

Lemma unless_TS_untouched :
  untouched_by ["opt_type"; "intrafrag_trust"; "intrafrag_trust_max"]
    (fun s => not_TS s -> trust_within_max s).
Proof.
  intros self k v Hk Hs Hnot. unfold not_TS in *.
  rewrite lookup_insert_ne in Hnot by (intros ->; apply Hk; simpl; tauto).
  apply trust_within_max_untouched; [|now apply Hs].
  intros Hin. apply Hk. simpl in *. tauto.
Qed.

Lemma clamp_rule P :
  triple P
    (tmax <- getattr "intrafrag_trust_max" ;;
     t <- getattr "intrafrag_trust" ;;
     smaller <- lift (py_lt tmax t) ;;
     when smaller (v <- getattr "intrafrag_trust_max" ;; setattr "intrafrag_trust" v))
    trust_within_max.
Proof.
  intros self a self' _ Hrun. unfold bind in Hrun.
  destruct (getattr "intrafrag_trust_max" self) as [[tmax|e] s1] eqn:Emax; [|discriminate].
  apply getattr_Ok in Emax as [Hmax ->].
  destruct (getattr "intrafrag_trust" self) as [[t|e] s1] eqn:Et; [|discriminate].
  apply getattr_Ok in Et as [Ht ->].
  unfold lift in Hrun. destruct (py_lt tmax t) as [smaller|e] eqn:Elt; [|discriminate].
  destruct smaller; cbn [when] in Hrun.
  - unfold bind in Hrun. rewrite (getattr_run _ _ _ Hmax) in Hrun.
    rewrite setattr_plain in Hrun by reflexivity. injection Hrun as _ <-.
    exists tmax, tmax. rewrite lookup_insert_eq, lookup_insert_ne by discriminate.
    split; [reflexivity|]. split; [exact Hmax | apply py_lt_irrefl].
  - injection Hrun as _ <-. exists t, tmax. rewrite Elt.
    split; [exact Ht|]. split; [exact Hmax | discriminate].
Qed.

Section Trust.
Context {D : Type} `{OptionMapping D}.
Variable tools : misc.
Variable uod : D.

Lemma init_algorithm_clamps :
  triple (fun _ => True) (init_algorithm uod) trust_within_max.
Proof.
  unfold init_algorithm.
  do 25 (apply (triple_bind _ (fun _ => True)); [apply triple_anything | intros _]).
  apply (triple_bind _ trust_within_max); [apply clamp_rule | intros _].
  keeps trust_within_max_untouched.
Qed.

Lemma TS_rule :
  triple trust_within_max
    (ts <- self_is "opt_type" "TS" ;;
     when ts
       (rfo <- self_is "step_type" "RFO" ;;
        when (rfo || negb (uod_contains uod "STEP_TYPE"))
          (setattr "step_type" (PStr "RS_I_RFO") ;;
           setattr "intrafrag_trust" (PFloat 0.2))))
    (fun s => not_TS s -> trust_within_max s).
Proof.
  intros self a self' Hin Hrun. unfold bind at 1, self_is at 1, bind at 1 in Hrun.
  destruct (getattr "opt_type" self) as [[v|e] s1] eqn:Eopt; [|discriminate].
  apply getattr_Ok in Eopt as [Hopt ->]. unfold ret at 1 in Hrun.
  destruct (py_eq v (PStr "TS")) eqn:Ets; cbn [when] in Hrun.
  - apply py_eq_text in Ets. subst v. intros Hnot. exfalso.
    assert (Hkeep : triple (fun s => s !! "opt_type" = Some (PStr "TS"))
              (rfo <- self_is "step_type" "RFO" ;;
               when (rfo || negb (uod_contains uod "STEP_TYPE"))
                 (setattr "step_type" (PStr "RS_I_RFO") ;;
                  setattr "intrafrag_trust" (PFloat 0.2)))
              (fun s => s !! "opt_type" = Some (PStr "TS"))).
    { keeps (holds_untouched "opt_type" (PStr "TS")). }
    exact (Hnot (Hkeep _ _ _ Hopt Hrun)).
  - injection Hrun as _ <-. intros _. exact Hin.
Qed.

Lemma init_clamps :
  triple (fun _ => True) (init tools uod) (fun s => not_TS s -> trust_within_max s).
Proof.
  unfold init.
  apply (triple_bind _ trust_within_max); [apply init_algorithm_clamps | intros _].
  apply (triple_bind _ trust_within_max);
    [unfold init_constraints, set_tokenized, set_parsed; keeps trust_within_max_untouched
    | intros _].
  apply (triple_bind _ trust_within_max);
    [unfold init_convergence_control; keeps trust_within_max_untouched | intros _].
  apply (triple_bind _ trust_within_max);
    [unfold init_hessian; keeps trust_within_max_untouched | intros _].
  apply (triple_bind _ trust_within_max);
    [unfold init_fragments; keeps trust_within_max_untouched | intros _].
  apply (triple_bind _ trust_within_max);
    [unfold init_misc; keeps trust_within_max_untouched | intros _].
  apply (triple_bind _ (fun s => not_TS s -> trust_within_max s)).
  { unfold init_complicated_defaults.
    apply (triple_bind _ (fun s => not_TS s -> trust_within_max s)); [apply TS_rule | intros _].
    keeps unless_TS_untouched. }
  intros _.
  apply (triple_bind _ (fun s => not_TS s -> trust_within_max s));
    [unfold init_fixed; keeps unless_TS_untouched | intros _].
  unfold init_internal, specific.
  cbn [select_preset g_convergence_presets].
  keeps unless_TS_untouched;
    unfold preset, max_force, rms_force, max_DE, max_disp, rms_disp;
    cbn [fold_right fst snd]; unfold activate;
    keeps unless_TS_untouched.
Qed.

End Trust.

(** Unless the object is a transition-state search, the constructor leaves
    the intrafragment trust radius within its maximum: a radius above the
    maximum is cut down to it, whatever the two values are. *)
Theorem trust_radius_is_within_its_maximum {D : Type} `{OptionMapping D}
    (tools : misc) (uod : D) (p : attrs) :
  OptParams tools uod = Ok p ->
  p !! "opt_type" <> Some (PStr "TS") ->
  exists t tmax,
    p !! "intrafrag_trust" = Some t /\
    p !! "intrafrag_trust_max" = Some tmax /\
    py_lt tmax t <> Ok true.
Proof.
  intros Hp%OptParams_run Hnot. exact (init_clamps tools uod ∅ tt p I Hp Hnot).
Qed.

Lemma trust_radius_is_within_its_maximum_witness :
  let p := constructed (OptParams misc_empty_text
                          ([ ("INTRAFRAG_STEP_LIMIT_MAX", PFloat 0.25) ] : plain_dict)) in
  exists t tmax,
    p !! "intrafrag_trust" = Some t /\
    p !! "intrafrag_trust_max" = Some tmax /\
    py_lt tmax t <> Ok true.
Proof.
  refine (trust_radius_is_within_its_maximum misc_empty_text
            ([ ("INTRAFRAG_STEP_LIMIT_MAX", PFloat 0.25) ] : plain_dict) _ _ _).
  - reflexivity.
  - intros E. vm_compute in E. discriminate E.
Defined.

(** For a transition state the rule that sets the radius to 0.2 comes
    after the cut, so the radius can end above a smaller maximum. *)
Remark TS_radius_can_exceed_its_maximum :
  let p := constructed (OptParams misc_empty_text
                          ([ ("OPT_TYPE", PStr "TS");
                             ("INTRAFRAG_STEP_LIMIT_MAX", PFloat 0.1) ] : plain_dict)) in
  p !! "intrafrag_trust" = Some (PFloat 0.2) /\
  p !! "intrafrag_trust_max" = Some (PFloat 0.1).
Proof. split; reflexivity. Qed.

(** *** The minimum of the trust radius *)

Lemma trust_min_derived_untouched :
  untouched_by ["intrafrag_trust"; "intrafrag_trust_min"; "opt_coordinates"; "step_type"]
    trust_min_derived.
Proof.
  intros self k v Hk (t & Ht & Hboth & Hsd). exists t.
  rewrite !lookup_insert_ne by (intros ->; apply Hk; simpl; tauto). auto.
Qed.

Section TrustMin.
Context {D : Type} `{OptionMapping D}.
Variable tools : misc.
Variable uod : D.
Hypothesis not_given : uod_contains uod "INTRAFRAG_TRUST_MIN" = false.

Lemma trust_min_rule :
  triple (fun _ => True)
    (when (negb (uod_contains uod "INTRAFRAG_TRUST_MIN"))
       (both <- self_is "opt_coordinates" "BOTH" ;;
        if both
        then t <- getattr "intrafrag_trust" ;;
             half <- lift (py_truediv_float t 2.0) ;;
             setattr "intrafrag_trust_min" half
        else
          sd <- self_is "step_type" "SD" ;;
          if sd
          then t <- getattr "intrafrag_trust" ;; setattr "intrafrag_trust_min" t
          else
            f1 <- getattr "ext_force_distance" ;;
            f2 <- getattr "ext_force_bend" ;;
            f3 <- getattr "ext_force_dihedral" ;;
            f4 <- getattr "ext_force_oofp" ;;
            f5 <- getattr "ext_force_cartesian" ;;
            when (py_any [f1; f2; f3; f4; f5])
              (t <- getattr "intrafrag_trust" ;;
               half <- lift (py_truediv_float t 2.0) ;;
               setattr "intrafrag_trust_min" half)))
    (fun s => is_Some (s !! "intrafrag_trust") -> trust_min_derived s).
Proof.
  intros self a self' _ Hrun. rewrite not_given in Hrun. cbn [negb when] in Hrun.
  unfold bind at 1, self_is at 1, bind at 1 in Hrun.
  destruct (getattr "opt_coordinates" self) as [[oc|e] s1] eqn:Eoc; [|discriminate].
  apply getattr_Ok in Eoc as [Hoc ->]. unfold ret at 1 in Hrun.
  destruct (py_eq oc (PStr "BOTH")) eqn:Eboth.
  - apply py_eq_text in Eboth. subst oc. unfold bind at 1 in Hrun.
    destruct (getattr "intrafrag_trust" self) as [[t|e] s1] eqn:Et; [|discriminate].
    apply getattr_Ok in Et as [Ht ->]. unfold bind at 1, lift at 1 in Hrun.
    destruct (py_truediv_float t 2.0) as [half|e] eqn:Ehalf; [|discriminate].
    rewrite setattr_plain in Hrun by reflexivity. injection Hrun as _ <-.
    intros _. exists t. rewrite !lookup_insert_ne by discriminate.
    split; [exact Ht|]. split.
    + intros _. exists half. split; [exact Ehalf | apply lookup_insert_eq].
    + intros Hnot. congruence.
  - assert (Hnot : self !! "opt_coordinates" <> Some (PStr "BOTH")).
    { rewrite Hoc. intros [= ->]. discriminate. }
    unfold bind at 1, self_is at 1, bind at 1 in Hrun.
    destruct (getattr "step_type" self) as [[st|e] s1] eqn:Est; [|discriminate].
    apply getattr_Ok in Est as [Hst ->]. unfold ret at 1 in Hrun.
    destruct (py_eq st (PStr "SD")) eqn:Esd.
    + unfold bind at 1 in Hrun.
      destruct (getattr "intrafrag_trust" self) as [[t|e] s1] eqn:Et; [|discriminate].
      apply getattr_Ok in Et as [Ht ->].
      rewrite setattr_plain in Hrun by reflexivity. injection Hrun as _ <-.
      intros _. exists t. rewrite !lookup_insert_ne by discriminate.
      split; [exact Ht|]. split; [intros Hboth; congruence|].
      intros _ _. apply lookup_insert_eq.
    + assert (Hnsd : self !! "step_type" <> Some (PStr "SD")).
      { rewrite Hst. intros [= ->]. discriminate. }
      assert (Hkeep : forall s : attrs, s !! "opt_coordinates" = self !! "opt_coordinates" ->
                s !! "step_type" = self !! "step_type" ->
                is_Some (s !! "intrafrag_trust") -> trust_min_derived s).
      { intros s E1 E2 [t Ht]. exists t. split; [exact Ht|].
        rewrite E1, E2. split; [intros Hb; contradiction | intros _ Hs; contradiction]. }
      assert (Hun : untouched_by ["opt_coordinates"; "step_type"]
                (fun s : attrs => s !! "opt_coordinates" = self !! "opt_coordinates" /\
                                  s !! "step_type" = self !! "step_type")).
      { intros s k v Hk [E1 E2].
        rewrite !lookup_insert_ne by (intros ->; apply Hk; simpl; tauto). auto. }
      assert (Hrest : triple
                (fun s : attrs => s !! "opt_coordinates" = self !! "opt_coordinates" /\
                                  s !! "step_type" = self !! "step_type")
                (f1 <- getattr "ext_force_distance" ;;
                 f2 <- getattr "ext_force_bend" ;;
                 f3 <- getattr "ext_force_dihedral" ;;
                 f4 <- getattr "ext_force_oofp" ;;
                 f5 <- getattr "ext_force_cartesian" ;;
                 when (py_any [f1; f2; f3; f4; f5])
                   (t <- getattr "intrafrag_trust" ;;
                    half <- lift (py_truediv_float t 2.0) ;;
                    setattr "intrafrag_trust_min" half))
                (fun s : attrs => s !! "opt_coordinates" = self !! "opt_coordinates" /\
                                  s !! "step_type" = self !! "step_type")).
      { keeps Hun. }
      destruct (Hrest self a self' (conj Logic.eq_refl Logic.eq_refl) Hrun) as [E1 E2].
      now apply Hkeep.
Qed.

Lemma init_trust_min :
  triple (fun _ => True) (init tools uod) trust_min_derived.
Proof.
  set (T := fun s : attrs => is_Some (s !! "intrafrag_trust")).
  assert (HT : stable T).
  { intros name v s s' a [t Ht] Hrun. destruct (setattr_returns _ _ _ _ _ Hrun) as [w ->].
    unfold T. destruct (decide (name = "intrafrag_trust")) as [-> | Hne].
    - rewrite lookup_insert_eq. eauto.
    - rewrite lookup_insert_ne by exact Hne. eauto. }
  unfold init.
  apply (triple_bind _ T).
  { unfold init_algorithm.
    do 18 (apply (triple_bind _ (fun _ => True)); [apply triple_anything | intros _]).
    apply (triple_bind _ T).
    - intros self a self' _ Hrun. rewrite setattr_plain in Hrun by reflexivity.
      injection Hrun as _ <-. unfold T. rewrite lookup_insert_eq. eauto.
    - intros _. keeps_stable HT. }
  intros _.
  apply (triple_bind _ T); [apply init_constraints_stable, HT | intros _].
  apply (triple_bind _ T); [apply init_convergence_control_stable, HT | intros _].
  apply (triple_bind _ T); [apply init_hessian_stable, HT | intros _].
  apply (triple_bind _ T); [apply init_fragments_stable, HT | intros _].
  apply (triple_bind _ T); [apply init_misc_stable, HT | intros _].
  apply (triple_bind _ trust_min_derived).
  { unfold init_complicated_defaults.
    apply (triple_bind _ T); [keeps_stable HT | intros _].
    apply (triple_bind _ T); [keeps_stable HT | intros _].
    apply (triple_bind _ trust_min_derived).
    - assert (Hkeep : triple T
         (when (negb (uod_contains uod "INTRAFRAG_TRUST_MIN"))
            (both <- self_is "opt_coordinates" "BOTH" ;;
             if both
             then t <- getattr "intrafrag_trust" ;;
                  half <- lift (py_truediv_float t 2.0) ;;
                  setattr "intrafrag_trust_min" half
             else
               sd <- self_is "step_type" "SD" ;;
               if sd
               then t <- getattr "intrafrag_trust" ;; setattr "intrafrag_trust_min" t
               else
                 f1 <- getattr "ext_force_distance" ;;
                 f2 <- getattr "ext_force_bend" ;;
                 f3 <- getattr "ext_force_dihedral" ;;
                 f4 <- getattr "ext_force_oofp" ;;
                 f5 <- getattr "ext_force_cartesian" ;;
                 when (py_any [f1; f2; f3; f4; f5])
                   (t <- getattr "intrafrag_trust" ;;
                    half <- lift (py_truediv_float t 2.0) ;;
                    setattr "intrafrag_trust_min" half))) T).
      { keeps_stable HT. }
      intros self a self' Hs Hrun.
      exact (trust_min_rule self a self' I Hrun (Hkeep self a self' Hs Hrun)).
    - intros _. keeps trust_min_derived_untouched. }
  intros _.
  apply (triple_bind _ trust_min_derived);
    [unfold init_fixed; keeps trust_min_derived_untouched | intros _].
  unfold init_internal, specific.
  cbn [select_preset g_convergence_presets].
  keeps trust_min_derived_untouched;
    unfold preset, max_force, rms_force, max_DE, max_disp, rms_disp;
    cbn [fold_right fst snd]; unfold activate;
    keeps trust_min_derived_untouched.
Qed.

End TrustMin.

(** The constructor reads the minimum of the trust radius from the key
    INTRAFRAG_STEP_LIMIT_MIN but decides whether to derive it by looking for
    the key INTRAFRAG_TRUST_MIN.  So whenever the dictionary has no
    INTRAFRAG_TRUST_MIN entry, a supplied minimum or not: with the
    coordinates BOTH the minimum ends as half the trust radius, and otherwise
    with steepest-descent steps it ends as the trust radius itself. *)
Theorem trust_minimum_is_derived {D : Type} `{OptionMapping D}
    (tools : misc) (uod : D) (p : attrs) :
  OptParams tools uod = Ok p ->
  uod_contains uod "INTRAFRAG_TRUST_MIN" = false ->
  exists t,
    p !! "intrafrag_trust" = Some t /\
    (p !! "opt_coordinates" = Some (PStr "BOTH") ->
       exists half, py_truediv_float t 2.0 = Ok half /\
                    p !! "intrafrag_trust_min" = Some half) /\
    (p !! "opt_coordinates" <> Some (PStr "BOTH") ->
     p !! "step_type" = Some (PStr "SD") ->
       p !! "intrafrag_trust_min" = Some t).
Proof.
  intros Hp%OptParams_run Hno. exact (init_trust_min tools uod Hno ∅ tt p I Hp).
Qed.

Lemma trust_minimum_is_derived_witness :
  let p := constructed (OptParams misc_empty_text
                          ([ ("STEP_TYPE", PStr "SD");
                             ("INTRAFRAG_STEP_LIMIT_MIN", PFloat 0.01) ] : plain_dict)) in
  exists t,
    p !! "intrafrag_trust" = Some t /\
    (p !! "opt_coordinates" = Some (PStr "BOTH") ->
       exists half, py_truediv_float t 2.0 = Ok half /\
                    p !! "intrafrag_trust_min" = Some half) /\
    (p !! "opt_coordinates" <> Some (PStr "BOTH") ->
     p !! "step_type" = Some (PStr "SD") ->
       p !! "intrafrag_trust_min" = Some t).
Proof.
  refine (trust_minimum_is_derived misc_empty_text
            ([ ("STEP_TYPE", PStr "SD");
               ("INTRAFRAG_STEP_LIMIT_MIN", PFloat 0.01) ] : plain_dict) _ _ _);
    reflexivity.
Defined.

(** The supplied minimum 0.01 is lost: the object holds the trust radius. *)
Remark supplied_trust_minimum_is_overwritten :
  let p := constructed (OptParams misc_empty_text
                          ([ ("STEP_TYPE", PStr "SD");
                             ("INTRAFRAG_STEP_LIMIT_MIN", PFloat 0.01) ] : plain_dict)) in
  p !! "intrafrag_trust_min" = Some (PFloat 0.5).
Proof. reflexivity. Qed.

End optparamsFacts.

(** ** The torsion coordinate *)

Module torsFacts.
Import Py tors.
Local Open Scope R_scope.

Lemma tuple_eqb_same (t : list nat) : tuple_eqb t t = true.
Proof. induction t as [|x t IH]; simpl; [reflexivity|]. now rewrite Nat.eqb_refl. Qed.

(** Against the claim C7 as stated: built over (0,1,2,0) and over the
    reversed (0,2,1,0), two torsions do not compare equal.  With equal end
    atoms the constructor always reverses, so each object holds the other's
    ordering. *)
Lemma equal_ends_reversal_differs :
  eq (init 0 1 2 0 false None) (a_TORS (init 0 2 1 0 false None)) = Ok false.
Proof. reflexivity. Qed.

(** An object without an atom tuple cannot be compared at all. *)
Remark comparison_needs_atoms (t : TORS) : eq t another = Raise (AttributeError "atoms").
Proof. reflexivity. Qed.

(** C7, amended.  The constructor stores (a,b,c,d) when a < d and (d,c,b,a)
    otherwise, so (3,1,1,0) is stored as (0,1,1,3); torsions built from
    (a,b,c,d) and from (d,c,b,a) compare equal whenever the end atoms
    differ or the middle atoms coincide; and a comparison with an internal
    coordinate of another class is false. *)
Theorem torsion_canonical_order (a b c d : nat) (fr fr' : bool) (fx fx' : option R) :
  atoms (base (init a b c d fr fx)) = (if Nat.ltb a d then [a; b; c; d] else [d; c; b; a]) /\
  atoms (base (init 3 1 1 0 fr fx)) = [0; 1; 1; 3]%nat /\
  ((a <> d \/ b = c) ->
     eq (init a b c d fr fx) (a_TORS (init d c b a fr' fx')) = Ok true) /\
  (forall class_name s, eq (init a b c d fr fx) (a_SIMPLE class_name s) = Ok false).
Proof.
  split; [reflexivity|]. split; [reflexivity|]. split.
  - intros Hends. unfold eq, init. cbn [object_atoms obind base atoms is_TORS negb].
    destruct (Nat.ltb_spec a d) as [Hlt | Hge].
    + destruct (Nat.ltb_spec d a) as [Hlt' | _]; [lia|].
      now rewrite tuple_eqb_same.
    + destruct (Nat.ltb_spec d a) as [_ | Hge'].
      * now rewrite tuple_eqb_same.
      * assert (a = d) by lia. subst d.
        destruct Hends as [Hne | ->]; [congruence|].
        now rewrite tuple_eqb_same.
  - intros class_name s. unfold eq. cbn [object_atoms obind is_TORS negb].
    now destruct (tuple_eqb _ _).
Qed.

Section BranchCut.
Variable v3d_tors : vec -> vec -> vec -> vec -> bool * R.

(** C6.  Where the four positions exist and [v3d.tors] reports the raw
    angle [tau]: with [near180] = +1 and [tau] below -1.57, [q] returns
    [tau + 2 pi] (which exceeds pi as soon as [tau] is above -pi); with
    [near180] = -1 and [tau] above 1.57 it returns [tau - 2 pi]; in every
    other case it returns [tau].  And [updateOrientation] sets [near180] to
    +1 exactly at a geometry where [q] exceeds 1.57. *)
Theorem q_extends_across_the_branch_cut
    (self : TORS) (geom : list vec) (pA pB pC pD : vec) (tau : R) :
  position geom (atom_A self) = Ok pA ->
  position geom (atom_B self) = Ok pB ->
  position geom (atom_C self) = Ok pC ->
  position geom (atom_D self) = Ok pD ->
  v3d_tors pA pB pC pD = (true, tau) ->
  (near180 self = 1%Z -> tau < - 1.57 ->
     q v3d_tors self geom = Ok (tau + 2 * PI) /\ (- PI < tau -> PI < tau + 2 * PI)) /\
  (near180 self = (-1)%Z -> 1.57 < tau ->
     q v3d_tors self geom = Ok (tau - 2 * PI)) /\
  (~ (near180 self = 1%Z /\ tau < - 1.57) -> ~ (near180 self = (-1)%Z /\ 1.57 < tau) ->
     q v3d_tors self geom = Ok tau) /\
  (forall value, q v3d_tors self geom = Ok value -> 1.57 < value ->
     exists self', updateOrientation v3d_tors self geom = Ok self' /\
                   near180 self' = 1%Z /\ base self' = base self).
Proof.
  intros HA HB HC HD Htors.
  assert (Hq : q v3d_tors self geom =
               if Z.eqb (_near180 self) (-1) && rgt tau fix_val_near_pi
               then Ok (tau - 2 * PI)
               else if Z.eqb (_near180 self) 1 && rlt tau (-1 * fix_val_near_pi)
                    then Ok (tau + 2 * PI)
                    else Ok tau).
  { unfold q. rewrite HA, HB, HC, HD. cbn [obind]. now rewrite Htors. }
  unfold near180, rgt, rlt, fix_val_near_pi in *.
  split; [|split; [|split]].
  - intros Hn Htau. split; [|intros; lra]. rewrite Hq, Hn. cbn [Z.eqb andb].
    destruct (Rlt_dec tau (-1 * 1.57)); [reflexivity | lra].
  - intros Hn Htau. rewrite Hq, Hn. cbn [Z.eqb Pos.eqb andb].
    destruct (Rgt_dec tau 1.57); [reflexivity | lra].
  - intros Hplus Hminus. rewrite Hq.
    destruct (Z.eqb_spec (_near180 self) (-1)) as [Em | Em]; cbn [andb].
    + destruct (Rgt_dec tau 1.57) as [Hgt | _]; [exfalso; apply Hminus; split; [exact Em | lra]|].
      rewrite Em. reflexivity.
    + destruct (Z.eqb_spec (_near180 self) 1) as [Ep | Ep]; cbn [andb]; [|reflexivity].
      destruct (Rlt_dec tau (-1 * 1.57)) as [Hlt | _]; [|reflexivity].
      exfalso; apply Hplus; split; [exact Ep | lra].
  - intros value Hvalue Hbig. unfold updateOrientation. rewrite Hvalue. cbn [obind].
    unfold rgt, fix_val_near_pi. destruct (Rgt_dec value 1.57); [|lra].
    eexists. repeat split.
Qed.

(** When [v3d.tors] cannot compute the angle, [q] raises, and so does
    [updateOrientation]; the torsion keeps its orientation memory. *)
Theorem q_fails_when_the_angle_is_undefined
    (self : TORS) (geom : list vec) (pA pB pC pD : vec) (tau : R) :
  position geom (atom_A self) = Ok pA ->
  position geom (atom_B self) = Ok pB ->
  position geom (atom_C self) = Ok pC ->
  position geom (atom_D self) = Ok pD ->
  v3d_tors pA pB pC pD = (false, tau) ->
  q v3d_tors self geom = Raise (INTCO_EXCEPT "TORS.q: unable to compute torsion value") /\
  updateOrientation v3d_tors self geom
    = Raise (INTCO_EXCEPT "TORS.q: unable to compute torsion value").
Proof.
  intros HA HB HC HD Htors.
  assert (Hq : q v3d_tors self geom
               = Raise (INTCO_EXCEPT "TORS.q: unable to compute torsion value")).
  { unfold q. rewrite HA, HB, HC, HD. cbn [obind]. now rewrite Htors. }
  split; [exact Hq|]. unfold updateOrientation. now rewrite Hq.
Qed.

End BranchCut.

Lemma q_extends_across_the_branch_cut_witness :
  let reading := fun _ _ _ _ : vec => (true, -3) in
  (near180 torsion_0123_near_pi = 1%Z -> -3 < - 1.57 ->
     q reading torsion_0123_near_pi square_corner = Ok (-3 + 2 * PI) /\
     (- PI < -3 -> PI < -3 + 2 * PI)) /\
  (near180 torsion_0123_near_pi = (-1)%Z -> 1.57 < -3 ->
     q reading torsion_0123_near_pi square_corner = Ok (-3 - 2 * PI)) /\
  (~ (near180 torsion_0123_near_pi = 1%Z /\ -3 < - 1.57) ->
   ~ (near180 torsion_0123_near_pi = (-1)%Z /\ 1.57 < -3) ->
     q reading torsion_0123_near_pi square_corner = Ok (-3)) /\
  (forall value, q reading torsion_0123_near_pi square_corner = Ok value -> 1.57 < value ->
     exists self', updateOrientation reading torsion_0123_near_pi square_corner = Ok self' /\
                   near180 self' = 1%Z /\ base self' = base torsion_0123_near_pi).
Proof.
  exact (q_extends_across_the_branch_cut (fun _ _ _ _ => (true, -3))
           torsion_0123_near_pi square_corner (1, 0, 0) (0, 0, 0) (0, 1, 0) (0, 1, 1) (-3)
           eq_refl eq_refl eq_refl eq_refl eq_refl).
Defined.

Lemma q_fails_when_the_angle_is_undefined_witness :
  let reading := fun _ _ _ _ : vec => (false, 0) in
  q reading torsion_0123 straight_ABC
    = Raise (INTCO_EXCEPT "TORS.q: unable to compute torsion value") /\
  updateOrientation reading torsion_0123 straight_ABC
    = Raise (INTCO_EXCEPT "TORS.q: unable to compute torsion value").
Proof.
  exact (q_fails_when_the_angle_is_undefined (fun _ _ _ _ => (false, 0))
           torsion_0123 straight_ABC (1, 0, 0) (0, 0, 0) (-1, 0, 0) (-1, 1, 0) 0
           eq_refl eq_refl eq_refl eq_refl eq_refl).
Defined.

Lemma at_0_or_180_iff (f : frame) :
  at_0_or_180 f = true <->
  1 - cos_u f * cos_u f <= 1.0e-12 \/ 1 - cos_v f * cos_v f <= 1.0e-12.
Proof.
  unfold at_0_or_180, rle. rewrite orb_true_iff.
  destruct (Rle_dec (1 - cos_u f * cos_u f) 1.0e-12),
           (Rle_dec (1 - cos_v f * cos_v f) 1.0e-12); intuition discriminate.
Qed.

(** C8.  At a geometry where the four atoms exist, the bonds have a length
    and one of the two [1 - cos^2] terms is at most 1e-12, both [DqDx] and
    [Dq2Dx2] return normally and hand back the caller's buffer with every
    entry as it was. *)
Theorem derivatives_left_untouched_at_0_or_180 (self : TORS) (geom : list vec) (f : frame) :
  frame_of self geom = Ok f ->
  bonds_have_length f ->
  1 - cos_u f * cos_u f <= 1.0e-12 \/ 1 - cos_v f * cos_v f <= 1.0e-12 ->
  (forall dqdx mini, DqDx self geom dqdx mini = Ok dqdx) /\
  (forall dq2dx2, Dq2Dx2 self geom dq2dx2 = Ok dq2dx2).
Proof.
  intros Hf _ Hflat. apply at_0_or_180_iff in Hflat. split.
  - intros dqdx mini. unfold DqDx. rewrite Hf. cbn [obind]. now rewrite Hflat.
  - intros dq2dx2. unfold Dq2Dx2. rewrite Hf. cbn [obind]. now rewrite Hflat.
Qed.

Lemma norm_x_axis : norm (1 - 0, 0 - 0, 0 - 0) = 1.
Proof. unfold norm. replace (_ + _) with 1 by ring. apply sqrt_1. Qed.

Lemma norm_x_axis_back : norm (-1 - 0, 0 - 0, 0 - 0) = 1.
Proof. unfold norm. replace (_ + _) with 1 by ring. apply sqrt_1. Qed.

Lemma norm_y_axis : norm (-1 - -1, 1 - 0, 0 - 0) = 1.
Proof. unfold norm. replace (_ + _) with 1 by ring. apply sqrt_1. Qed.

Lemma derivatives_left_untouched_at_0_or_180_witness :
  (forall dqdx mini, DqDx torsion_0123 straight_ABC dqdx mini = Ok dqdx) /\
  (forall dq2dx2, Dq2Dx2 torsion_0123 straight_ABC dq2dx2 = Ok dq2dx2).
Proof.
  refine (derivatives_left_untouched_at_0_or_180 torsion_0123 straight_ABC _ eq_refl _ _).
  - unfold bonds_have_length. cbn [Lu Lv Lw vsub].
    rewrite norm_x_axis, norm_x_axis_back, norm_y_axis. repeat split; lra.
  - left. cbn [cos_u vsub]. rewrite norm_x_axis, norm_x_axis_back.
    cbn [vscale dot]. lra.
Defined.

Lemma frame_of_0123 pA pB pC pD :
  frame_of torsion_0123 [pA; pB; pC; pD] = Ok (frame_at pA pB pC pD).
Proof. reflexivity. Qed.

Lemma norm_vsub_sym p q : norm (vsub p q) = norm (vsub q p).
Proof.
  destruct p as [[px py] pz], q as [[qx qy] qz]. unfold norm, vsub. f_equal. ring.
Qed.

Lemma frame_reversed pA pB pC pD :
  let f := frame_at pA pB pC pD in
  let f' := frame_at pD pC pB pA in
  Lu f' = Lv f /\ Lv f' = Lu f /\ Lw f' = Lw f /\
  cos_u f' = cos_v f /\ cos_v f' = cos_u f /\
  (forall i, comp (cross (u f') (w f')) i = - comp (cross (v f) (w f)) i) /\
  (forall i, comp (cross (v f') (w f')) i = - comp (cross (u f) (w f)) i).
Proof.
  intros f f'. subst f f'. unfold frame_at. cbn [Lu Lv Lw cos_u cos_v u v w].
  rewrite (norm_vsub_sym pB pC).
  generalize (1 / norm (vsub pA pB)) as ku, (1 / norm (vsub pD pC)) as kv,
             (1 / norm (vsub pC pB)) as kw.
  intros ku kv kw.
  destruct pA as [[ax ay] az], pB as [[bx by'] bz], pC as [[cx cy] cz], pD as [[dx dy] dz].
  cbn [vsub vscale dot cross].
  repeat split; try ring.
  - intros [|[|i]]; cbn [comp]; ring.
  - intros [|[|i]]; cbn [comp]; ring.
Qed.

Lemma DqDx_tval_reversed pA pB pC pD (a i : nat) :
  (a < 4)%nat ->
  DqDx_tval (frame_at pD pC pB pA) (3 - a) i = DqDx_tval (frame_at pA pB pC pD) a i.
Proof.
  intros Ha.
  destruct (frame_reversed pA pB pC pD) as (ELu & ELv & ELw & Ecu & Ecv & Euw & Evw).
  unfold DqDx_tval. rewrite ELu, ELv, ELw, Ecu, Ecv, Euw, Evw.
  destruct a as [|[|[|[|a]]]]; [| | | |lia]; cbn [Nat.sub Nat.eqb orb zeta];
    unfold Rdiv; ring.
Qed.

Lemma at_0_or_180_reversed pA pB pC pD :
  at_0_or_180 (frame_at pD pC pB pA) = at_0_or_180 (frame_at pA pB pC pD).
Proof.
  destruct (frame_reversed pA pB pC pD) as (_ & _ & _ & Ecu & Ecv & _).
  unfold at_0_or_180. rewrite Ecu, Ecv. apply orb_comm.
Qed.

Lemma DqDx_all pA pB pC pD (dqdx : list R) (mini : bool) :
  at_0_or_180 (frame_at pA pB pC pD) = false ->
  (12 <= length dqdx)%nat ->
  DqDx torsion_0123 [pA; pB; pC; pD] dqdx mini =
    Ok (DqDx_values (frame_at pA pB pC pD) ++ skipn 12 dqdx)%list.
Proof.
  intros Hf Hlen. unfold DqDx. rewrite frame_of_0123. cbn [obind]. rewrite Hf.
  do 12 (destruct dqdx as [|? dqdx]; [simpl in Hlen; lia|]).
  destruct mini; reflexivity.
Qed.

Lemma DqDx_values_lookup (f : frame) (rest : list R) (a i : nat) :
  (a < 4)%nat -> (i < 3)%nat ->
  (DqDx_values f ++ rest)%list !! (3 * a + i)%nat = Some (DqDx_tval f a i).
Proof.
  intros Ha Hi.
  destruct a as [|[|[|[|a]]]]; [| | | |lia];
    (destruct i as [|[|[|i]]]; [| | |lia]); reflexivity.
Qed.

(** C9.  For four points whose bonds have a length and whose two
    [1 - cos^2] terms both exceed 1e-12, [DqDx] over the points in the
    order (A,B,C,D) and over the same points in the order (D,C,B,A) writes
    the same number for every atom and axis: entry [3a+i] of the first
    result is entry [3(3-a)+i] of the second. *)
Theorem DqDx_invariant_under_reversal
    (pA pB pC pD : vec) (f : frame) (dqdx dqdx' : list R) (mini : bool) :
  frame_of torsion_0123 [pA; pB; pC; pD] = Ok f ->
  bonds_have_length f ->
  1.0e-12 < 1 - cos_u f * cos_u f ->
  1.0e-12 < 1 - cos_v f * cos_v f ->
  (12 <= length dqdx)%nat ->
  (12 <= length dqdx')%nat ->
  exists out out',
    DqDx torsion_0123 [pA; pB; pC; pD] dqdx mini = Ok out /\
    DqDx torsion_0123 [pD; pC; pB; pA] dqdx' mini = Ok out' /\
    forall a i, (a < 4)%nat -> (i < 3)%nat ->
      exists x, out !! (3 * a + i)%nat = Some x /\ out' !! (3 * (3 - a) + i)%nat = Some x.
Proof.
  intros Hf _ Hu Hv Hlen Hlen'.
  rewrite frame_of_0123 in Hf. injection Hf as <-.
  assert (Hguard : at_0_or_180 (frame_at pA pB pC pD) = false).
  { destruct (at_0_or_180 (frame_at pA pB pC pD)) eqn:E; [|reflexivity].
    apply at_0_or_180_iff in E. lra. }
  exists (DqDx_values (frame_at pA pB pC pD) ++ skipn 12 dqdx)%list,
         (DqDx_values (frame_at pD pC pB pA) ++ skipn 12 dqdx')%list.
  split; [now apply DqDx_all|].
  split; [apply DqDx_all; [now rewrite at_0_or_180_reversed | exact Hlen']|].
  intros a i Ha Hi. exists (DqDx_tval (frame_at pA pB pC pD) a i). split.
  - now apply DqDx_values_lookup.
  - rewrite DqDx_values_lookup by lia. f_equal. now apply DqDx_tval_reversed.
Qed.

Lemma norm_unit (x y z : R) : x * x + y * y + z * z = 1 -> norm (x, y, z) = 1.
Proof. intros E. unfold norm. rewrite E. apply sqrt_1. Qed.

Lemma DqDx_invariant_under_reversal_witness :
  exists out out',
    DqDx torsion_0123 [(1, 0, 0); (0, 0, 0); (0, 1, 0); (0, 1, 1)] (repeat 0 12) false = Ok out /\
    DqDx torsion_0123 [(0, 1, 1); (0, 1, 0); (0, 0, 0); (1, 0, 0)] (repeat 0 12) false = Ok out' /\
    forall a i, (a < 4)%nat -> (i < 3)%nat ->
      exists x, out !! (3 * a + i)%nat = Some x /\ out' !! (3 * (3 - a) + i)%nat = Some x.
Proof.
  assert (E1 : norm (1 - 0, 0 - 0, 0 - 0) = 1) by (apply norm_unit; ring).
  assert (E2 : norm (0 - 0, 1 - 1, 1 - 0) = 1) by (apply norm_unit; ring).
  assert (E3 : norm (0 - 0, 1 - 0, 0 - 0) = 1) by (apply norm_unit; ring).
  refine (DqDx_invariant_under_reversal (1, 0, 0) (0, 0, 0) (0, 1, 0) (0, 1, 1) _
            (repeat 0 12) (repeat 0 12) false eq_refl _ _ _ _ _).
  - unfold bonds_have_length. cbn [Lu Lv Lw vsub]. rewrite E1, E2, E3. repeat split; lra.
  - cbn [cos_u vsub]. rewrite E1, E3. cbn [vscale dot]. lra.
  - cbn [cos_v vsub]. rewrite E2, E3. cbn [vscale dot]. lra.
  - simpl. lia.
  - simpl. lia.
Defined.

(** ** Loops *)

Lemma for_each_invariant {A S : Type} (P : S -> Prop) (xs : list A)
    (body : A -> S -> outcome S) :
  (forall x s s', In x xs -> P s -> body x s = Ok s' -> P s') ->
  forall s s', P s -> for_each xs body s = Ok s' -> P s'.
Proof.
  induction xs as [|x xs IH]; intros Hbody s s' Hs Hrun; simpl in Hrun.
  - now injection Hrun as <-.
  - destruct (body x s) as [s1|e] eqn:E; simpl in Hrun; [|discriminate].
    apply (IH (fun y t t' Hy => Hbody y t t' (or_intror Hy)) s1 s'); [|exact Hrun].
    apply (Hbody x s s1); [now left | exact Hs | exact E].
Qed.

Lemma for_each_ext {A S : Type} (xs : list A) (body body' : A -> S -> outcome S) :
  (forall x s, body x s = body' x s) ->
  forall s, for_each xs body s = for_each xs body' s.
Proof.
  intros Hext. induction xs as [|x xs IH]; intros s; simpl; [reflexivity|].
  rewrite Hext. destruct (body' x s); simpl; [apply IH | reflexivity].
Qed.

Lemma for_each_app {A S : Type} (xs ys : list A) (body : A -> S -> outcome S) (s : S) :
  for_each (xs ++ ys)%list body s = obind (for_each xs body s) (for_each ys body).
Proof.
  revert s. induction xs as [|x xs IH]; intros s; simpl; [reflexivity|].
  destruct (body x s); simpl; [apply IH | reflexivity].
Qed.

Lemma for_each_flat_map {A B S : Type} (g : A -> list B) (xs : list A)
    (body : B -> S -> outcome S) (s : S) :
  for_each (flat_map g xs) body s = for_each xs (fun x s => for_each (g x) body s) s.
Proof.
  revert s. induction xs as [|x xs IH]; intros s; simpl; [reflexivity|].
  rewrite for_each_app. destruct (for_each (g x) body s); simpl; [apply IH | reflexivity].
Qed.

Lemma for_each_map {A B S : Type} (h : A -> B) (xs : list A)
    (body : B -> S -> outcome S) (s : S) :
  for_each (map h xs) body s = for_each xs (fun x => body (h x)) s.
Proof.
  revert s. induction xs as [|x xs IH]; intros s; simpl; [reflexivity|].
  destruct (body (h x) s); simpl; [apply IH | reflexivity].
Qed.

Lemma length_writes (ws : list (nat * R)) (s : list R) :
  length (foldl write s ws) = length s.
Proof.
  revert s. induction ws as [|[k x] ws IH]; intros s; simpl; [reflexivity|].
  rewrite IH. apply length_insert.
Qed.

Lemma for_each_store (ws : list (nat * R)) (s : list R) :
  for_each ws (fun kx s => store s kx.1 kx.2) s =
    if forallb (fun kx : nat * R => Nat.ltb kx.1 (length s)) ws
    then Ok (foldl write s ws) else Raise IndexError.
Proof.
  revert s. induction ws as [|[k x] ws IH]; intros s; simpl; [reflexivity|].
  unfold store at 1. simpl. destruct (Nat.ltb k (length s)); simpl; [|reflexivity].
  rewrite IH. unfold write at 3. simpl. now rewrite length_insert.
Qed.

Lemma lookup_writes_other (ws : list (nat * R)) (s : list R) (k : nat) :
  (forall x, ~ In (k, x) ws) -> foldl write s ws !! k = s !! k.
Proof.
  revert s. induction ws as [|[k' x'] ws IH]; intros s Hk; simpl; [reflexivity|].
  rewrite IH by (intros x Hx; apply (Hk x); now right).
  unfold write. simpl. apply list_lookup_insert_ne.
  intros ->. apply (Hk x'). now left.
Qed.

Lemma lookup_writes (ws : list (nat * R)) (s : list R) (k : nat) (x : R) :
  NoDup ws.*1 -> In (k, x) ws -> (k < length s)%nat ->
  foldl write s ws !! k = Some x.
Proof.
  revert s. induction ws as [|[k' x'] ws IH]; intros s Hnd Hin Hlen; [destruct Hin|].
  simpl in Hnd. apply NoDup_cons in Hnd as [Hfresh Hnd]. simpl.
  destruct Hin as [[= -> ->] | Hin].
  - rewrite lookup_writes_other.
    + unfold write. simpl. now apply list_lookup_insert_eq.
    + intros y Hy. apply Hfresh. apply list_elem_of_In.
      change k with (fst (k, y)). now apply in_map.
  - apply IH; [exact Hnd | exact Hin |]. unfold write. now rewrite length_insert.
Qed.

Lemma In_enumerate_from {A} (t : list A) (n a : nat) (x : A) :
  In (a, x) (combine (seq n (length t)) t) <-> (n <= a)%nat /\ t !! (a - n)%nat = Some x.
Proof.
  revert n. induction t as [|y t IH]; intros n; simpl.
  - split; [tauto | intros [_ [=]]].
  - rewrite IH. split.
    + intros [[= <- <-] | [Hle Hlook]].
      * split; [lia|]. now rewrite Nat.sub_diag.
      * split; [lia|]. replace (a - n)%nat with (S (a - S n)) by lia. exact Hlook.
    + intros [Hle Hlook]. destruct (a - n)%nat as [|m] eqn:E.
      * left. simpl in Hlook. injection Hlook as <-. f_equal. lia.
      * right. split; [lia|]. simpl in Hlook. replace (a - S n)%nat with m by lia. exact Hlook.
Qed.

Lemma In_enumerate {A} (t : list A) (a : nat) (x : A) :
  In (a, x) (enumerate t) <-> t !! a = Some x.
Proof.
  unfold enumerate. rewrite In_enumerate_from, Nat.sub_0_r. intuition lia.
Qed.

Lemma In_range (n i : nat) : In i (range n) <-> (i < n)%nat.
Proof. unfold range. rewrite in_seq. lia. Qed.

(** ** The first derivatives *)

Lemma In_DqDx_writes self f mini k x :
  In (k, x) (DqDx_writes self f mini) <->
  exists a B i, atoms (base self) !! a = Some B /\ (i < 3)%nat /\
                k = DqDx_index mini a B i /\ x = DqDx_tval f a i.
Proof.
  unfold DqDx_writes. rewrite in_flat_map. split.
  - intros ([a B] & HaB & Hin). apply in_map_iff in Hin as (i & [= <- <-] & Hi).
    exists a, B, i. rewrite <- In_enumerate, <- In_range. auto.
  - intros (a & B & i & HaB & Hi & -> & ->). exists (a, B). split.
    + now apply In_enumerate.
    + apply in_map_iff. exists i. split; [reflexivity | now apply In_range].
Qed.

Lemma DqDx_as_writes (self : TORS) (geom : list vec) (dqdx : list R) (mini : bool) :
  DqDx self geom dqdx mini =
    obind (frame_of self geom) (fun f =>
    if at_0_or_180 f then Ok dqdx
    else if forallb (fun kx : nat * R => Nat.ltb kx.1 (length dqdx)) (DqDx_writes self f mini)
         then Ok (foldl write dqdx (DqDx_writes self f mini))
         else Raise IndexError).
Proof.
  unfold DqDx. destruct (frame_of self geom) as [f|e]; cbn [obind]; [|reflexivity].
  destruct (at_0_or_180 f); [reflexivity|].
  rewrite <- for_each_store. unfold DqDx_writes. rewrite for_each_flat_map.
  apply for_each_ext. intros [a B] s. rewrite for_each_map.
  apply (for_each_ext (range 3)). intros i t. unfold DqDx_index. cbn [fst snd].
  now destruct mini.
Qed.

(** [DqDx] keeps the length of the buffer and every entry that does not
    belong to one of the torsion's atoms. *)
Theorem DqDx_writes_only_its_atoms
    (self : TORS) (geom : list vec) (dqdx out : list R) (mini : bool) :
  DqDx self geom dqdx mini = Ok out ->
  length out = length dqdx /\
  forall k, ~ DqDx_target self mini k -> out !! k = dqdx !! k.
Proof.
  rewrite DqDx_as_writes. destruct (frame_of self geom) as [f|e]; simpl; [|discriminate].
  destruct (at_0_or_180 f); [intros [= <-]; now split|].
  destruct (forallb _ _); [|discriminate]. intros [= <-]. split.
  - apply length_writes.
  - intros k Hk. apply lookup_writes_other. intros x Hx.
    apply In_DqDx_writes in Hx as (a & B & i & HaB & Hi & -> & _).
    apply Hk. now exists a, B, i.
Qed.

(** Away from the degenerate bend angles, [DqDx] returns exactly when the
    buffer has an entry for every atom of the torsion and every axis;
    otherwise it raises IndexError. *)
Theorem DqDx_needs_room
    (self : TORS) (geom : list vec) (f : frame) (dqdx : list R) (mini : bool) :
  frame_of self geom = Ok f ->
  at_0_or_180 f = false ->
  ((forall k, DqDx_target self mini k -> (k < length dqdx)%nat) ->
     exists out, DqDx self geom dqdx mini = Ok out) /\
  (forall k, DqDx_target self mini k -> (length dqdx <= k)%nat ->
     DqDx self geom dqdx mini = Raise IndexError).
Proof.
  intros Hf Hguard. rewrite DqDx_as_writes, Hf. simpl. rewrite Hguard. split.
  - intros Hroom.
    replace (forallb _ _) with true; [eauto|]. symmetry. apply forallb_forall.
    intros [k x] Hin. apply Nat.ltb_lt. apply Hroom.
    apply In_DqDx_writes in Hin as (a & B & i & HaB & Hi & -> & _). now exists a, B, i.
  - intros k (a & B & i & HaB & Hi & ->) Hout.
    destruct (forallb _ _) eqn:E; [|reflexivity]. exfalso.
    rewrite forallb_forall in E.
    specialize (E (DqDx_index mini a B i, DqDx_tval f a i)).
    rewrite In_DqDx_writes in E. simpl in E.
    assert (Hlt : Nat.ltb (DqDx_index mini a B i) (length dqdx) = true).
    { apply E. now exists a, B, i. }
    apply Nat.ltb_lt in Hlt. lia.
Qed.

Lemma DqDx_tval_sum (f : frame) (i : nat) :
  DqDx_tval f 0 i + DqDx_tval f 1 i + DqDx_tval f 2 i + DqDx_tval f 3 i = 0.
Proof. unfold DqDx_tval. cbn [Nat.eqb orb zeta]. unfold Rdiv. ring. Qed.

Lemma DqDx_index_inj mini a B i a' B' i' :
  (i < 3)%nat -> (i' < 3)%nat ->
  DqDx_index mini a B i = DqDx_index mini a' B' i' ->
  (if mini then a = a' else B = B') /\ i = i'.
Proof. unfold DqDx_index. destruct mini; simpl; lia. Qed.

(** The derivatives [DqDx] writes for the four atoms add up to zero along
    every axis: the torsion does not change when the molecule is moved as a
    whole. *)
Theorem DqDx_sums_to_zero
    (self : TORS) (A B C D : nat) (geom : list vec) (f : frame)
    (dqdx out : list R) (mini : bool) (i : nat) :
  atoms (base self) = [A; B; C; D] ->
  NoDup [A; B; C; D] ->
  frame_of self geom = Ok f ->
  at_0_or_180 f = false ->
  DqDx self geom dqdx mini = Ok out ->
  (i < 3)%nat ->
  exists gA gB gC gD,
    out !! DqDx_index mini 0 A i = Some gA /\
    out !! DqDx_index mini 1 B i = Some gB /\
    out !! DqDx_index mini 2 C i = Some gC /\
    out !! DqDx_index mini 3 D i = Some gD /\
    gA + gB + gC + gD = 0.
Proof.
  intros Hatoms Hnd Hf Hguard Hrun Hi.
  rewrite DqDx_as_writes, Hf in Hrun. simpl in Hrun. rewrite Hguard in Hrun.
  destruct (forallb _ _) eqn:Hroom; [|discriminate]. injection Hrun as <-.
  rewrite forallb_forall in Hroom.
  assert (Hnodup : NoDup (DqDx_writes self f mini).*1).
  { unfold DqDx_writes. rewrite Hatoms.
    apply NoDup_cons in Hnd as [HA Hnd]. apply NoDup_cons in Hnd as [HB Hnd].
    apply NoDup_cons in Hnd as [HC _].
    assert (A <> B /\ A <> C /\ A <> D /\ B <> C /\ B <> D /\ C <> D) as (? & ? & ? & ? & ? & ?).
    { repeat apply conj; intros ->; first [apply HA | apply HB | apply HC]; set_solver. }
    clear HA HB HC.
    unfold DqDx_index. destruct mini; simpl;
      repeat (apply NoDup_cons; split;
              [rewrite ?elem_of_cons, elem_of_nil; lia|]); apply NoDup_nil_2. }
  assert (Hval : forall a X, [A; B; C; D] !! a = Some X ->
            foldl write dqdx (DqDx_writes self f mini) !! DqDx_index mini a X i
              = Some (DqDx_tval f a i)).
  { intros a X HaX.
    assert (Hin : In (DqDx_index mini a X i, DqDx_tval f a i) (DqDx_writes self f mini)).
    { apply In_DqDx_writes. exists a, X, i. now rewrite Hatoms. }
    apply lookup_writes; [exact Hnodup | exact Hin |].
    apply Nat.ltb_lt. exact (Hroom _ Hin). }
  exists (DqDx_tval f 0 i), (DqDx_tval f 1 i), (DqDx_tval f 2 i), (DqDx_tval f 3 i).
  repeat apply conj; try (apply Hval; reflexivity). apply DqDx_tval_sum.
Qed.


Lemma square_corner_guard :
  at_0_or_180 (frame_at (1, 0, 0) (0, 0, 0) (0, 1, 0) (0, 1, 1)) = false.
Proof.
  assert (E1 : norm (1 - 0, 0 - 0, 0 - 0) = 1) by (unfold norm; replace (_ + _) with 1 by ring; apply sqrt_1).
  assert (E2 : norm (0 - 0, 1 - 1, 1 - 0) = 1) by (unfold norm; replace (_ + _) with 1 by ring; apply sqrt_1).
  assert (E3 : norm (0 - 0, 1 - 0, 0 - 0) = 1) by (unfold norm; replace (_ + _) with 1 by ring; apply sqrt_1).
  destruct (at_0_or_180 _) eqn:E; [|reflexivity]. exfalso.
  apply at_0_or_180_iff in E. cbn [frame_at cos_u cos_v vsub] in E.
  rewrite E1, E2, E3 in E. cbn [vscale dot] in E. lra.
Qed.

Lemma DqDx_writes_only_its_atoms_witness :
  let dqdx := repeat 0 15 in
  let out := (DqDx_values (frame_at (1, 0, 0) (0, 0, 0) (0, 1, 0) (0, 1, 1)) ++ skipn 12 dqdx)%list in
  length out = length dqdx /\
  forall k, ~ DqDx_target torsion_0123 false k -> out !! k = dqdx !! k.
Proof.
  refine (DqDx_writes_only_its_atoms torsion_0123 square_corner (repeat 0 15) _ false _).
  apply DqDx_all; [exact square_corner_guard | simpl; lia].
Defined.

Lemma DqDx_needs_room_witness :
  ((forall k, DqDx_target torsion_0123 false k -> (k < length (repeat 0 12))%nat) ->
     exists out, DqDx torsion_0123 square_corner (repeat 0 12) false = Ok out) /\
  (forall k, DqDx_target torsion_0123 false k -> (length (repeat 0 12) <= k)%nat ->
     DqDx torsion_0123 square_corner (repeat 0 12) false = Raise IndexError).
Proof.
  exact (DqDx_needs_room torsion_0123 square_corner _ (repeat 0 12) false
           Logic.eq_refl square_corner_guard).
Defined.

Lemma DqDx_sums_to_zero_witness :
  let out := (DqDx_values (frame_at (1, 0, 0) (0, 0, 0) (0, 1, 0) (0, 1, 1)) ++ [])%list in
  exists gA gB gC gD,
    out !! DqDx_index false 0 0 1 = Some gA /\
    out !! DqDx_index false 1 1 1 = Some gB /\
    out !! DqDx_index false 2 2 1 = Some gC /\
    out !! DqDx_index false 3 3 1 = Some gD /\
    gA + gB + gC + gD = 0.
Proof.
  refine (DqDx_sums_to_zero torsion_0123 0 1 2 3 square_corner _ (repeat 0 12) _ false 1
            Logic.eq_refl _ Logic.eq_refl square_corner_guard _ _); [| |lia].
  - repeat (apply NoDup_cons; split; [rewrite ?elem_of_cons, elem_of_nil; lia|]).
    apply NoDup_nil_2.
  - apply (DqDx_all (1, 0, 0) (0, 0, 0) (0, 1, 0) (0, 1, 1) (repeat 0 12) false);
      [exact square_corner_guard | simpl; lia].
Defined.

(** ** The second derivatives *)

Lemma store_Ok arr k x out :
  store arr k x = Ok out -> (k < length arr)%nat /\ out = <[k := x]> arr.
Proof.
  unfold store. destruct (Nat.ltb_spec k (length arr)); [|discriminate].
  intros [= <-]. now split.
Qed.

Lemma cell_store2 (m m' : list (list R)) (r c : nat) (x : R) :
  store2 m r c x = Ok m' ->
  same_shape m m' /\
  forall i j, cell m' i j = if decide (i = r /\ j = c) then Some x else cell m i j.
Proof.
  unfold store2, item. destruct (m !! r) as [row|] eqn:Hrow; [|discriminate].
  cbn [obind]. destruct (store row c x) as [row'|e] eqn:Hstore; [|discriminate].
  cbn [obind]. intros [= <-]. apply store_Ok in Hstore as [Hc ->].
  assert (Hr : (r < length m)%nat) by (eapply lookup_lt_Some; eassumption).
  split.
  - split; [apply length_insert|]. intros k.
    destruct (decide (r = k)) as [<- | Hne].
    + rewrite list_lookup_insert_eq by exact Hr. rewrite Hrow. simpl.
      now rewrite length_insert.
    + now rewrite list_lookup_insert_ne.
  - intros i j. unfold cell. destruct (decide (i = r)) as [-> | Hne].
    + rewrite list_lookup_insert_eq by exact Hr. rewrite Hrow.
      destruct (decide (j = c)) as [-> | Hne'].
      * rewrite list_lookup_insert_eq by exact Hc.
        now rewrite decide_True.
      * rewrite list_lookup_insert_ne by congruence.
        rewrite decide_False by tauto. reflexivity.
    + rewrite list_lookup_insert_ne by congruence.
      rewrite decide_False by tauto. reflexivity.
Qed.

Lemma same_shape_refl (m : list (list R)) : same_shape m m.
Proof. now split. Qed.

Lemma same_shape_trans (m1 m2 m3 : list (list R)) :
  same_shape m1 m2 -> same_shape m2 m3 -> same_shape m1 m3.
Proof.
  intros [H1 H1'] [H2 H2']. split; [congruence|]. intros r. now rewrite H2', H1'.
Qed.

Lemma Dq2Dx2_keeps_step (self : TORS) (m s s' : list (list R)) (a b i j : nat) (x : R) :
  (i < 3)%nat -> (j < 3)%nat ->
  Dq2Dx2_keeps self m s ->
  obind (item (atoms (base self)) a) (fun atom_a =>
  obind (item (atoms (base self)) b) (fun atom_b =>
  obind (store2 s (3 * atom_a + i) (3 * atom_b + j) x) (fun s1 =>
  store2 s1 (3 * atom_b + j) (3 * atom_a + i) x))) = Ok s' ->
  Dq2Dx2_keeps self m s'.
Proof.
  intros Hi Hj (Hshape & Hsym & Hframe). unfold item.
  destruct (atoms (base self) !! a) as [A|] eqn:HA; [|discriminate]. cbn [obind].
  destruct (atoms (base self) !! b) as [B|] eqn:HB; [|discriminate]. cbn [obind].
  destruct (store2 s _ _ x) as [s1|e] eqn:H1; [|discriminate]. cbn [obind].
  intros H2. apply cell_store2 in H1 as [Hs1 Hc1]. apply cell_store2 in H2 as [Hs2 Hc2].
  split; [|split].
  - eapply same_shape_trans; [exact Hshape|]. eapply same_shape_trans; eassumption.
  - intros Hm r c. specialize (Hsym Hm). rewrite !Hc2, !Hc1.
    repeat case_decide; try reflexivity; try (exfalso; lia); apply Hsym.
  - intros r c Hout. rewrite Hc2, Hc1, <- Hframe by exact Hout.
    assert (HownA : own_coordinate self (3 * A + i)) by (now exists a, A, i).
    assert (HownB : own_coordinate self (3 * B + j)) by (now exists b, B, j).
    repeat case_decide; try reflexivity; exfalso; apply Hout;
      destruct_and!; subst; now split.
Qed.

(** [Dq2Dx2] keeps the matrix's shape, writes only entries whose row and
    column both belong to atoms of the torsion, and hands back a symmetric
    matrix whenever it was given one. *)
Theorem Dq2Dx2_keeps_the_matrix_symmetric
    (self : TORS) (geom : list vec) (dq2dx2 out : list (list R)) :
  Dq2Dx2 self geom dq2dx2 = Ok out ->
  same_shape dq2dx2 out /\
  (symmetric dq2dx2 -> symmetric out) /\
  (forall r c, ~ (own_coordinate self r /\ own_coordinate self c) ->
     cell out r c = cell dq2dx2 r c).
Proof.
  unfold Dq2Dx2. destruct (frame_of self geom) as [f|e]; cbn [obind]; [|discriminate].
  destruct (at_0_or_180 f).
  { intros [= <-]. split; [apply same_shape_refl|]. split; [auto|reflexivity]. }
  assert (Hstart : Dq2Dx2_keeps self dq2dx2 dq2dx2).
  { split; [apply same_shape_refl|]. split; [auto|reflexivity]. }
  intros Hrun.
  refine (for_each_invariant (Dq2Dx2_keeps self dq2dx2) _ _ _ _ _ Hstart Hrun).
  clear Hrun Hstart. intros a s s' _ Hs Hrun.
  refine (for_each_invariant (Dq2Dx2_keeps self dq2dx2) _ _ _ _ _ Hs Hrun).
  clear s s' Hrun Hs. intros b s s' _ Hs Hrun.
  refine (for_each_invariant (Dq2Dx2_keeps self dq2dx2) _ _ _ _ _ Hs Hrun).
  clear s s' Hrun Hs. intros i s s' Hi Hs Hrun.
  refine (for_each_invariant (Dq2Dx2_keeps self dq2dx2) _ _ _ _ _ Hs Hrun).
  clear s s' Hrun Hs. intros j s s' Hj Hs.
  apply In_range in Hi, Hj. now apply Dq2Dx2_keeps_step.
Qed.


Lemma cell_same_shape (m s : list (list R)) (r c : nat) :
  same_shape m s -> is_Some (cell m r c) -> is_Some (cell s r c).
Proof.
  intros [_ Hrows]. specialize (Hrows r). unfold cell.
  destruct (m !! r) as [row|]; [|intros [? [=]]].
  destruct (s !! r) as [row'|]; [|discriminate]. simpl in Hrows.
  injection Hrows as Hlen. rewrite !lookup_lt_is_Some. lia.
Qed.

Lemma store2_succeeds (s : list (list R)) (r c : nat) (x : R) :
  is_Some (cell s r c) -> exists s', store2 s r c x = Ok s'.
Proof.
  unfold cell, store2, item, store. destruct (s !! r) as [row|]; [|intros [? [=]]].
  intros Hc. apply lookup_lt_is_Some in Hc. cbn [obind].
  destruct (Nat.ltb_spec c (length row)); [|lia]. cbn [obind]. eauto.
Qed.

Lemma for_each_succeeds {A S : Type} (P : S -> Prop) (xs : list A)
    (body : A -> S -> outcome S) :
  (forall x s, In x xs -> P s -> exists s', body x s = Ok s' /\ P s') ->
  forall s, P s -> exists s', for_each xs body s = Ok s' /\ P s'.
Proof.
  induction xs as [|x xs IH]; intros Hbody s Hs; simpl.
  - now exists s.
  - destruct (Hbody x s (or_introl Logic.eq_refl) Hs) as (s1 & E & Hs1). rewrite E. simpl.
    apply IH; [|exact Hs1]. intros y t Hy. apply Hbody. now right.
Qed.

(** Away from the degenerate bend angles, [Dq2Dx2] returns when the tuple
    has four atoms and the matrix has an entry for every pair of their
    coordinates. *)
Lemma Dq2Dx2_succeeds (self : TORS) (geom : list vec) (f : frame) (dq2dx2 : list (list R)) :
  frame_of self geom = Ok f ->
  (forall a, (a < 4)%nat -> is_Some (atoms (base self) !! a)) ->
  (forall r c, own_coordinate self r -> own_coordinate self c -> is_Some (cell dq2dx2 r c)) ->
  exists out, Dq2Dx2 self geom dq2dx2 = Ok out.
Proof.
  intros Hf Hatoms Hroom. unfold Dq2Dx2. rewrite Hf. cbn [obind].
  destruct (at_0_or_180 f); [eauto|].
  enough (exists out, for_each (range 4) (fun a m =>
            for_each (range (a + 1)) (fun b m =>
              for_each (range 3) (fun i m =>
                for_each (range 3) (fun j m =>
                  obind (item (atoms (base self)) a) (fun atom_a =>
                  obind (item (atoms (base self)) b) (fun atom_b =>
                  obind (store2 m (3 * atom_a + i) (3 * atom_b + j) (Dq2Dx2_tval f a b i j))
                    (fun m => store2 m (3 * atom_b + j) (3 * atom_a + i)
                                (Dq2Dx2_tval f a b i j))))) m) m) m) dq2dx2 = Ok out /\
            same_shape dq2dx2 out) as (out & E & _) by eauto.
  apply for_each_succeeds; [|apply same_shape_refl]. intros a s Ha Hs.
  apply for_each_succeeds; [|exact Hs]. clear s Hs. intros b s Hb Hs.
  apply for_each_succeeds; [|exact Hs]. clear s Hs. intros i s Hi Hs.
  apply for_each_succeeds; [|exact Hs]. clear s Hs. intros j s Hj Hs.
  apply In_range in Ha, Hb, Hi, Hj.
  destruct (Hatoms a Ha) as [A HA]. destruct (Hatoms b ltac:(lia)) as [B HB].
  unfold item. rewrite HA, HB. cbn [obind].
  assert (HownA : own_coordinate self (3 * A + i)) by (now exists a, A, i).
  assert (HownB : own_coordinate self (3 * B + j)) by (now exists b, B, j).
  destruct (store2_succeeds s (3 * A + i) (3 * B + j) (Dq2Dx2_tval f a b i j)) as [s1 E1].
  { eapply cell_same_shape; [exact Hs | now apply Hroom]. }
  rewrite E1. cbn [obind]. pose proof (cell_store2 _ _ _ _ _ E1) as [Hs1 _].
  assert (Hs1' : same_shape dq2dx2 s1) by (eapply same_shape_trans; eassumption).
  destruct (store2_succeeds s1 (3 * B + j) (3 * A + i) (Dq2Dx2_tval f a b i j)) as [s2 E2].
  { eapply cell_same_shape; [exact Hs1' | now apply Hroom]. }
  exists s2. split; [exact E2|].
  pose proof (cell_store2 _ _ _ _ _ E2) as [Hs2 _].
  eapply same_shape_trans; eassumption.
Qed.

Lemma lookup_repeat {A} (x : A) (n i : nat) : (i < n)%nat -> repeat x n !! i = Some x.
Proof.
  revert i. induction n as [|n IH]; intros i Hi; [lia|].
  destruct i as [|i]; [reflexivity|]. simpl. apply IH. lia.
Qed.

Lemma own_coordinate_0123 (k : nat) : own_coordinate torsion_0123 k -> (k < 12)%nat.
Proof.
  intros (a & B & i & HaB & Hi & ->).
  assert (B < 4)%nat; [|lia].
  destruct a as [|[|[|[|a]]]]; simpl in HaB; try discriminate; injection HaB as <-; lia.
Qed.

Lemma Dq2Dx2_keeps_the_matrix_symmetric_witness :
  exists out,
    Dq2Dx2 torsion_0123 square_corner (repeat (repeat 0 12) 12) = Ok out /\
    same_shape (repeat (repeat 0 12) 12) out /\
    (symmetric (repeat (repeat 0 12) 12) -> symmetric out) /\
    (forall r c, ~ (own_coordinate torsion_0123 r /\ own_coordinate torsion_0123 c) ->
       cell out r c = cell (repeat (repeat 0 12) 12) r c).
Proof.
  destruct (Dq2Dx2_succeeds torsion_0123 square_corner _ (repeat (repeat 0 12) 12)
              Logic.eq_refl) as [out E].
  - intros a Ha. do 4 (destruct a as [|a]; [eexists; reflexivity|]). lia.
  - intros r c Hr%own_coordinate_0123 Hc%own_coordinate_0123. unfold cell.
    rewrite (lookup_repeat (repeat 0 12)) by exact Hr.
    rewrite lookup_repeat by exact Hc. eauto.
  - exists out. split; [exact E|].
    exact (Dq2Dx2_keeps_the_matrix_symmetric torsion_0123 square_corner _ out E).
Defined.

(** ** The orientation memory *)

Section Orientation.
Variable v3d_tors : vec -> vec -> vec -> vec -> bool * R.

(** Where [v3d.tors] reports an angle between -pi and pi,
    [updateOrientation] leaves [near180] at -1, 0 or +1, and the torsion it
    leaves returns at the same geometry the value it returned before, and
    keeps its orientation when updated again there. *)
Theorem updateOrientation_keeps_the_value
    (self : TORS) (geom : list vec) (pA pB pC pD : vec) (tau : R) :
  position geom (atom_A self) = Ok pA ->
  position geom (atom_B self) = Ok pB ->
  position geom (atom_C self) = Ok pC ->
  position geom (atom_D self) = Ok pD ->
  v3d_tors pA pB pC pD = (true, tau) ->
  - PI <= tau <= PI ->
  exists self' value,
    updateOrientation v3d_tors self geom = Ok self' /\
    q v3d_tors self geom = Ok value /\
    q v3d_tors self' geom = Ok value /\
    updateOrientation v3d_tors self' geom = Ok self' /\
    base self' = base self /\
    (near180 self' = (-1)%Z \/ near180 self' = 0%Z \/ near180 self' = 1%Z).
Proof.
  intros HA HB HC HD Htors Hrange.
  assert (Hq : forall t : TORS, base t = base self ->
            q v3d_tors t geom =
              if Z.eqb (_near180 t) (-1) && rgt tau fix_val_near_pi
              then Ok (tau - 2 * PI)
              else if Z.eqb (_near180 t) 1 && rlt tau (-1 * fix_val_near_pi)
                   then Ok (tau + 2 * PI)
                   else Ok tau).
  { intros t Ht. unfold q, atom_A, atom_B, atom_C, atom_D in *. rewrite Ht.
    rewrite HA, HB, HC, HD. cbn [obind]. now rewrite Htors. }
  pose proof PI2_3_2 as Hpi.
  assert (Hup : forall t : TORS, base t = base self ->
            updateOrientation v3d_tors t geom =
              obind (q v3d_tors t geom) (fun tval =>
                if rgt tval fix_val_near_pi
                then Ok {| base := base self; _near180 := 1 |}
                else if rlt tval (-1 * fix_val_near_pi)
                     then Ok {| base := base self; _near180 := -1 |}
                     else Ok {| base := base self; _near180 := 0 |})).
  { intros t Ht. unfold updateOrientation. now rewrite Ht. }
  rewrite (Hup self Logic.eq_refl), (Hq self Logic.eq_refl).
  unfold rgt, rlt, fix_val_near_pi, near180 in *.
  destruct (Z.eqb_spec (_near180 self) (-1)) as [Em | Em]; cbn [andb].
  - destruct (Rgt_dec tau 1.57) as [Hgt | Hle].
    + cbn [obind]. destruct (Rgt_dec (tau - 2 * PI) 1.57); [lra|].
      destruct (Rlt_dec (tau - 2 * PI) (-1 * 1.57)); [|lra].
      eexists _, _. split; [reflexivity|]. split; [reflexivity|].
      rewrite Hup, Hq by reflexivity. cbn [_near180 Z.eqb Pos.eqb andb].
      destruct (Rgt_dec tau 1.57); [|lra]. cbn [obind].
      destruct (Rgt_dec (tau - 2 * PI) 1.57); [lra|].
      destruct (Rlt_dec (tau - 2 * PI) (-1 * 1.57)); [|lra].
      repeat apply conj; try reflexivity. now left.
    + rewrite Em. cbn [Z.eqb andb obind].
      destruct (Rgt_dec tau 1.57); [lra|].
      destruct (Rlt_dec tau (-1 * 1.57)).
      * eexists _, _. split; [reflexivity|]. split; [reflexivity|].
        rewrite Hup, Hq by reflexivity. cbn [_near180 Z.eqb Pos.eqb andb].
        destruct (Rgt_dec tau 1.57); [lra|]. cbn [obind].
        destruct (Rgt_dec tau 1.57); [lra|].
        destruct (Rlt_dec tau (-1 * 1.57)); [|lra].
        repeat apply conj; try reflexivity. now left.
      * eexists _, _. split; [reflexivity|]. split; [reflexivity|].
        rewrite Hup, Hq by reflexivity. cbn [_near180 Z.eqb Pos.eqb andb obind].
        destruct (Rgt_dec tau 1.57); [lra|].
        destruct (Rlt_dec tau (-1 * 1.57)); [lra|].
        repeat apply conj; try reflexivity. right. now left.
  - destruct (Z.eqb_spec (_near180 self) 1) as [Ep | Ep]; cbn [andb].
    + destruct (Rlt_dec tau (-1 * 1.57)) as [Hlt | Hge].
      * cbn [obind]. destruct (Rgt_dec (tau + 2 * PI) 1.57); [|lra].
        eexists _, _. split; [reflexivity|]. split; [reflexivity|].
        rewrite Hup, Hq by reflexivity. cbn [_near180 Z.eqb Pos.eqb andb].
        destruct (Rlt_dec tau (-1 * 1.57)); [|lra]. cbn [obind].
        destruct (Rgt_dec (tau + 2 * PI) 1.57); [|lra].
        repeat apply conj; try reflexivity. right. now right.
      * cbn [obind]. destruct (Rgt_dec tau 1.57).
        -- eexists _, _. split; [reflexivity|]. split; [reflexivity|].
           rewrite Hup, Hq by reflexivity. cbn [_near180 Z.eqb Pos.eqb andb].
           destruct (Rlt_dec tau (-1 * 1.57)); [lra|]. cbn [obind].
           destruct (Rgt_dec tau 1.57); [|lra].
           repeat apply conj; try reflexivity. right. now right.
        -- destruct (Rlt_dec tau (-1 * 1.57)); [lra|].
           eexists _, _. split; [reflexivity|]. split; [reflexivity|].
           rewrite Hup, Hq by reflexivity. cbn [_near180 Z.eqb Pos.eqb andb obind].
           destruct (Rgt_dec tau 1.57); [lra|].
           destruct (Rlt_dec tau (-1 * 1.57)); [lra|].
           repeat apply conj; try reflexivity. right. now left.
    + cbn [obind]. destruct (Rgt_dec tau 1.57).
      * eexists _, _. split; [reflexivity|]. split; [reflexivity|].
        rewrite Hup, Hq by reflexivity. cbn [_near180 Z.eqb Pos.eqb andb].
        destruct (Rlt_dec tau (-1 * 1.57)); [lra|]. cbn [obind].
        destruct (Rgt_dec tau 1.57); [|lra].
        repeat apply conj; try reflexivity. right. now right.
      * destruct (Rlt_dec tau (-1 * 1.57)).
        -- eexists _, _. split; [reflexivity|]. split; [reflexivity|].
           rewrite Hup, Hq by reflexivity. cbn [_near180 Z.eqb Pos.eqb andb].
           destruct (Rgt_dec tau 1.57); [lra|]. cbn [obind].
           destruct (Rgt_dec tau 1.57); [lra|].
           destruct (Rlt_dec tau (-1 * 1.57)); [|lra].
           repeat apply conj; try reflexivity. now left.
        -- eexists _, _. split; [reflexivity|]. split; [reflexivity|].
           rewrite Hup, Hq by reflexivity. cbn [_near180 Z.eqb Pos.eqb andb obind].
           destruct (Rgt_dec tau 1.57); [lra|].
           destruct (Rlt_dec tau (-1 * 1.57)); [lra|].
           repeat apply conj; try reflexivity. right. now left.
Qed.

End Orientation.

Lemma updateOrientation_keeps_the_value_witness :
  let reading := fun _ _ _ _ : vec => (true, -3) in
  exists self' value,
    updateOrientation reading torsion_0123_near_pi square_corner = Ok self' /\
    q reading torsion_0123_near_pi square_corner = Ok value /\
    q reading self' square_corner = Ok value /\
    updateOrientation reading self' square_corner = Ok self' /\
    base self' = base torsion_0123_near_pi /\
    (near180 self' = (-1)%Z \/ near180 self' = 0%Z \/ near180 self' = 1%Z).
Proof.
  refine (updateOrientation_keeps_the_value (fun _ _ _ _ => (true, -3))
            torsion_0123_near_pi square_corner (1, 0, 0) (0, 0, 0) (0, 1, 0) (0, 1, 1) (-3)
            Logic.eq_refl Logic.eq_refl Logic.eq_refl Logic.eq_refl Logic.eq_refl _).
  pose proof PI2_3_2. lra.
Defined.

(** ** The atom tuple *)

(** The constructor always stores the smaller end atom first or, with
    equal ends, the tuple reversed; it starts with no orientation memory and
    keeps the two flags.  Comparison looks at the atom tuple only: it is
    reflexive and symmetric, and ignores the frozen flag, the fixed value and
    the orientation memory. *)
Theorem torsion_ends_in_order (a b c d : nat) (fr : bool) (fx : option R) :
  (exists A B C D, atoms (base (init a b c d fr fx)) = [A; B; C; D] /\ (A <= D)%nat) /\
  near180 (init a b c d fr fx) = 0%Z /\
  frozen (base (init a b c d fr fx)) = fr /\
  fixedEqVal (base (init a b c d fr fx)) = fx /\
  (forall s t : TORS, eq s (a_TORS t) = Ok (tuple_eqb (atoms (base s)) (atoms (base t)))) /\
  (forall s : TORS, eq s (a_TORS s) = Ok true) /\
  (forall s t : TORS, eq s (a_TORS t) = eq t (a_TORS s)).
Proof.
  assert (Heq : forall s t : TORS,
            eq s (a_TORS t) = Ok (tuple_eqb (atoms (base s)) (atoms (base t)))).
  { intros s t. unfold eq. cbn [object_atoms obind is_TORS negb].
    now destruct (tuple_eqb _ _). }
  assert (Hsym : forall s t : list nat, tuple_eqb s t = tuple_eqb t s).
  { induction s as [|x s IH]; intros [|y t]; simpl; try reflexivity.
    now rewrite IH, Nat.eqb_sym. }
  repeat apply conj; try reflexivity.
  - unfold init. cbn [base atoms]. destruct (Nat.ltb_spec a d).
    + exists a, b, c, d. split; [reflexivity | lia].
    + exists d, c, b, a. split; [reflexivity | lia].
  - exact Heq.
  - intros s. now rewrite Heq, tuple_eqb_same.
  - intros s t. now rewrite !Heq, Hsym.
Qed.

(** A torsion needs the positions of its four atoms: where the geometry
    has no row for one of them, the value and both derivatives fail with
    IndexError, whatever [v3d.tors] would answer, and the buffers are not
    written. *)
Theorem torsion_needs_its_atoms
    (v3d_tors : vec -> vec -> vec -> vec -> bool * R)
    (self : TORS) (A B C D : nat) (geom : list vec) :
  atoms (base self) = [A; B; C; D] ->
  (length geom <= A \/ length geom <= B \/ length geom <= C \/ length geom <= D)%nat ->
  q v3d_tors self geom = Raise IndexError /\
  updateOrientation v3d_tors self geom = Raise IndexError /\
  (forall dqdx mini, DqDx self geom dqdx mini = Raise IndexError) /\
  (forall dq2dx2, Dq2Dx2 self geom dq2dx2 = Raise IndexError).
Proof.
  intros Hatoms Hout.
  assert (Hpos : forall k, position geom (item [A; B; C; D] k) =
                           match [A; B; C; D] !! k with
                           | Some X => match geom !! X with
                                       | Some p => Ok p
                                       | None => Raise IndexError
                                       end
                           | None => Raise IndexError
                           end).
  { intros k. unfold position, item. destruct ([A; B; C; D] !! k); reflexivity. }
  assert (Hmiss : forall X, (length geom <= X)%nat -> geom !! X = None).
  { intros X HX. now apply lookup_ge_None. }
  assert (Hq : q v3d_tors self geom = Raise IndexError).
  { unfold q, atom_A, atom_B, atom_C, atom_D. rewrite Hatoms, !Hpos. cbn [lookup list_lookup].
    destruct (geom !! A) eqn:EA; cbn [obind]; [|reflexivity].
    destruct (geom !! B) eqn:EB; cbn [obind]; [|reflexivity].
    destruct (geom !! C) eqn:EC; cbn [obind]; [|reflexivity].
    destruct (geom !! D) eqn:ED; cbn [obind]; [|reflexivity].
    destruct Hout as [HX | [HX | [HX | HX]]]; apply Hmiss in HX; congruence. }
  assert (Hf : frame_of self geom = Raise IndexError).
  { unfold frame_of, atom_A, atom_B, atom_C, atom_D. rewrite Hatoms, !Hpos.
    cbn [lookup list_lookup].
    destruct (geom !! A) eqn:EA; cbn [obind]; [|reflexivity].
    destruct (geom !! B) eqn:EB; cbn [obind]; [|reflexivity].
    destruct (geom !! D) eqn:ED; cbn [obind]; [|reflexivity].
    destruct (geom !! C) eqn:EC; cbn [obind]; [|reflexivity].
    destruct Hout as [HX | [HX | [HX | HX]]]; apply Hmiss in HX; congruence. }
  split; [exact Hq|]. split; [unfold updateOrientation; now rewrite Hq|].
  split.
  - intros dqdx mini. unfold DqDx. now rewrite Hf.
  - intros dq2dx2. unfold Dq2Dx2. now rewrite Hf.
Qed.

Lemma torsion_needs_its_atoms_witness :
  let reading := fun _ _ _ _ : vec => (true, 0) in
  let geom := [ (1, 0, 0); (0, 0, 0); (0, 1, 0) ] in
  q reading torsion_0123 geom = Raise IndexError /\
  updateOrientation reading torsion_0123 geom = Raise IndexError /\
  (forall dqdx mini, DqDx torsion_0123 geom dqdx mini = Raise IndexError) /\
  (forall dq2dx2, Dq2Dx2 torsion_0123 geom dq2dx2 = Raise IndexError).
Proof.
  refine (torsion_needs_its_atoms (fun _ _ _ _ => (true, 0)) torsion_0123 0 1 2 3
            [ (1, 0, 0); (0, 0, 0); (0, 1, 0) ] Logic.eq_refl _).
  simpl. lia.
Defined.

End torsFacts.
